(** * File transfer over a byte stream: packetizer and reassembler

    A shallow embedding of the two GNU Radio blocks of the repository,

    - [data_epy_block_0.py]        ("Meta+File Source (tagged)", the producer),
    - [mpsk_stage6_epy_block_0.py] ("File Reassembler (scan-stream)", the consumer),

    and the properties of their wire format, state machines and file
    completion protocol.

    Python integers are [Z]; [bytes] and [bytearray] are [list byte]; a Python
    [str] is the list of its code points; an attribute that may hold [None]
    is an [option]; a raised exception is the [Raise] result.  Each method
    takes the object it mutates and returns the mutated object. *)

From Stdlib Require Import ZArith List Lia Bool Strings.Byte Strings.String Strings.Ascii.
From Stdlib Require Import Decimal DecimalNat.
From stdpp Require Import gmap.
Import ListNotations.

Local Open Scope Z_scope.

(** ** Python values *)

Module Py.

(** A [str]: the sequence of its code points. *)
Abbreviation pystr := (list N).

(** A [str] literal of 8-bit characters. *)
Definition lit (s : string) : pystr := map N_of_ascii (list_ascii_of_string s).

(** [bool(x)] of a [str] that may be [None]. *)
Definition truthy (name : option pystr) : bool :=
  match name with
  | Some (_ :: _) => true
  | _ => false
  end.

Definition len {A} (l : list A) : Z := Z.of_nat (length l).

(** [l[a:b]] for [0 <= a]. *)
Definition slice {A} (l : list A) (a b : Z) : list A :=
  firstn (Z.to_nat (b - a)) (skipn (Z.to_nat a) l).

(** [l[:k]] for [0 <= k]. *)
Definition upto {A} (k : Z) (l : list A) : list A := firstn (Z.to_nat k) l.

(** [del l[:k]] for [0 <= k]. *)
Definition del_prefix {A} (k : Z) (l : list A) : list A := skipn (Z.to_nat k) l.

(** [l[-k:]] for [0 < k]: the last [k] items, all of [l] when it is shorter. *)
Definition last_items {A} (k : Z) (l : list A) : list A :=
  skipn (Z.to_nat (len l - k)) l.

Definition byte_val (b : byte) : Z := Z.of_N (Byte.to_N b).

Definition byte_of_val (z : Z) : byte :=
  match Byte.of_N (Z.to_N (z mod 256)) with
  | Some b => b
  | None => x00
  end.

(** [l[i]] as an integer, for [0 <= i < len l]. *)
Definition item (l : list byte) (i : Z) : Z := byte_val (nth (Z.to_nat i) l x00).

(** [b"\x00" * k]. *)
Definition zeros (k : Z) : list byte := repeat x00 (Z.to_nat k).

Fixpoint bytes_eqb (a b : list byte) : bool :=
  match a, b with
  | [], [] => true
  | x :: a', y :: b' => Byte.eqb x y && bytes_eqb a' b'
  | _, _ => false
  end.

Fixpoint starts_with (pat l : list byte) : bool :=
  match pat, l with
  | [], _ => true
  | p :: pat', x :: l' => Byte.eqb p x && starts_with pat' l'
  | _ :: _, [] => false
  end.

Fixpoint find_at (pat l : list byte) (pos : Z) : Z :=
  if starts_with pat l then pos
  else match l with
       | [] => -1
       | _ :: l' => find_at pat l' (pos + 1)
       end.

(** [l.find(pat, start)] for [0 <= start]: the lowest index [>= start] at
    which [pat] occurs, [-1] when there is none. *)
Definition find (l pat : list byte) (start : Z) : Z :=
  if len l <? start then -1 else find_at pat (skipn (Z.to_nat start) l) start.

(** Little-endian integers, as [struct] lays them out. *)
Fixpoint le_bytes (n : nat) (z : Z) : list byte :=
  match n with
  | O => []
  | S n' => byte_of_val z :: le_bytes n' (z / 256)
  end.

Fixpoint le_int (bs : list byte) : Z :=
  match bs with
  | [] => 0
  | b :: bs' => byte_val b + 256 * le_int bs'
  end.

Inductive exn := ValueError | StructError | TypeError | FileNotFoundError | OSError.

Inductive Result (A : Type) :=
| Ok (a : A)
| Raise (e : exn).
Arguments Ok {A} a.
Arguments Raise {A} e.

Definition bind {A B} (r : Result A) (k : A → Result B) : Result B :=
  match r with
  | Ok a => k a
  | Raise e => Raise e
  end.

(** [struct.pack("<B" | "<H" | "<Q", v)]: [struct.error] out of range. *)
Definition pack (width : nat) (v : Z) : Result (list byte) :=
  if (0 <=? v) && (v <? 256 ^ Z.of_nat width) then Ok (le_bytes width v)
  else Raise StructError.

Definition pack_B := pack 1.
Definition pack_H := pack 2.
Definition pack_Q := pack 8.

(** [struct.unpack("<H" | "<Q", bs)[0]] on a slice of the right width. *)
Definition unpack (bs : list byte) : Z := le_int bs.

Definition digit (d : N) : N := (48 + d)%N.

Fixpoint digits (u : Decimal.uint) : pystr :=
  match u with
  | Nil => []
  | D0 u => digit 0 :: digits u
  | D1 u => digit 1 :: digits u
  | D2 u => digit 2 :: digits u
  | D3 u => digit 3 :: digits u
  | D4 u => digit 4 :: digits u
  | D5 u => digit 5 :: digits u
  | D6 u => digit 6 :: digits u
  | D7 u => digit 7 :: digits u
  | D8 u => digit 8 :: digits u
  | D9 u => digit 9 :: digits u
  end.

(** [str(k)] of a natural number, as an f-string formats it. *)
Definition str_of_nat (k : nat) : pystr := digits (Nat.to_uint k).

Fixpoint lstrip_nul (s : pystr) : pystr :=
  match s with
  | 0%N :: s' => lstrip_nul s'
  | _ => s
  end.

(** [s.strip("\x00")]. *)
Definition strip_nul (s : pystr) : pystr := rev (lstrip_nul (rev (lstrip_nul s))).

Definition is_empty {A} (l : list A) : bool :=
  match l with
  | [] => true
  | _ => false
  end.

End Py.

Import Py.

#[global] Instance Result_bind : MBind Result := λ A B k r, bind r k.
#[global] Instance Result_ret : MRet Result := @Ok.

(** ** What the blocks require of the Python runtime

    The codec and [os.path] belong to the interpreter and the operating
    system; the blocks use them through this interface. *)

Class Platform := {
  (** [bs.decode("utf-8", errors="ignore")] *)
  decode_ignore : list byte → pystr;
  (** [s.encode("utf-8", errors="ignore")] *)
  encode_ignore : pystr → list byte;
  (** [os.path.basename] *)
  basename : pystr → pystr;
  (** [os.path.join] of two components *)
  join : pystr → pystr → pystr;
  (** [os.path.splitext] *)
  splitext : pystr → pystr * pystr;
}.

(** The files of the receiving side: path to content, as the operating
    system has them. *)
Abbreviation FileStore := (gmap pystr (list byte)).

(** What the operating system and the buffered file object answer on the
    receiving side.  Each call may be refused; a buffered writer passes on
    what it is given when it sees fit. *)
Class Disk := {
  (** [open(path, "wb")]: the exception it raises, if it raises *)
  open_error : pystr → option exn;
  (** [fh.write(chunk)] on the file opened at [path] while the file object
      holds [held]: the exception it raises, if it raises *)
  write_error : pystr → list byte → list byte → option exn;
  (** and, when it returns, how many bytes of [held ++ chunk] it has passed
      on to the file; the file object holds the rest *)
  write_passes : pystr → list byte → list byte → Z;
  (** [fh.flush()] and [fh.close()] on the file opened at [path] while the
      file object holds [held]: how many bytes of [held] reach the file;
      all of them when neither call raises *)
  flush_passes : pystr → list byte → Z;
  (** [os.replace(src, dst)] for a [src] that exists: the exception it
      raises, if it raises *)
  replace_error : pystr → pystr → option exn;
}.

Definition MAGIC : list byte := [x46; x49; x4c; x45].

(** ** The reassembler: [mpsk_stage6_epy_block_0.py] *)

Module Reassembler.

Inductive State := SCAN | RECV | DONE.

Record blk := {
  out_dir : pystr;
  debug : bool;
  overwrite : bool;
  max_buffer : Z;
  state : State;
  buf : list byte;
  meta_len : option Z;
  file_size : option Z;
  file_name : option pystr;
  (** the open output file, by the path it was opened at *)
  fh : option pystr;
  (** what [fh] has been given and still holds: the buffer of the file
      object *)
  unflushed : list byte;
  part_path : option pystr;
  final_path : option pystr;
  written : Z;
  done : bool;
}.

Definition set_state (v : State) (s : blk) : blk :=
  {| out_dir := out_dir s; debug := debug s; overwrite := overwrite s;
     max_buffer := max_buffer s; state := v; buf := buf s;
     meta_len := meta_len s; file_size := file_size s; file_name := file_name s;
     fh := fh s; unflushed := unflushed s; part_path := part_path s; final_path := final_path s;
     written := written s; done := done s |}.

Definition set_buf (v : list byte) (s : blk) : blk :=
  {| out_dir := out_dir s; debug := debug s; overwrite := overwrite s;
     max_buffer := max_buffer s; state := state s; buf := v;
     meta_len := meta_len s; file_size := file_size s; file_name := file_name s;
     fh := fh s; unflushed := unflushed s; part_path := part_path s; final_path := final_path s;
     written := written s; done := done s |}.

Definition set_meta (ml fsize : Z) (name : pystr) (s : blk) : blk :=
  {| out_dir := out_dir s; debug := debug s; overwrite := overwrite s;
     max_buffer := max_buffer s; state := state s; buf := buf s;
     meta_len := Some ml; file_size := Some fsize; file_name := Some name;
     fh := fh s; unflushed := unflushed s; part_path := part_path s; final_path := final_path s;
     written := written s; done := done s |}.

Definition set_fh (v : option pystr) (s : blk) : blk :=
  {| out_dir := out_dir s; debug := debug s; overwrite := overwrite s;
     max_buffer := max_buffer s; state := state s; buf := buf s;
     meta_len := meta_len s; file_size := file_size s; file_name := file_name s;
     fh := v; unflushed := unflushed s; part_path := part_path s; final_path := final_path s;
     written := written s; done := done s |}.

Definition set_unflushed (v : list byte) (s : blk) : blk :=
  {| out_dir := out_dir s; debug := debug s; overwrite := overwrite s;
     max_buffer := max_buffer s; state := state s; buf := buf s;
     meta_len := meta_len s; file_size := file_size s; file_name := file_name s;
     fh := fh s; unflushed := v; part_path := part_path s; final_path := final_path s;
     written := written s; done := done s |}.

Definition set_paths (final part : pystr) (s : blk) : blk :=
  {| out_dir := out_dir s; debug := debug s; overwrite := overwrite s;
     max_buffer := max_buffer s; state := state s; buf := buf s;
     meta_len := meta_len s; file_size := file_size s; file_name := file_name s;
     fh := fh s; unflushed := unflushed s; part_path := Some part; final_path := Some final;
     written := written s; done := done s |}.

Definition set_written (v : Z) (s : blk) : blk :=
  {| out_dir := out_dir s; debug := debug s; overwrite := overwrite s;
     max_buffer := max_buffer s; state := state s; buf := buf s;
     meta_len := meta_len s; file_size := file_size s; file_name := file_name s;
     fh := fh s; unflushed := unflushed s; part_path := part_path s; final_path := final_path s;
     written := v; done := done s |}.

Definition set_done (v : bool) (s : blk) : blk :=
  {| out_dir := out_dir s; debug := debug s; overwrite := overwrite s;
     max_buffer := max_buffer s; state := state s; buf := buf s;
     meta_len := meta_len s; file_size := file_size s; file_name := file_name s;
     fh := fh s; unflushed := unflushed s; part_path := part_path s; final_path := final_path s;
     written := written s; done := v |}.

(** The block [__init__] builds when it returns; [os.makedirs] makes
    directories and leaves the files of the store as they are. *)
Definition __init__ (out_dir : pystr) (debug overwrite : bool) (max_buffer : Z) : blk :=
  {| out_dir := out_dir; debug := debug; overwrite := overwrite;
     max_buffer := max_buffer; state := SCAN; buf := [];
     meta_len := None; file_size := None; file_name := None;
     fh := None; unflushed := []; part_path := None; final_path := None;
     written := 0; done := false |}.

(** [_log] prints when [debug] is set and changes nothing. *)
Definition _log (s : blk) : blk := s.

(** The operating system appends [bytes] to the file at [path]. *)
Definition append (files : FileStore) (path : pystr) (bytes : list byte) : FileStore :=
  <[path := default [] (files !! path) ++ bytes]> files.

(** [os.path.exists]. *)
Definition exists_ (files : FileStore) (p : pystr) : bool :=
  match files !! p with
  | Some _ => true
  | None => false
  end.

Section WithPlatform.
Context `{Platform} `{Disk}.

(** [_close]: an exception of [flush] or [close] is passed over, with the
    held bytes that did not reach the file; the file object is let go of
    either way. *)
Definition _close (files : FileStore) (s : blk) : FileStore * blk :=
  match fh s with
  | Some path =>
      let reached := upto (flush_passes path (unflushed s)) (unflushed s) in
      (append files path reached, set_fh None (set_unflushed [] s))
  | None => (files, set_fh None s)
  end.

(** [f"{base}_{k}{ext}"]. *)
Definition numbered (base ext : pystr) (k : nat) : pystr :=
  base ++ lit "_" ++ str_of_nat k ++ ext.

(** The [while] of [_open_out]: the first [k], counting up, at which neither
    the numbered path nor its [.part] exists.  Each blocked [k] is a file
    of the store, so [free_suffix_found] shows the fuel [_open_out] gives
    is never used up. *)
Fixpoint free_suffix (fuel : nat) (files : FileStore) (base ext : pystr) (k : nat) : nat :=
  match fuel with
  | O => k
  | S fuel' =>
      if exists_ files (numbered base ext k)
         || exists_ files (numbered base ext k ++ lit ".part")
      then free_suffix fuel' files base ext (S k)
      else k
  end.

(** The test of that [while]: the numbered path or its [.part] exists. *)
Definition taken (files : FileStore) (base ext : pystr) (k : nat) : bool :=
  exists_ files (numbered base ext k)
  || exists_ files (numbered base ext k ++ lit ".part").

Definition _open_out (files : FileStore) (s : blk) (name : option pystr) (size : option Z)
  : Result (FileStore * blk) :=
  let safe := if truthy name then basename (default [] name) else lit "recv.bin" in
  let final := join (out_dir s) safe in
  let part := final ++ lit ".part" in
  let '(final, part) :=
    if negb (overwrite s) && exists_ files final then
      let '(base, ext) := splitext final in
      let k := free_suffix (S (2 * base.size files)) files base ext 1 in
      let final := numbered base ext k in
      (final, final ++ lit ".part")
    else (final, part) in
  let s := set_paths final part s in
  let '(files, s) := _close files s in
  match open_error part with
  | Some e => Raise e
  | None =>
      (* open(part, "wb") creates the file or empties it *)
      let files := <[part := []]> files in
      let s := set_fh (Some part) (set_unflushed [] s) in
      let s := set_written 0 s in
      Ok (files, _log s)
  end.

(** The final path [_open_out] decides on. *)
Definition target (files : FileStore) (s : blk) (name : option pystr) : pystr :=
  let safe := if truthy name then basename (default [] name) else lit "recv.bin" in
  let final := join (out_dir s) safe in
  if negb (overwrite s) && exists_ files final then
    let '(base, ext) := splitext final in
    numbered base ext (free_suffix (S (2 * base.size files)) files base ext 1)
  else final.

(** The block once [_open_out] has opened the [.part] of [final]. *)
Definition opened (final : pystr) (s : blk) : blk :=
  set_written 0
    (set_fh (Some (final ++ lit ".part"))
       (set_unflushed []
          (set_paths final (final ++ lit ".part") s))).

(** [_finish].  A [remove] that fails is passed over and leaves a file
    that the [replace] overwrites; the [replace] is outside the [try]. *)
Definition _finish (files : FileStore) (s : blk) : Result (FileStore * blk) :=
  let '(files, s) := _close files s in
  match final_path s, part_path s with
  | Some final, Some part =>
      let files := if exists_ files final then delete final files else files in
      match files !! part with
      | Some data =>
          match replace_error part final with
          | Some e => Raise e
          | None => Ok (<[final := data]> (delete part files), _log s)
          end
      | None => Raise FileNotFoundError
      end
  | _, _ => Raise TypeError
  end.

Definition _try_parse_meta_at (s : blk) (idx : Z) : bool * blk :=
  if len (buf s) <? idx + 16 then (false, s) else
  if negb (bytes_eqb (slice (buf s) idx (idx + 4)) MAGIC) then (false, s) else
  let ver := item (buf s) (idx + 4) in
  let meta_len := unpack (slice (buf s) (idx + 5) (idx + 7)) in
  let name_len := item (buf s) (idx + 7) in
  let fsize := unpack (slice (buf s) (idx + 8) (idx + 16)) in
  if negb (ver =? 1) then (false, s) else
  if (meta_len <? 16) || (meta_len >? 4096) then (false, s) else
  if name_len >? 255 then (false, s) else
  if (fsize <=? 0) || (fsize >? 1024 ^ 3) then (false, s) else
  if len (buf s) <? idx + meta_len then (false, s) else
  let name_end := idx + 16 + name_len in
  if name_end >? idx + meta_len then (false, s) else
  let name := strip_nul (decode_ignore (slice (buf s) (idx + 16) name_end)) in
  let name := if is_empty name then lit "recv.bin" else name in
  let s := set_meta meta_len fsize name s in
  (true, _log s).

(** The [while True] of the SCAN branch, from search position [start].
    Every round moves [start] past the candidate it rejects, so
    [len buf + 1] rounds reach the [break] ([scan_fuel_enough]). *)
Fixpoint scan (fuel : nat) (files : FileStore) (s : blk) (start : Z)
  : Result (FileStore * blk) :=
  match fuel with
  | O => Ok (files, s)
  | S fuel' =>
      let idx := find (buf s) MAGIC start in
      if idx <? 0 then Ok (files, s)
      else
        let '(ok, s) := _try_parse_meta_at s idx in
        if ok then
          let s := if idx >? 0 then set_buf (del_prefix idx (buf s)) s else s in
          match meta_len s with
          | None => Raise TypeError
          | Some ml =>
              let s := set_buf (del_prefix ml (buf s)) s in
              '(files, s) ← _open_out files s (file_name s) (file_size s);
              Ok (files, set_state RECV s)
          end
        else scan fuel' files s (idx + 1)
  end.

(** [fh.write(chunk)]: the file object passes on some of what it holds
    and is given, and holds the rest. *)
Definition write (files : FileStore) (s : blk) (path : pystr) (chunk : list byte)
  : Result (FileStore * blk) :=
  match write_error path (unflushed s) chunk with
  | Some e => Raise e
  | None =>
      let all := unflushed s ++ chunk in
      let n := write_passes path (unflushed s) chunk in
      Ok (append files path (upto n all), set_unflushed (del_prefix n all) s)
  end.

(** What reaches the file of [held ++ chunk] when [chunk] is written and
    the file is closed then: what [write] passes on and, of the rest, what
    the closing passes on. *)
Definition reaches_file (path : pystr) (held chunk : list byte) : list byte :=
  let all := held ++ chunk in
  let n := write_passes path held chunk in
  upto n all ++ upto (flush_passes path (del_prefix n all)) (del_prefix n all).

Definition is_RECV (st : State) : bool :=
  match st with
  | RECV => true
  | _ => false
  end.

Definition is_SCAN (st : State) : bool :=
  match st with
  | SCAN => true
  | _ => false
  end.

(** The RECV branch of [general_work]. *)
Definition receive (files : FileStore) (s : blk) : Result (FileStore * blk) :=
  match fh s with
  | Some path =>
      if is_RECV (state s) then
        match file_size s with
        | None => Raise TypeError
        | Some fsize =>
            let remain := fsize - written s in
            '(files, s) ←
              (if (remain >? 0) && (len (buf s) >? 0) then
                 let n := Z.min remain (len (buf s)) in
                 let chunk := upto n (buf s) in
                 '(files, s) ← write files s path chunk;
                 let s := set_written (written s + n) s in
                 Ok (files, set_buf (del_prefix n (buf s)) s)
               else Ok (files, s));
            if written s >=? fsize then
              '(files, s) ← _finish files s;
              Ok (files, set_state DONE (set_done true s))
            else Ok (files, s)
        end
      else Ok (files, s)
  | None => Ok (files, s)
  end.

(** [general_work] on the input items [inp]: every path consumes all of
    them and returns 0. *)
Definition general_work (files : FileStore) (s : blk) (inp : list byte)
  : Result (FileStore * blk) :=
  if done s then Ok (files, s)
  else
    let s := set_buf (buf s ++ inp) s in
    let s :=
      if len (buf s) >? max_buffer s
      then set_buf (last_items (1024 * 1024) (buf s)) s
      else s in
    '(files, s) ←
      (if is_SCAN (state s) then scan (S (length (buf s))) files s 0
       else Ok (files, s));
    receive files s.

Definition stop (files : FileStore) (s : blk) : FileStore * blk := _close files s.

(** The buffer after the append and the cap of [general_work]. *)
Definition capped (max_buffer : Z) (b : list byte) : list byte :=
  if len b >? max_buffer then last_items (1024 * 1024) b else b.

(** The verdict of [_try_parse_meta_at] on a buffer [b] at [idx]. *)
Definition accepts (b : list byte) (idx : Z) : bool :=
  fst (_try_parse_meta_at (set_buf b (__init__ [] false false 0)) idx).

(** The fields of the header that starts at [idx] of [b]. *)
Definition hdr_magic (b : list byte) (idx : Z) : list byte := slice b idx (idx + 4).
Definition hdr_version (b : list byte) (idx : Z) : Z := item b (idx + 4).
Definition hdr_meta_len (b : list byte) (idx : Z) : Z := unpack (slice b (idx + 5) (idx + 7)).
Definition hdr_name_len (b : list byte) (idx : Z) : Z := item b (idx + 7).
Definition hdr_file_size (b : list byte) (idx : Z) : Z := unpack (slice b (idx + 8) (idx + 16)).
Definition hdr_name (b : list byte) (idx : Z) : pystr :=
  let name := strip_nul (decode_ignore (slice b (idx + 16) (idx + 16 + hdr_name_len b idx))) in
  if is_empty name then lit "recv.bin" else name.

(** The seven checks of the header validation, as the specification lists
    them. *)
Definition listed_checks (b : list byte) (idx : Z) : Prop :=
  idx + 16 <= len b
  ∧ hdr_magic b idx = MAGIC
  ∧ hdr_version b idx = 1
  ∧ 16 <= hdr_meta_len b idx <= 4096
  ∧ hdr_name_len b idx <= 255
  ∧ 0 < hdr_file_size b idx <= 1024 ^ 3
  ∧ idx + hdr_meta_len b idx <= len b.

(** A candidate that passes the checks on its fields and lacks bytes. *)
Definition needs_more_data (b : list byte) (idx : Z) : Prop :=
  idx + 16 <= len b
  ∧ hdr_magic b idx = MAGIC
  ∧ hdr_version b idx = 1
  ∧ 16 <= hdr_meta_len b idx <= 4096
  ∧ hdr_name_len b idx <= 255
  ∧ 0 < hdr_file_size b idx <= 1024 ^ 3
  ∧ len b < idx + hdr_meta_len b idx.

(** The input deliveries [chunks], one call of [general_work] each. *)
Fixpoint deliver (files : FileStore) (s : blk) (chunks : list (list byte))
  : Result (FileStore * blk) :=
  match chunks with
  | [] => Ok (files, s)
  | inp :: chunks' =>
      '(files, s) ← general_work files s inp;
      deliver files s chunks'
  end.

(** The states of a session that starts on the store [files0] with the block
    [s0]: the scheduler calls [general_work] with any input, and [stop]. *)
Inductive reachable (files0 : FileStore) (s0 : blk) : FileStore → blk → Prop :=
| reach_start : reachable files0 s0 files0 s0
| reach_work files s inp files' s' :
    reachable files0 s0 files s →
    general_work files s inp = Ok (files', s') →
    reachable files0 s0 files' s'
| reach_stop files s files' s' :
    reachable files0 s0 files s →
    stop files s = (files', s') →
    reachable files0 s0 files' s'.

(** The operating system lets the output to [final] through: the [.part]
    file opens, every write to it returns, closing it passes on all that is
    held, and the rename is done. *)
Definition lets_through (final : pystr) : Prop :=
  let part := final ++ lit ".part" in
  open_error part = None
  ∧ (∀ held chunk, write_error part held chunk = None)
  ∧ (∀ held, len held <= flush_passes part held)
  ∧ replace_error part final = None.

(** What [e] can be when the output to [final] raises it after the [.part]
    file was opened: what a write raised, or the rename. *)
Definition raised_on_output (final : pystr) (e : exn) : Prop :=
  (∃ held chunk, write_error (final ++ lit ".part") held chunk = Some e)
  ∨ replace_error (final ++ lit ".part") final = Some e.

(** Where a session stands between two calls: what has been written is in
    the [.part] file or held by the file object; a file object that was
    closed may have lost some of it. *)
Definition at_rest (files0 files : FileStore) (s : blk) : Prop :=
  match state s with
  | SCAN => files = files0 ∧ done s = false ∧ fh s = None
  | RECV =>
      done s = false
      ∧ ∃ final fsize ondisk,
          final_path s = Some final
          ∧ part_path s = Some (final ++ lit ".part")
          ∧ file_size s = Some fsize
          ∧ 0 <= written s < fsize
          ∧ files = <[final ++ lit ".part" := ondisk]> files0
          ∧ ((fh s = Some (final ++ lit ".part")
              ∧ len ondisk + len (unflushed s) = written s)
             ∨ (fh s = None ∧ len ondisk <= written s))
  | DONE =>
      done s = true ∧ fh s = None
      ∧ ∃ final ondisk,
          final_path s = Some final
          ∧ part_path s = Some (final ++ lit ".part")
          ∧ file_size s = Some (written s)
          ∧ len ondisk <= written s
          ∧ ((∀ held, len held <= flush_passes (final ++ lit ".part") held) →
             len ondisk = written s)
          ∧ files = <[final := ondisk]> (delete (final ++ lit ".part") (delete final files0))
  end.

End WithPlatform.

End Reassembler.

(** ** The packetizer: [data_epy_block_0.py] *)

Module Packetizer.

(** What the operating system answers for [filepath]: [os.path.getsize]
    (or that it fails) and the content [open(filepath, "rb")] gives (or that
    it fails).  The two calls can fail independently. *)
Record Source := {
  getsize : option Z;
  content : option (list byte);
}.

(** The values of [_phase]: ["meta"], ["file"], ["zeros"]. *)
Inductive Phase := Meta | File | Zeros.

Record tag := {
  offset : Z;
  key : pystr;
  value : Z;
}.

Record blk := {
  filepath : pystr;
  meta_len : Z;
  repeat : bool;
  len_tag_key : pystr;
  _meta : list byte;
  (** the open source file, by what is left to read of it *)
  _fh : option (list byte);
  _phase : Phase;
  _file_bytes_left : Z;
  _tag_key : pystr;
  (** the scheduler's count of the items produced so far, [nitems_written(0)] *)
  nitems_written : Z;
}.

Definition set__meta (v : list byte) (s : blk) : blk :=
  {| filepath := filepath s; meta_len := meta_len s; repeat := repeat s;
     len_tag_key := len_tag_key s; _meta := v; _fh := _fh s; _phase := _phase s;
     _file_bytes_left := _file_bytes_left s; _tag_key := _tag_key s;
     nitems_written := nitems_written s |}.

Definition set__fh (v : option (list byte)) (s : blk) : blk :=
  {| filepath := filepath s; meta_len := meta_len s; repeat := repeat s;
     len_tag_key := len_tag_key s; _meta := _meta s; _fh := v; _phase := _phase s;
     _file_bytes_left := _file_bytes_left s; _tag_key := _tag_key s;
     nitems_written := nitems_written s |}.

Definition set__phase (v : Phase) (s : blk) : blk :=
  {| filepath := filepath s; meta_len := meta_len s; repeat := repeat s;
     len_tag_key := len_tag_key s; _meta := _meta s; _fh := _fh s; _phase := v;
     _file_bytes_left := _file_bytes_left s; _tag_key := _tag_key s;
     nitems_written := nitems_written s |}.

Definition set__file_bytes_left (v : Z) (s : blk) : blk :=
  {| filepath := filepath s; meta_len := meta_len s; repeat := repeat s;
     len_tag_key := len_tag_key s; _meta := _meta s; _fh := _fh s; _phase := _phase s;
     _file_bytes_left := v; _tag_key := _tag_key s;
     nitems_written := nitems_written s |}.

(** [produce(0, k)]: the scheduler adds [k] to the items written. *)
Definition produce (k : Z) (s : blk) : blk :=
  {| filepath := filepath s; meta_len := meta_len s; repeat := repeat s;
     len_tag_key := len_tag_key s; _meta := _meta s; _fh := _fh s; _phase := _phase s;
     _file_bytes_left := _file_bytes_left s; _tag_key := _tag_key s;
     nitems_written := nitems_written s + k |}.

Section WithPlatform.
Context `{Platform}.

Definition _get_size (src : Source) : Z := default 0 (getsize src).

Definition _build_meta (src : Source) (filepath : pystr) (meta_len : Z)
  : Result (list byte) :=
  let fname := basename filepath in
  let name_b := upto 255 (encode_ignore fname) in
  let name_len := len name_b in
  let fsize := _get_size src in
  let header := MAGIC in
  version ← pack_B 1;
  let header := header ++ version in
  ml ← pack_H meta_len;
  let header := header ++ ml in
  nl ← pack_B name_len;
  let header := header ++ nl in
  fs ← pack_Q fsize;
  let header := header ++ fs in
  let header := header ++ name_b in
  Ok (if len header <? meta_len
      then header ++ zeros (meta_len - len header)
      else upto meta_len header).

Definition _open_file (src : Source) (s : blk) : blk := set__fh (content src) s.

Definition __init__ (src : Source) (filepath : pystr) (meta_len : Z) (repeat : bool)
    (len_tag_key : pystr) : Result blk :=
  if meta_len <? 16 then Raise ValueError
  else
    m ← _build_meta src filepath meta_len;
    let s :=
      {| filepath := filepath; meta_len := meta_len; repeat := repeat;
         len_tag_key := len_tag_key; _meta := m; _fh := None; _phase := Meta;
         _file_bytes_left := 0; _tag_key := len_tag_key; nitems_written := 0 |} in
    let s := _open_file src s in
    let s := set__phase Meta s in
    Ok (set__file_bytes_left (_get_size src) s).

(** The [else] branch of the round: a packet of file data, filled up with
    zero bytes, and the change of phase once nothing is left to read. *)
Definition file_packet (src : Source) (s : blk) : Result (list byte * blk) :=
  let pkt := meta_len s in
  let buf := [] in
  let '(buf, s) :=
    match _fh s with
    | Some rest =>
        if _file_bytes_left s >? 0 then
          let to_read := Z.min pkt (_file_bytes_left s) in
          let buf := upto to_read rest in
          let s := set__fh (Some (del_prefix to_read rest)) s in
          (buf, set__file_bytes_left (_file_bytes_left s - len buf) s)
        else (buf, s)
    | None => (buf, s)
    end in
  let buf := if len buf <? pkt then buf ++ zeros (pkt - len buf) else buf in
  let out := buf in
  s ← (if _file_bytes_left s <=? 0 then
         if repeat s then
           m ← _build_meta src (filepath s) (meta_len s);
           Ok (set__phase Meta (set__meta m s))
         else Ok (set__phase Zeros s)
       else Ok s);
  Ok (out, s).

(** One round of the [for] of [general_work]: the packet written at
    [out[start:start+pkt]], its tag, and the block afterwards. *)
Definition packet (src : Source) (s : blk) (start : Z) : Result (list byte * tag * blk) :=
  let pkt := meta_len s in
  let t := {| offset := nitems_written s + start; key := _tag_key s; value := pkt |} in
  '(out, s) ←
    match _phase s with
    | Meta =>
        let out := _meta s in
        let s := set__file_bytes_left (_get_size src) s in
        let s := _open_file src s in
        Ok (out, set__phase File s)
    | _ => file_packet src s
    end;
  let out :=
    match _phase s with
    | Zeros => zeros pkt
    | _ => out
    end in
  Ok (out, t, s).

(** The [for _ in range(n_pkts)]: the items written to [out], the tags
    added, the final value of [produced] and the block. *)
Fixpoint packets (n_pkts : nat) (src : Source) (s : blk) (produced : Z)
  : Result (list byte * list tag * Z * blk) :=
  match n_pkts with
  | O => Ok ([], [], produced, s)
  | S n' =>
      '(out, t, s) ← packet src s produced;
      '(outs, ts, produced, s) ← packets n' src s (produced + meta_len s);
      Ok (out ++ outs, t :: ts, produced, s)
  end.

(** [general_work] on an output buffer of [n] items: the items produced,
    the tags added and the block. *)
Definition general_work (src : Source) (s : blk) (n : Z)
  : Result (list byte * list tag * blk) :=
  let pkt := meta_len s in
  let n_pkts := n / pkt in
  if n_pkts <=? 0 then Ok ([], [], produce 0 s)
  else
    '(out, ts, produced, s) ← packets (Z.to_nat n_pkts) src s 0;
    Ok (upto produced out, ts, produce produced s).

(** The requests [reqs] for output, one call of [general_work] each: the
    items produced in all, the tags and the block. *)
Fixpoint run (src : Source) (s : blk) (reqs : list Z)
  : Result (list byte * list tag * blk) :=
  match reqs with
  | [] => Ok ([], [], s)
  | n :: reqs' =>
      '(out, ts, s) ← general_work src s n;
      '(outs, tss, s) ← run src s reqs';
      Ok (out ++ outs, ts ++ tss, s)
  end.

(** What a session shows from outside: the items and tags of the requests
    [reqs] to a new block, and the phase it ends in. *)
Definition session (src : Source) (fp : pystr) (ml : Z) (rep : bool) (k : pystr)
    (reqs : list Z) : Result (list byte * list tag * Phase) :=
  s ← __init__ src fp ml rep k;
  '(out, ts, s) ← run src s reqs;
  Ok (out, ts, _phase s).

(** The block [s] with the empty file open. *)
Definition with_empty_open (s : blk) : blk := set__fh (Some []) s.

(** A file of length zero that can be opened. *)
Definition empty_file : Source := {| getsize := Some 0; content := Some [] |}.

(** The states of a session on the source [src]: a block that [__init__]
    built, then any number of requests, each for a buffer of [0 <= n]
    items. *)
Inductive reachable (src : Source) : blk → Prop :=
| reach_init fp ml rep k s :
    __init__ src fp ml rep k = Ok s → reachable src s
| reach_work s n out ts s' :
    reachable src s → 0 <= n →
    general_work src s n = Ok (out, ts, s') →
    reachable src s'.

(** The tags of [count] packets of [pkt] items from the offset [from]. *)
Fixpoint packet_tags (k : pystr) (pkt from : Z) (count : nat) : list tag :=
  match count with
  | O => []
  | S c => {| offset := from; key := k; value := pkt |}
           :: packet_tags k pkt (from + pkt) c
  end.

(** The phase the block is in after each of [count] packets. *)
Fixpoint phases (count : nat) (src : Source) (s : blk) : list Phase :=
  match count with
  | O => []
  | S c =>
      match packet src s 0 with
      | Ok (_, _, s') => _phase s' :: phases c src s'
      | Raise _ => []
      end
  end.

(** [s'] differs from [s] in the open file, the phase and the count of
    bytes left at most. *)
Definition same_setup (s s' : blk) : Prop :=
  filepath s' = filepath s
  ∧ meta_len s' = meta_len s
  ∧ repeat s' = repeat s
  ∧ len_tag_key s' = len_tag_key s
  ∧ _meta s' = _meta s
  ∧ _tag_key s' = _tag_key s
  ∧ nitems_written s' = nitems_written s.

(** What holds of the block between two requests. *)
Definition at_rest (src : Source) (s : blk) : Prop :=
  16 <= meta_len s
  ∧ _build_meta src (filepath s) (meta_len s) = Ok (_meta s)
  ∧ _tag_key s = len_tag_key s
  ∧ nitems_written s mod meta_len s = 0.

(** The bytes the stream goes on with until the file has been sent once
    more, for a block in the meta phase on a readable file that is not empty,
    or in the file phase with bytes left to read. *)
Definition expecting (src : Source) (s : blk) (e : list byte) : Prop :=
  match _phase s with
  | Meta => ∃ data, content src = Some data ∧ getsize src = Some (len data)
                    ∧ 0 < len data ∧ e = _meta s ++ data
  | File => _fh s = Some e ∧ _file_bytes_left s = len e ∧ 0 < len e
  | Zeros => False
  end.

(** The items [out] are the start of [e] and the block [s'] expects the
    rest, or [out] starts with all of [e]. *)
Definition progress (src : Source) (e out : list byte) (s' : blk) : Prop :=
  (len out < len e ∧ out = upto (len out) e
   ∧ expecting src s' (del_prefix (len out) e))
  ∨ (len e <= len out ∧ ∃ t, out = e ++ t).

End WithPlatform.

End Packetizer.

(** ** A platform for running the blocks on 7-bit names

    POSIX paths and the ASCII part of the codec: on names of 7-bit
    characters without a directory part, which is all the examples below use,
    it computes what CPython computes. *)

Module Ascii7.

Definition decode7 (bs : list byte) : pystr :=
  map Byte.to_N (filter (λ b, Byte.to_N b <? 128)%N bs).

Definition encode7 (s : pystr) : list byte :=
  map (λ c, byte_of_val (Z.of_N c)) (filter (λ c, c <? 128)%N s).

Definition SEP : N := 47.
Definition DOT : N := 46.

(** What follows the last [/]. *)
Fixpoint posix_basename (p : pystr) : pystr :=
  match p with
  | [] => []
  | c :: p' => if existsb (N.eqb SEP) p' then posix_basename p'
               else if N.eqb c SEP then p' else p
  end.

Definition posix_join (a b : pystr) : pystr :=
  if match b with c :: _ => N.eqb c SEP | [] => false end then b
  else if is_empty a || N.eqb (List.last a 0%N) SEP then a ++ b
  else a ++ [SEP] ++ b.

(** The extension starts at the last dot of the last component, unless only
    dots come before it there. *)
Fixpoint split_last_dot (seen : bool) (p : pystr) : pystr * pystr :=
  match p with
  | [] => ([], [])
  | c :: p' =>
      if N.eqb c SEP then
        let '(b, e) := split_last_dot false p' in (c :: b, e)
      else if N.eqb c DOT && seen && negb (existsb (λ d, N.eqb d DOT || N.eqb d SEP) p')
      then ([], p)
      else
        let '(b, e) := split_last_dot (seen || negb (N.eqb c DOT)) p' in (c :: b, e)
  end.

Definition posix_splitext (p : pystr) : pystr * pystr := split_last_dot false p.

#[global] Instance platform : Platform :=
  {| decode_ignore := decode7;
     encode_ignore := encode7;
     basename := posix_basename;
     join := posix_join;
     splitext := posix_splitext |}.

(** A disk with room and a file object that holds up to 8192 bytes.  A
    path with a NUL in it is refused by [open], and nothing can take the
    place of the directories [.] and [..]. *)
Definition has_nul (p : pystr) : bool := existsb (N.eqb 0) p.

Definition names_directory (p : pystr) : bool :=
  let name := posix_basename p in
  is_empty name || bool_decide (name = lit ".") || bool_decide (name = lit "..").

#[global] Instance disk : Disk :=
  {| open_error := λ p, if has_nul p then Some ValueError else None;
     write_error := λ _ _ _, None;
     write_passes := λ _ held chunk,
       if len (held ++ chunk) <=? 8192 then 0 else len (held ++ chunk);
     flush_passes := λ _ held, len held;
     replace_error := λ _ dst,
       if has_nul dst then Some ValueError
       else if names_directory dst then Some OSError else None |}.

End Ascii7.

(** A disk that is full: nothing that is written reaches a file, and
    closing passes over the error. *)
Definition full_disk : Disk :=
  {| open_error := λ _, None;
     write_error := λ _ _ _, None;
     write_passes := λ _ _ _, 0;
     flush_passes := λ _ _, 0;
     replace_error := λ _ _, None |}.

(** ** The example of the specification: [a.txt], ten bytes, packets of 512 *)

Definition a_txt_name : list byte := [x61; x2e; x74; x78; x74].

Definition digits10 : list byte := [x30; x31; x32; x33; x34; x35; x36; x37; x38; x39].

(** [b"FILE"], version 1, 512 and 10 little-endian, the length of the name,
    the name, zero bytes up to 512. *)
Definition a_txt_header : list byte :=
  MAGIC ++ [x01] ++ [x00; x02] ++ [x05]
  ++ [x0a; x00; x00; x00; x00; x00; x00; x00]
  ++ a_txt_name ++ zeros 491.

Definition a_txt_data_packet : list byte := digits10 ++ zeros 502.

Definition a_txt_source : Packetizer.Source :=
  {| Packetizer.getsize := Some 10; Packetizer.content := Some digits10 |}.

(** ** Inputs of the examples *)

(** A new reassembler with the defaults: [debug], [overwrite], 4 MiB. *)
Definition fresh : Reassembler.blk :=
  Reassembler.__init__ (lit "/out") true true (4 * 1024 * 1024).

(** The 16 bytes [_build_meta] makes of [a.txt], ten bytes, for
    [meta_len = 16]: the name is cut off and [name_len] is still 5. *)
Definition name_overflow_header : list byte :=
  MAGIC ++ [x01] ++ [x10; x00] ++ [x05] ++ [x0a; x00; x00; x00; x00; x00; x00; x00].

(** Fixed parts that declare one byte of payload and no name, with
    [meta_len] 4096, 16 and 20. *)
Definition far_candidate : list byte :=
  MAGIC ++ [x01] ++ [x00; x10] ++ [x00] ++ [x01; x00; x00; x00; x00; x00; x00; x00].

Definition tiny_header : list byte :=
  MAGIC ++ [x01] ++ [x10; x00] ++ [x00] ++ [x01; x00; x00; x00; x00; x00; x00; x00].

Definition lonely_candidate : list byte :=
  MAGIC ++ [x01] ++ [x14; x00] ++ [x00] ++ [x01; x00; x00; x00; x00; x00; x00; x00].

(** A header that names the file [..] and declares one byte of payload,
    and one whose name is [a], a NUL and [b]. *)
Definition dotdot_header : list byte :=
  MAGIC ++ [x01] ++ [x12; x00] ++ [x02] ++ [x01; x00; x00; x00; x00; x00; x00; x00]
  ++ [x2e; x2e].

Definition nul_name_header : list byte :=
  MAGIC ++ [x01] ++ [x13; x00] ++ [x03] ++ [x01; x00; x00; x00; x00; x00; x00; x00]
  ++ [x61; x00; x62].

(** The header of [a.txt], ten bytes, for packets of 32. *)
Definition a_txt_header32 : list byte :=
  MAGIC ++ [x01] ++ [x20; x00] ++ [x05]
  ++ [x0a; x00; x00; x00; x00; x00; x00; x00]
  ++ a_txt_name ++ zeros 11.

(** The header of [a.txt] for packets of 32 when the file is empty. *)
Definition empty_header32 : list byte :=
  MAGIC ++ [x01] ++ [x20; x00] ++ [x05]
  ++ [x00; x00; x00; x00; x00; x00; x00; x00]
  ++ a_txt_name ++ zeros 11.

(** A file of ten bytes that [stat] sees and [open] refuses. *)
Definition unopenable : Packetizer.Source :=
  {| Packetizer.getsize := Some 10; Packetizer.content := None |}.

(** A file that is not there. *)
Definition missing : Packetizer.Source :=
  {| Packetizer.getsize := None; Packetizer.content := None |}.

(** The packetizer on [/tmp/a.txt] with packets of 32, by what changes in
    the course of a session. *)
Definition a_txt_block (rep : bool) (ph : Packetizer.Phase) (fh : option (list byte))
    (left nw : Z) : Packetizer.blk :=
  {| Packetizer.filepath := lit "/tmp/a.txt"; Packetizer.meta_len := 32;
     Packetizer.repeat := rep; Packetizer.len_tag_key := lit "packet_len";
     Packetizer._meta := a_txt_header32; Packetizer._fh := fh;
     Packetizer._phase := ph; Packetizer._file_bytes_left := left;
     Packetizer._tag_key := lit "packet_len"; Packetizer.nitems_written := nw |}.

(** A new reassembler that does not overwrite. *)
Definition careful : Reassembler.blk :=
  Reassembler.__init__ (lit "/out") true false (4 * 1024 * 1024).

(** The reassembler once it has taken [tiny_header] and its one byte of
    payload to the path [final]. *)
Definition finished (s0 : Reassembler.blk) (final : pystr) : Reassembler.blk :=
  Reassembler.set_state Reassembler.DONE
    (Reassembler.set_done true
       (Reassembler.set_fh None
          (Reassembler.set_written 1
             (Reassembler.opened final
                (Reassembler.set_meta 16 1 (lit "recv.bin") s0))))).

(** The reassembler three bytes into the payload of [a.txt], the three
    bytes held by the file object. *)
Definition receiving : Reassembler.blk :=
  Reassembler.set_written 3
    (Reassembler.set_unflushed [x30; x31; x32]
    (Reassembler.set_state Reassembler.RECV
       (Reassembler.opened (lit "/out/a.txt")
          (Reassembler.set_meta 32 10 (lit "a.txt") fresh)))).

(** The disk of [Ascii7] lets the output to a path through when the path
    has no NUL in it and does not name a directory. *)
Ltac output_goes_through :=
  unfold Reassembler.lets_through; cbv zeta;
  split; [vm_compute; reflexivity|];
  split; [intros; reflexivity|];
  split; [intros held; change (len held <= len held); lia|vm_compute; reflexivity].

(** * Properties *)

(** ** Python values *)

Lemma bytes_eqb_eq a b : bytes_eqb a b = true ↔ a = b.
Proof.
  revert b; induction a as [|x a IH]; intros [|y b]; simpl; try (split; congruence).
  rewrite andb_true_iff, IH. split.
  - intros [Hxy ->]. apply Byte.byte_dec_bl in Hxy. by subst.
  - intros [= -> ->]. split; [by apply Byte.byte_dec_lb | done].
Qed.


Lemma len_nonneg {A} (l : list A) : 0 <= len l.
Proof. unfold len. lia. Qed.

Lemma starts_with_firstn pat l :
  starts_with pat l = true ↔ firstn (length pat) l = pat.
Proof.
  revert l; induction pat as [|p pat IH]; intros [|x l]; simpl; try (split; congruence).
  rewrite andb_true_iff, IH. split.
  - intros [Hpx ->]. apply Byte.byte_dec_bl in Hpx. by subst.
  - intros [= -> ->]. split; [by apply Byte.byte_dec_lb | done].
Qed.

Lemma find_at_spec pat l pos :
  0 <= pos →
  let r := find_at pat l pos in
  (r = -1 ∧ ∀ k : nat, (k <= length l)%nat → starts_with pat (skipn k l) = false)
  ∨ (pos <= r <= pos + len l
     ∧ starts_with pat (skipn (Z.to_nat (r - pos)) l) = true
     ∧ ∀ k : nat, (Z.of_nat k < r - pos) → starts_with pat (skipn k l) = false).
Proof.
  revert pos; induction l as [|x l IH]; intros pos Hpos; simpl.
  - destruct (starts_with pat []) eqn:E.
    + right. unfold len; simpl. replace (pos - pos) with 0 by lia. simpl.
      split; [lia|]. split; [done|]. intros k Hk; lia.
    + left. split; [done|]. intros k Hk. by destruct k.
  - destruct (starts_with pat (x :: l)) eqn:E.
    + right. replace (pos - pos) with 0 by lia. simpl.
      split; [unfold len; simpl; lia|]. split; [done|]. intros k Hk; lia.
    + destruct (IH (pos + 1)) as [[Hr Hno]|(Hr & Hm & Hno)]; [lia| |].
      * left. split; [done|]. intros [|k] Hk; simpl; [done|]. apply Hno. simpl in Hk. lia.
      * right. unfold len in *. simpl length. split; [lia|]. split.
        -- replace (Z.to_nat (find_at pat l (pos + 1) - pos))
             with (S (Z.to_nat (find_at pat l (pos + 1) - (pos + 1)))) by lia.
           done.
        -- intros [|k] Hk; simpl; [done|]. apply Hno. lia.
Qed.

Lemma find_spec l pat start :
  0 <= start →
  let r := find l pat start in
  (r = -1 ∧ ∀ j, start <= j <= len l → starts_with pat (skipn (Z.to_nat j) l) = false)
  ∨ (start <= r <= len l
     ∧ starts_with pat (skipn (Z.to_nat r) l) = true
     ∧ ∀ j, start <= j < r → starts_with pat (skipn (Z.to_nat j) l) = false).
Proof.
  intros Hs. unfold find. destruct (len l <? start) eqn:E.
  - left. split; [done|]. intros j Hj. lia.
  - assert (Hlen : start <= len l) by lia.
    destruct (find_at_spec pat (skipn (Z.to_nat start) l) start Hs) as [[Hr Hno]|(Hr & Hm & Hno)].
    + left. split; [done|]. intros j Hj.
      specialize (Hno (Z.to_nat (j - start))). rewrite skipn_skipn in Hno.
      replace (Z.to_nat (j - start) + Z.to_nat start)%nat with (Z.to_nat j) in Hno by lia.
      apply Hno. rewrite length_skipn. unfold len in *. lia.
    + right. unfold len in Hr. rewrite length_skipn in Hr. unfold len in Hlen.
      split; [unfold len; lia|]. split.
      * rewrite skipn_skipn in Hm.
        replace (Z.to_nat (find_at pat (skipn (Z.to_nat start) l) start - start) + Z.to_nat start)%nat
          with (Z.to_nat (find_at pat (skipn (Z.to_nat start) l) start)) in Hm by lia.
        done.
      * intros j Hj. specialize (Hno (Z.to_nat (j - start))). rewrite skipn_skipn in Hno.
        replace (Z.to_nat (j - start) + Z.to_nat start)%nat with (Z.to_nat j) in Hno by lia.
        apply Hno. lia.
Qed.

Section ReassemblerFacts.
Context `{Platform} `{Disk}.
Import Reassembler.


Lemma try_parse_spec s idx :
  _try_parse_meta_at s idx =
    if accepts (buf s) idx
    then (true, set_meta (hdr_meta_len (buf s) idx) (hdr_file_size (buf s) idx)
                  (hdr_name (buf s) idx) s)
    else (false, s).
Proof.
  unfold accepts, _try_parse_meta_at, hdr_name, hdr_meta_len, hdr_file_size, hdr_name_len, _log.
  simpl buf.
  repeat (case_match; try reflexivity).
Qed.

Lemma accepts_iff b idx :
  accepts b idx = true ↔
    listed_checks b idx ∧ 16 + hdr_name_len b idx <= hdr_meta_len b idx.
Proof.
  unfold accepts, _try_parse_meta_at, listed_checks, hdr_magic, hdr_version,
    hdr_meta_len, hdr_file_size, hdr_name_len, _log.
  simpl buf.
  destruct (len b <? idx + 16) eqn:E1; simpl; [lia|].
  destruct (bytes_eqb (slice b idx (idx + 4)) MAGIC) eqn:E2; simpl.
  2:{ split; [done|]. intros ((_ & Hm & _) & _). apply bytes_eqb_eq in Hm. congruence. }
  apply bytes_eqb_eq in E2.
  destruct (item b (idx + 4) =? 1) eqn:E3; simpl; [|split; [done|lia]].
  destruct (unpack (slice b (idx + 5) (idx + 7)) <? 16) eqn:E4; simpl; [split; [done|lia]|].
  destruct (unpack (slice b (idx + 5) (idx + 7)) >? 4096) eqn:E5; simpl; [split; [done|lia]|].
  destruct (item b (idx + 7) >? 255) eqn:E6; simpl; [split; [done|lia]|].
  destruct (unpack (slice b (idx + 8) (idx + 16)) <=? 0) eqn:E7; simpl; [split; [done|lia]|].
  destruct (unpack (slice b (idx + 8) (idx + 16)) >? 1024 ^ 3) eqn:E8; simpl; [split; [done|lia]|].
  destruct (len b <? idx + unpack (slice b (idx + 5) (idx + 7))) eqn:E9; simpl; [split; [done|lia]|].
  destruct (idx + 16 + item b (idx + 7) >? idx + unpack (slice b (idx + 5) (idx + 7))) eqn:E10;
    simpl; [split; [done|lia]|].
  split; [|done]. intros _. repeat split; try done; lia.
Qed.


Lemma accepts_magic b idx :
  0 <= idx → accepts b idx = true → starts_with MAGIC (skipn (Z.to_nat idx) b) = true.
Proof.
  intros Hidx Ha. unfold accepts, _try_parse_meta_at in Ha. simpl buf in Ha.
  destruct (len b <? idx + 16); [done|].
  destruct (bytes_eqb (slice b idx (idx + 4)) MAGIC) eqn:E; [|done].
  apply starts_with_firstn. apply bytes_eqb_eq in E. unfold slice in E.
  replace (Z.to_nat (idx + 4 - idx)) with 4%nat in E by lia. done.
Qed.

Lemma accepts_bound b idx : accepts b idx = true → idx + 16 <= len b.
Proof.
  unfold accepts, _try_parse_meta_at. simpl buf.
  destruct (len b <? idx + 16) eqn:E; [done|lia].
Qed.

Lemma try_parse_reject s idx :
  accepts (buf s) idx = false → _try_parse_meta_at s idx = (false, s).
Proof. intros Ha. by rewrite try_parse_spec, Ha. Qed.

Lemma try_parse_accept s idx :
  accepts (buf s) idx = true →
  _try_parse_meta_at s idx =
    (true, set_meta (hdr_meta_len (buf s) idx) (hdr_file_size (buf s) idx)
             (hdr_name (buf s) idx) s).
Proof. intros Ha. by rewrite try_parse_spec, Ha. Qed.

Lemma find_magic_cases b start :
  0 <= start →
  (find b MAGIC start = -1 ∧ ∀ j, start <= j → accepts b j = false)
  ∨ (start <= find b MAGIC start <= len b
     ∧ ∀ j, start <= j < find b MAGIC start → accepts b j = false).
Proof.
  intros Hs. destruct (find_spec b MAGIC start Hs) as [[Hr Hno]|(Hr & Hm & Hno)].
  - left. split; [done|]. intros j Hj.
    destruct (accepts b j) eqn:Ha; [|done].
    pose proof (accepts_bound _ _ Ha). pose proof (accepts_magic b j ltac:(lia) Ha) as Hm.
    rewrite Hno in Hm; [done|lia].
  - right. split; [done|]. intros j Hj.
    destruct (accepts b j) eqn:Ha; [|done].
    pose proof (accepts_magic b j ltac:(lia) Ha) as Hm'.
    rewrite Hno in Hm'; [done|lia].
Qed.

Lemma scan_none fuel files s start :
  0 <= start →
  (∀ j, start <= j → accepts (buf s) j = false) →
  scan fuel files s start = Ok (files, s).
Proof.
  revert start; induction fuel as [|fuel IH]; intros start Hs Hno; simpl; [done|].
  destruct (find_magic_cases (buf s) start Hs) as [[Hr _]|[Hr _]].
  - by rewrite Hr.
  - destruct (find (buf s) MAGIC start <? 0) eqn:E; [done|].
    rewrite try_parse_reject by (apply Hno; lia).
    apply IH; [lia|]. intros j Hj. apply Hno. lia.
Qed.

Lemma scan_first fuel files s start i :
  0 <= start <= i →
  accepts (buf s) i = true →
  (∀ j, start <= j < i → accepts (buf s) j = false) →
  i - start < Z.of_nat fuel →
  scan fuel files s start =
    let ml := hdr_meta_len (buf s) i in
    let fsize := hdr_file_size (buf s) i in
    let name := hdr_name (buf s) i in
    let s' := set_buf (del_prefix ml (del_prefix i (buf s))) (set_meta ml fsize name s) in
    '(files', s') ← _open_out files s' (Some name) (Some fsize);
    Ok (files', set_state RECV s').
Proof.
  revert start; induction fuel as [|fuel IH]; intros start Hs Ha Hno Hf; [lia|].
  simpl scan.
  destruct (find_magic_cases (buf s) start ltac:(lia)) as [[Hr Hnone]|[Hr Hbefore]].
  { rewrite Hnone in Ha; [done|lia]. }
  set (idx := find (buf s) MAGIC start) in *.
  assert (idx <= i).
  { destruct (Z.le_gt_cases idx i) as [|Hgt]; [done|].
    rewrite Hbefore in Ha; [done|lia]. }
  destruct (idx <? 0) eqn:E; [lia|].
  destruct (Z.eq_dec idx i) as [->|Hne].
  - rewrite try_parse_accept by done. simpl.
    destruct (i >? 0) eqn:Ei; simpl; [done|].
    assert (i = 0) as -> by lia. done.
  - rewrite try_parse_reject by (apply Hno; lia).
    apply IH; [lia|done| |lia]. intros j Hj. apply Hno. lia.
Qed.

Lemma find_past_end b start : len b < start → find b MAGIC start = -1.
Proof. intros Hlt. unfold find. destruct (len b <? start) eqn:E; [done|lia]. Qed.

Lemma scan_fuel_any f1 f2 files s start :
  0 <= start →
  len (buf s) - start < Z.of_nat f1 →
  len (buf s) - start < Z.of_nat f2 →
  scan f1 files s start = scan f2 files s start.
Proof.
  revert f2 start; induction f1 as [|f1 IH]; intros f2 start Hs H1 H2.
  - destruct f2 as [|f2]; [done|]. simpl. rewrite find_past_end by lia. done.
  - destruct f2 as [|f2].
    + simpl. rewrite find_past_end by lia. done.
    + simpl. destruct (find_magic_cases (buf s) start Hs) as [[Hr _]|[Hr _]].
      * by rewrite Hr.
      * destruct (find (buf s) MAGIC start <? 0) eqn:E; [done|].
        rewrite try_parse_spec.
        destruct (accepts (buf s) (find (buf s) MAGIC start)); [done|].
        apply IH; lia.
Qed.

(** The fuel [general_work] gives [scan] is enough: more changes nothing. *)
Lemma scan_fuel_enough fuel files s :
  (length (buf s) < fuel)%nat →
  scan fuel files s 0 = scan (S (length (buf s))) files s 0.
Proof. intros Hf. apply scan_fuel_any; unfold len; lia. Qed.

Lemma close_closed files s : fh s = None → _close files s = (files, set_fh None s).
Proof. intros Hfh. unfold _close. by rewrite Hfh. Qed.

(** [_open_out] in a block that has no file open: the [.part] of the path
    it decides on is opened, or [open] raises. *)
Lemma open_out_target files s name sz :
  fh s = None →
  _open_out files s name sz =
    let final := target files s name in
    match open_error (final ++ lit ".part") with
    | Some e => Raise e
    | None => Ok (<[final ++ lit ".part" := []]> files, opened final s)
    end.
Proof.
  intros Hfh. unfold _open_out, target, opened, _log.
  destruct (negb (overwrite s) && exists_ files _).
  - destruct (splitext _) as [b e].
    rewrite close_closed by done. by destruct (open_error _).
  - rewrite close_closed by done. by destruct (open_error _).
Qed.

Lemma part_ne_final (final : pystr) : final ++ lit ".part" ≠ final.
Proof.
  intros Heq. apply (f_equal length) in Heq. rewrite length_app in Heq. simpl in Heq. lia.
Qed.


Lemma exists_delete files (p : pystr) :
  (if exists_ files p then delete p files else files) = delete p files.
Proof.
  unfold exists_. destruct (files !! p) eqn:E; [done|]. by rewrite delete_id.
Qed.

Lemma append_at (files : FileStore) (path : pystr) ondisk bytes :
  files !! path = Some ondisk → append files path bytes = <[path := ondisk ++ bytes]> files.
Proof. intros Hp. unfold append. by rewrite Hp. Qed.

Lemma len_nonneg_upto {A} (n : Z) (l : list A) : len (upto n l) <= len l.
Proof. unfold len, upto. rewrite length_firstn. lia. Qed.

Lemma upto_del_prefix' {A} (k : Z) (l : list A) : upto k l ++ del_prefix k l = l.
Proof. unfold upto, del_prefix. apply firstn_skipn. Qed.

Lemma upto_long {A} (k : Z) (l : list A) : len l <= k → upto k l = l.
Proof. intros Hk. unfold upto, len in *. apply firstn_all2. lia. Qed.

(** What reaches the file is at most what was held and written, and all
    of it when the closing passes on all that is held. *)
Lemma len_app {A} (l k : list A) : len (l ++ k) = len l + len k.
Proof. unfold len. rewrite length_app. lia. Qed.

Lemma reaches_file_len path held chunk :
  len (reaches_file path held chunk) <= len held + len chunk.
Proof.
  unfold reaches_file. cbv zeta. set (all := held ++ chunk).
  set (n := write_passes path held chunk).
  pose proof (len_nonneg_upto (flush_passes path (del_prefix n all)) (del_prefix n all)) as Hle.
  pose proof (f_equal len (upto_del_prefix' n all)) as Hall.
  rewrite len_app in Hall. unfold all in Hall at 3. rewrite len_app in Hall.
  rewrite len_app. lia.
Qed.

Lemma reaches_file_all path held chunk :
  (∀ h, len h <= flush_passes path h) →
  reaches_file path held chunk = held ++ chunk.
Proof.
  intros Hflush. unfold reaches_file. cbv zeta.
  rewrite (upto_long (flush_passes _ _)) by apply Hflush.
  apply upto_del_prefix'.
Qed.

Lemma write_spec files s path chunk :
  write files s path chunk =
    match write_error path (unflushed s) chunk with
    | Some e => Raise e
    | None =>
        Ok (append files path (upto (write_passes path (unflushed s) chunk) (unflushed s ++ chunk)),
            set_unflushed
              (del_prefix (write_passes path (unflushed s) chunk) (unflushed s ++ chunk)) s)
    end.
Proof. done. Qed.

(** [_finish] on a block whose [.part] file is open and there. *)
Lemma finish_spec files s final ondisk :
  fh s = Some (final ++ lit ".part") →
  final_path s = Some final →
  part_path s = Some (final ++ lit ".part") →
  files !! (final ++ lit ".part") = Some ondisk →
  _finish files s =
    match replace_error (final ++ lit ".part") final with
    | Some e => Raise e
    | None =>
        Ok (<[final := ondisk ++ upto (flush_passes (final ++ lit ".part") (unflushed s))
                                   (unflushed s)]>
              (delete (final ++ lit ".part") (delete final files)),
            set_fh None (set_unflushed [] s))
    end.
Proof.
  intros Hfh Hf Hp Hd. unfold _finish, _close, _log. rewrite Hfh.
  cbn [final_path part_path set_fh set_unflushed]. rewrite Hf, Hp.
  rewrite exists_delete, (append_at _ _ ondisk) by done.
  rewrite lookup_delete_ne by (intros E; by apply part_ne_final with final).
  rewrite lookup_insert_eq.
  destruct (replace_error _ _); [done|].
  f_equal. f_equal. apply map_eq. intros p.
  destruct (decide (p = final)) as [->|Hne1]; [by rewrite !lookup_insert_eq|].
  rewrite !(lookup_insert_ne _ final) by done.
  destruct (decide (p = final ++ lit ".part")) as [->|Hne2]; [by rewrite !lookup_delete_eq|].
  rewrite !(lookup_delete_ne _ (final ++ lit ".part")) by done.
  rewrite !(lookup_delete_ne _ final) by done.
  by rewrite lookup_insert_ne.
Qed.

Lemma receive_closed files s : fh s = None → receive files s = Ok (files, s).
Proof. intros Hfh. unfold receive. by rewrite Hfh. Qed.

Lemma receive_not_RECV files s : is_RECV (state s) = false → receive files s = Ok (files, s).
Proof. intros Hst. unfold receive. rewrite Hst. by destruct (fh s). Qed.

Lemma receive_empty files s path fsize :
  fh s = Some path → state s = RECV → file_size s = Some fsize →
  written s < fsize → buf s = [] →
  receive files s = Ok (files, s).
Proof.
  intros Hfh Hst Hfs Hw Hb. unfold receive. rewrite Hfh, Hst, Hfs, Hb. simpl.
  rewrite andb_false_r. cbn [mbind Result_bind bind].
  destruct (written s >=? fsize) eqn:E; [lia|done].
Qed.

(** The RECV branch on a buffer that holds less than what is missing: all
    of it is written, or the write raises. *)
Lemma receive_partial files s path fsize :
  fh s = Some path → state s = RECV → file_size s = Some fsize →
  0 < len (buf s) < fsize - written s →
  receive files s =
    match write_error path (unflushed s) (buf s) with
    | Some e => Raise e
    | None =>
        Ok (append files path
              (upto (write_passes path (unflushed s) (buf s)) (unflushed s ++ buf s)),
            set_buf [] (set_written (written s + len (buf s))
              (set_unflushed
                 (del_prefix (write_passes path (unflushed s) (buf s)) (unflushed s ++ buf s))
                 s)))
    end.
Proof.
  intros Hfh Hst Hfs Hb. unfold receive. rewrite Hfh, Hst, Hfs. simpl is_RECV. cbv iota.
  destruct (fsize - written s >? 0) eqn:E1; [|lia].
  destruct (len (buf s) >? 0) eqn:E2; [|lia]. cbn [andb].
  rewrite Z.min_r by lia. rewrite (upto_long (len (buf s))) by lia. rewrite write_spec.
  destruct (write_error _ _ _); [done|]. cbn [mbind Result_bind bind].
  cbn [written buf set_buf set_written set_unflushed].
  destruct (written s + len (buf s) >=? fsize) eqn:E3; [lia|].
  unfold del_prefix at 1, len. rewrite Nat2Z.id, skipn_all. done.
Qed.

(** The RECV branch on a buffer that holds all that is missing: it is
    written, the file is closed and renamed, or the write or the rename
    raises. *)
Lemma receive_complete files s final fsize ondisk :
  fh s = Some (final ++ lit ".part") → state s = RECV → file_size s = Some fsize →
  final_path s = Some final →
  part_path s = Some (final ++ lit ".part") →
  files !! (final ++ lit ".part") = Some ondisk →
  0 < fsize - written s <= len (buf s) →
  receive files s =
    let n := fsize - written s in
    let part := final ++ lit ".part" in
    match write_error part (unflushed s) (upto n (buf s)) with
    | Some e => Raise e
    | None =>
        match replace_error part final with
        | Some e => Raise e
        | None =>
            Ok (<[final := ondisk ++ reaches_file part (unflushed s) (upto n (buf s))]>
                  (delete part (delete final files)),
                set_state DONE (set_done true (set_fh None (set_unflushed []
                  (set_buf (del_prefix n (buf s)) (set_written (written s + n) s))))))
        end
    end.
Proof.
  intros Hfh Hst Hfs Hfp Hpp Hd Hb. unfold receive. rewrite Hfh, Hst, Hfs. simpl is_RECV. cbv iota.
  destruct (fsize - written s >? 0) eqn:E1; [|lia].
  destruct (len (buf s) >? 0) eqn:E2; [|lia]. cbn [andb]. cbv zeta.
  rewrite Z.min_l by lia. rewrite write_spec.
  destruct (write_error _ _ _); [done|]. cbn [mbind Result_bind bind].
  cbn [written buf set_buf set_written set_unflushed].
  destruct (written s + (fsize - written s) >=? fsize) eqn:E3; [|lia].
  erewrite (finish_spec _ _ final); [|done|done|done|].
  2:{ rewrite (append_at _ _ ondisk) by done. apply lookup_insert_eq. }
  destruct (replace_error _ _); [done|]. cbn [mbind Result_bind bind].
  cbn [unflushed set_buf set_written set_unflushed].
  f_equal. f_equal.
  - unfold reaches_file. cbv zeta. rewrite <- app_assoc.
    rewrite (append_at _ _ ondisk) by done.
    apply map_eq. intros p.
    destruct (decide (p = final)) as [->|Hne1]; [by rewrite !lookup_insert_eq|].
    rewrite !(lookup_insert_ne _ final) by done.
    destruct (decide (p = final ++ lit ".part")) as [->|Hne2]; [by rewrite !lookup_delete_eq|].
    rewrite !(lookup_delete_ne _ (final ++ lit ".part")) by done.
    rewrite !(lookup_delete_ne _ final) by done.
    by rewrite lookup_insert_ne.
Qed.

Lemma accepts_least_below b (n : nat) :
  (∀ j, 0 <= j < Z.of_nat n → accepts b j = false)
  ∨ (∃ i, 0 <= i ∧ accepts b i = true ∧ ∀ j, 0 <= j < i → accepts b j = false).
Proof.
  induction n as [|n [IH|IH]].
  - left. intros j Hj. lia.
  - destruct (accepts b (Z.of_nat n)) eqn:E.
    + right. exists (Z.of_nat n). split; [lia|]. split; [done|]. intros j Hj. apply IH. lia.
    + left. intros j Hj. destruct (Z.eq_dec j (Z.of_nat n)) as [->|]; [done|]. apply IH. lia.
  - by right.
Qed.

Lemma accepts_least b :
  (∀ j, 0 <= j → accepts b j = false)
  ∨ (∃ i, 0 <= i ∧ accepts b i = true ∧ ∀ j, 0 <= j < i → accepts b j = false).
Proof.
  destruct (accepts_least_below b (S (length b))) as [Hno|Hyes]; [|by right].
  left. intros j Hj. destruct (accepts b j) eqn:E; [|done].
  pose proof (accepts_bound _ _ E) as Hb. rewrite Hno in E; [done|]. unfold len in Hb. lia.
Qed.

Lemma capped_len m b : len (capped m b) <= Z.max m (1024 * 1024).
Proof.
  unfold capped. destruct (len b >? m) eqn:E; [|lia].
  unfold last_items, len in *. rewrite length_skipn. lia.
Qed.

Lemma capped_small m b : len b <= Z.max m (1024 * 1024) → capped m b = b.
Proof.
  intros Hb. unfold capped. destruct (len b >? m) eqn:E; [|done].
  unfold last_items. replace (Z.to_nat (len b - 1024 * 1024)) with 0%nat by lia. done.
Qed.

Lemma general_work_done files s inp : done s = true → general_work files s inp = Ok (files, s).
Proof. intros Hd. unfold general_work. by rewrite Hd. Qed.

Lemma general_work_unfold files s inp :
  done s = false →
  general_work files s inp =
    let s1 := set_buf (capped (max_buffer s) (buf s ++ inp)) s in
    '(files, s) ← (if is_SCAN (state s) then scan (S (length (buf s1))) files s1 0
                   else Ok (files, s1));
    receive files s.
Proof.
  intros Hd. unfold general_work, capped. rewrite Hd. simpl.
  destruct (len (buf s ++ inp) >? max_buffer s); done.
Qed.

(** What a call in SCAN comes to: no candidate is accepted and the block
    keeps the capped buffer, or the first accepted candidate has [_open_out]
    open the output and the RECV branch runs on what follows the header. *)
Lemma general_work_SCAN files s inp :
  done s = false → state s = SCAN →
  let b := capped (max_buffer s) (buf s ++ inp) in
  ((∀ j, 0 <= j → accepts b j = false)
   ∧ general_work files s inp = Ok (files, set_buf b s))
  ∨ (∃ i, 0 <= i ∧ accepts b i = true ∧ (∀ j, 0 <= j < i → accepts b j = false)
     ∧ general_work files s inp =
         let ml := hdr_meta_len b i in
         let fsize := hdr_file_size b i in
         let name := hdr_name b i in
         match
           _open_out files (set_buf (del_prefix ml (del_prefix i b)) (set_meta ml fsize name s))
             (Some name) (Some fsize)
         with
         | Ok (files1, s1) => receive files1 (set_state RECV s1)
         | Raise e => Raise e
         end).
Proof.
  intros Hd Hst b. rewrite general_work_unfold by done. rewrite Hst.
  cbv zeta. cbn [is_SCAN]. fold b.
  destruct (accepts_least b) as [Hno|(i & Hi & Ha & Hbefore)].
  - left. split; [done|]. rewrite scan_none; [|lia|done].
    cbn [mbind Result_bind bind]. apply receive_not_RECV. cbn [state set_buf]. by rewrite Hst.
  - right. exists i. split; [done|]. split; [done|]. split; [done|].
    rewrite (scan_first _ _ _ 0 i); [|lia|done|done|].
    2:{ pose proof (accepts_bound _ _ Ha) as Hb. cbn [buf set_buf]. unfold len in Hb. lia. }
    cbv zeta. cbn [buf set_buf].
    change (set_meta (hdr_meta_len b i) (hdr_file_size b i) (hdr_name b i) (set_buf b s))
      with (set_buf b (set_meta (hdr_meta_len b i) (hdr_file_size b i) (hdr_name b i) s)).
    change (set_buf ?x (set_buf b ?y)) with (set_buf x y).
    destruct (_open_out _ _ _ _) as [[files1 s1]|]; done.
Qed.

(** A call in SCAN on a block with no file open, when the first candidate
    that is accepted is at [i]: the [.part] of the path [_open_out] decides
    on is opened and the RECV branch runs on what follows the header,
    unless [open] raises. *)
Lemma general_work_accept files s inp i :
  done s = false → state s = SCAN → fh s = None →
  let b := capped (max_buffer s) (buf s ++ inp) in
  0 <= i → accepts b i = true → (∀ j, 0 <= j < i → accepts b j = false) →
  general_work files s inp =
    let ml := hdr_meta_len b i in
    let fsize := hdr_file_size b i in
    let name := hdr_name b i in
    let final := target files s (Some name) in
    match open_error (final ++ lit ".part") with
    | Some e => Raise e
    | None =>
        receive (<[final ++ lit ".part" := []]> files)
          (set_state RECV (opened final
             (set_buf (del_prefix ml (del_prefix i b)) (set_meta ml fsize name s))))
    end.
Proof.
  intros Hd Hst Hfh b Hi Ha Hbefore.
  destruct (general_work_SCAN files s inp Hd Hst) as [[Hno _]|(i' & Hi' & Ha' & Hbefore' & Heq)].
  { fold b in Hno. rewrite Hno in Ha; done. }
  fold b in Ha', Hbefore', Heq.
  assert (i' = i) as ->.
  { destruct (Z.lt_trichotomy i' i) as [Hlt|[Heq'|Hgt]]; [|done|].
    - rewrite Hbefore in Ha'; [done|lia].
    - rewrite Hbefore' in Ha; [done|lia]. }
  rewrite Heq. cbv zeta. rewrite open_out_target by done. cbv zeta.
  change (target files (set_buf _ (set_meta _ _ _ s)) _)
    with (target files s (Some (hdr_name b i))).
  destruct (open_error _); done.
Qed.

Lemma len_nil_inv {A} (l : list A) : len l = 0 → l = [].
Proof. destruct l; [done|]. unfold len. simpl. lia. Qed.

Lemma len_upto {A} (n : Z) (l : list A) : 0 <= n <= len l → len (upto n l) = n.
Proof. intros Hn. unfold len, upto in *. rewrite length_firstn. lia. Qed.

Lemma receive_at_rest files0 files s files' s' :
  state s = RECV →
  at_rest files0 files s →
  receive files s = Ok (files', s') →
  at_rest files0 files' s'.
Proof.
  intros Hst Hrest Hrecv. pose proof Hrest as Hrest0.
  unfold at_rest in Hrest. rewrite Hst in Hrest.
  destruct Hrest as (Hd & final & fsize & ondisk & Hfp & Hpp & Hfs & Hw & Hfiles & Hfh).
  destruct Hfh as [[Hfh Hlen]|[Hfh Hlen]].
  2:{ rewrite receive_closed in Hrecv by done. by inversion Hrecv; subst. }
  destruct (Z.eq_dec (len (buf s)) 0) as [Hz|Hnz].
  { apply len_nil_inv in Hz.
    rewrite (receive_empty _ _ _ fsize) in Hrecv by (done || lia).
    by inversion Hrecv; subst. }
  pose proof (len_nonneg (buf s)) as Hnn.
  pose proof (len_nonneg (unflushed s)) as Hun.
  pose proof (len_nonneg ondisk) as Hon.
  destruct (Z.lt_ge_cases (len (buf s)) (fsize - written s)) as [Hlt|Hge].
  - rewrite (receive_partial _ _ _ fsize) in Hrecv by (done || lia).
    destruct (write_error _ _ _); [done|].
    inversion Hrecv; subst files' s'; clear Hrecv.
    unfold at_rest. cbn [state done final_path part_path file_size written fh unflushed
                         set_buf set_written set_unflushed]. rewrite Hst. split; [done|].
    set (n := write_passes _ _ _). set (all := unflushed s ++ buf s).
    exists final, fsize, (ondisk ++ upto n all).
    split; [done|]. split; [done|]. split; [done|]. split; [lia|]. split.
    + rewrite (append_at _ _ ondisk) by (rewrite Hfiles; apply lookup_insert_eq).
      rewrite Hfiles. by rewrite insert_insert_eq.
    + left. split; [done|].
      pose proof (f_equal len (upto_del_prefix' n all)) as Hall.
      rewrite len_app in Hall. unfold all in Hall at 3. rewrite len_app in Hall.
      rewrite len_app. lia.
  - rewrite (receive_complete _ _ final fsize ondisk) in Hrecv; try done; try lia.
    2:{ rewrite Hfiles. apply lookup_insert_eq. }
    cbv zeta in Hrecv.
    destruct (write_error _ _ _); [done|]. destruct (replace_error _ _); [done|].
    inversion Hrecv; subst files' s'; clear Hrecv.
    set (chunk := upto (fsize - written s) (buf s)).
    assert (Hchunk : len chunk = fsize - written s) by (apply len_upto; lia).
    pose proof (reaches_file_len (final ++ lit ".part") (unflushed s) chunk) as Hreach.
    unfold at_rest. cbn [state done final_path part_path file_size written fh unflushed
                         set_state set_done set_fh set_buf set_written set_unflushed].
    split; [done|]. split; [done|].
    exists final, (ondisk ++ reaches_file (final ++ lit ".part") (unflushed s) chunk).
    split; [done|]. split; [done|]. split; [rewrite Hfs; f_equal; lia|].
    split; [rewrite len_app; lia|]. split.
    + intros Hflush. rewrite reaches_file_all by done. rewrite !len_app. lia.
    + f_equal. rewrite Hfiles. apply map_eq. intros p.
      destruct (decide (p = final ++ lit ".part")) as [->|Hne].
      { by rewrite !lookup_delete_eq. }
      rewrite !(lookup_delete_ne _ (final ++ lit ".part")) by done.
      destruct (decide (p = final)) as [->|Hne'].
      { by rewrite !lookup_delete_eq. }
      rewrite !(lookup_delete_ne _ final) by done.
      by rewrite lookup_insert_ne.
Qed.

Lemma general_work_at_rest files0 files s inp files' s' :
  at_rest files0 files s →
  general_work files s inp = Ok (files', s') →
  at_rest files0 files' s'.
Proof.
  intros Hrest Hwork. destruct (state s) eqn:Hst.
  - pose proof Hrest as Hrest0. unfold at_rest in Hrest. rewrite Hst in Hrest.
    destruct Hrest as (-> & Hd & Hfh).
    destruct (accepts_least (capped (max_buffer s) (buf s ++ inp)))
      as [Hno|(i & Hi & Ha & Hbefore)].
    + destruct (general_work_SCAN files0 s inp Hd Hst) as [[_ Heq]|(i & Hi' & Ha & _)].
      2:{ rewrite Hno in Ha; done. }
      rewrite Heq in Hwork.
      inversion Hwork; subst. unfold at_rest. cbn [state done fh set_buf]. by rewrite Hst.
    + rewrite (general_work_accept files0 s inp i Hd Hst Hfh Hi Ha Hbefore) in Hwork.
      cbv zeta in Hwork.
      destruct (open_error _); [done|].
      eapply receive_at_rest; [| |exact Hwork]; [done|].
      apply accepts_iff in Ha. destruct Ha as ((_ & _ & _ & _ & _ & Hsz & _) & _).
      unfold at_rest.
      cbn [state done final_path part_path file_size written fh unflushed
           set_state opened set_written set_fh set_unflushed set_paths set_buf set_meta].
      split; [done|].
      eexists _, _, []. split; [done|]. split; [done|]. split; [done|]. split; [lia|].
      split; [done|]. left. done.
  - pose proof Hrest as Hrest0. unfold at_rest in Hrest. rewrite Hst in Hrest.
    destruct Hrest as (Hd & _).
    rewrite general_work_unfold in Hwork by done. rewrite Hst in Hwork.
    cbv zeta in Hwork. cbn [is_SCAN mbind Result_bind bind] in Hwork.
    eapply receive_at_rest; [| |exact Hwork]; [done|].
    unfold at_rest in *. cbn [state done final_path part_path file_size written fh unflushed
                              set_buf]. by rewrite Hst in *.
  - unfold at_rest in Hrest. rewrite Hst in Hrest. destruct Hrest as (Hd & Hrest).
    rewrite general_work_done in Hwork by done. inversion Hwork; subst.
    unfold at_rest. rewrite Hst. done.
Qed.

Lemma stop_at_rest files0 files s files' s' :
  at_rest files0 files s → stop files s = (files', s') → at_rest files0 files' s'.
Proof.
  intros Hrest Hstop. unfold stop in Hstop.
  destruct (fh s) as [path|] eqn:Hfh.
  2:{ rewrite close_closed in Hstop by done. inversion Hstop; subst files' s'.
      unfold at_rest in *.
      cbn [state done final_path part_path file_size written fh unflushed set_fh].
      destruct (state s).
      - destruct Hrest as (? & ? & ?). done.
      - destruct Hrest as (Hd & final & fsize & ondisk & ? & ? & ? & ? & ? & [[? ?]|[? ?]]);
          [congruence|].
        split; [done|]. exists final, fsize, ondisk.
        repeat split; try done; try lia. by right.
      - destruct Hrest as (? & ? & Hex). done. }
  unfold _close in Hstop. rewrite Hfh in Hstop. inversion Hstop; subst files' s'.
  unfold at_rest in *.
  cbn [state done final_path part_path file_size written fh unflushed set_fh set_unflushed].
  destruct (state s).
  - destruct Hrest as (_ & _ & ?). congruence.
  - destruct Hrest as (Hd & final & fsize & ondisk & Hfp & Hpp & Hfs & Hw & Hfiles
                       & [[Hfh' Hlen]|[? ?]]); [|congruence].
    assert (path = final ++ lit ".part") as -> by congruence.
    split; [done|].
    exists final, fsize, (ondisk ++ upto (flush_passes (final ++ lit ".part") (unflushed s))
                                    (unflushed s)).
    split; [done|]. split; [done|]. split; [done|]. split; [done|]. split.
    + rewrite (append_at _ _ ondisk) by (rewrite Hfiles; apply lookup_insert_eq).
      rewrite Hfiles. by rewrite insert_insert_eq.
    + right. split; [done|]. rewrite len_app.
      pose proof (len_nonneg_upto (flush_passes (final ++ lit ".part") (unflushed s))
                    (unflushed s)). lia.
  - destruct Hrest as (_ & ? & _). congruence.
Qed.

Lemma reachable_at_rest files0 s0 files s :
  at_rest files0 files0 s0 →
  reachable files0 s0 files s →
  at_rest files0 files s.
Proof.
  intros Hstart Hreach.
  induction Hreach as [|files s inp files' s' _ IH Hwork|files s files' s' _ IH Hstop].
  - done.
  - by eapply general_work_at_rest.
  - by eapply stop_at_rest.
Qed.

Lemma init_at_rest files0 dir dbg ow mb : at_rest files0 files0 (__init__ dir dbg ow mb).
Proof. unfold at_rest. simpl. done. Qed.

Lemma len_del_prefix {A} (n : Z) (l : list A) : len (del_prefix n l) <= len l.
Proof. unfold len, del_prefix. rewrite length_skipn. lia. Qed.

(** What the file operations leave of the block. *)
Lemma close_as files s :
  ∃ files' u, _close files s = (files', set_fh None (set_unflushed u s)).
Proof.
  unfold _close. destruct (fh s); [by eexists _, _|].
  exists files, (unflushed s). by destruct s.
Qed.

Lemma finish_as files s files' s' :
  _finish files s = Ok (files', s') → ∃ u, s' = set_fh None (set_unflushed u s).
Proof.
  unfold _finish, _log. destruct (close_as files s) as (f1 & u & ->).
  cbn [final_path part_path set_fh set_unflushed].
  destruct (final_path s); [|done]. destruct (part_path s); [|done].
  destruct (_ !! _); [|done]. destruct (replace_error _ _); [done|].
  intros [= <- <-]. by exists u.
Qed.

Lemma open_out_as files s name sz files' s' :
  _open_out files s name sz = Ok (files', s') → s' = opened (target files s name) s.
Proof.
  unfold _open_out, target, _log.
  destruct (negb (overwrite s) && exists_ files _).
  - destruct (splitext _) as [b e].
    destruct (close_as files (set_paths (numbered b e (free_suffix (S (2 * base.size files)) files b e 1))
                (numbered b e (free_suffix (S (2 * base.size files)) files b e 1) ++ lit ".part") s))
      as (f1 & u & ->).
    destruct (open_error _); [done|]. by intros [= <- <-].
  - match goal with |- context [_close files ?x] => destruct (close_as files x) as (f1 & u & ->) end.
    destruct (open_error _); [done|]. by intros [= <- <-].
Qed.

Lemma write_as files s path chunk files' s' :
  write files s path chunk = Ok (files', s') → ∃ u, s' = set_unflushed u s.
Proof.
  rewrite write_spec. destruct (write_error _ _ _); [done|]. intros [= <- <-]. by eexists.
Qed.

(** The RECV branch takes bytes from the front of the buffer, may close the
    file and go to DONE, and leaves the rest of the block as it is. *)
Lemma receive_frame files s files' s' :
  receive files s = Ok (files', s') →
  out_dir s' = out_dir s ∧ overwrite s' = overwrite s ∧ max_buffer s' = max_buffer s
  ∧ meta_len s' = meta_len s ∧ file_size s' = file_size s ∧ file_name s' = file_name s
  ∧ final_path s' = final_path s ∧ part_path s' = part_path s
  ∧ len (buf s') <= len (buf s)
  ∧ (state s' = state s ∨ state s' = DONE).
Proof.
  assert (Hsame : ∀ r : blk, len (buf r) <= len (buf r)) by (intros; lia).
  unfold receive. destruct (fh s) as [path|];
    [|intros [= <- <-]; repeat split; try done; by left].
  destruct (is_RECV (state s));
    [|intros [= <- <-]; repeat split; try done; by left].
  destruct (file_size s) as [fsize|] eqn:Hfs; [|done].
  destruct ((fsize - written s >? 0) && (len (buf s) >? 0)).
  - destruct (write files s path _) as [[f1 s1]|] eqn:Hw; [|done].
    apply write_as in Hw as (u & ->). cbn [mbind Result_bind bind].
    cbn [written buf set_buf set_written set_unflushed].
    destruct (_ >=? _).
    + destruct (_finish _ _) as [[f2 s2]|] eqn:Hfin; [|done].
      apply finish_as in Hfin as (u2 & ->). cbn [mbind Result_bind bind].
      intros [= <- <-].
      cbn [out_dir overwrite max_buffer meta_len file_size file_name final_path part_path buf
           state set_state set_done set_fh set_unflushed set_buf set_written].
      repeat split; try done; try apply len_del_prefix. by right.
    + intros [= <- <-].
      cbn [out_dir overwrite max_buffer meta_len file_size file_name final_path part_path buf
           state set_state set_done set_fh set_unflushed set_buf set_written].
      repeat split; try done; try apply len_del_prefix. by left.
  - cbn [mbind Result_bind bind]. destruct (_ >=? _).
    + destruct (_finish _ _) as [[f2 s2]|] eqn:Hfin; [|done].
      apply finish_as in Hfin as (u2 & ->). cbn [mbind Result_bind bind].
      intros [= <- <-].
      cbn [out_dir overwrite max_buffer meta_len file_size file_name final_path part_path buf
           state set_state set_done set_fh set_unflushed set_buf set_written].
      repeat split; try done. by right.
    + intros [= <- <-]. repeat split; try done. by left.
Qed.

Lemma receive_shrinks files s files' s' :
  receive files s = Ok (files', s') →
  len (buf s') <= len (buf s) ∧ max_buffer s' = max_buffer s.
Proof. intros Hr. apply receive_frame in Hr. tauto. Qed.

Lemma general_work_not_SCAN files s inp :
  done s = false → is_SCAN (state s) = false →
  general_work files s inp = receive files (set_buf (capped (max_buffer s) (buf s ++ inp)) s).
Proof.
  intros Hd Hst. rewrite general_work_unfold by done. rewrite Hst. done.
Qed.

Lemma general_work_bound files s inp files' s' :
  general_work files s inp = Ok (files', s') →
  max_buffer s' = max_buffer s
  ∧ (len (buf s) <= Z.max (max_buffer s) (1024 * 1024) →
     len (buf s') <= Z.max (max_buffer s) (1024 * 1024)).
Proof.
  intros Hwork. destruct (done s) eqn:Hd.
  { rewrite general_work_done in Hwork by done. by inversion Hwork; subst. }
  pose proof (capped_len (max_buffer s) (buf s ++ inp)) as Hcap.
  destruct (is_SCAN (state s)) eqn:Hst.
  - assert (state s = SCAN) as Hst' by (by destruct (state s)).
    destruct (general_work_SCAN files s inp Hd Hst') as [[_ Heq]|(i & Hi & Ha & _ & Heq)].
    + rewrite Heq in Hwork. inversion Hwork; subst files' s'.
      cbn [buf max_buffer set_buf]. split; [done|lia].
    + rewrite Heq in Hwork. cbv zeta in Hwork.
      destruct (_open_out _ _ _ _) as [[files1 s1]|] eqn:Hopen; [|done].
      apply open_out_as in Hopen as ->.
      apply receive_shrinks in Hwork as [Hb Hm].
      cbn [buf max_buffer set_buf set_state opened set_written set_fh set_unflushed set_paths
           set_meta] in Hb, Hm.
      split; [done|].
      pose proof (len_del_prefix
        (hdr_meta_len (capped (max_buffer s) (buf s ++ inp)) i)
        (del_prefix i (capped (max_buffer s) (buf s ++ inp)))).
      pose proof (len_del_prefix i (capped (max_buffer s) (buf s ++ inp))). lia.
  - rewrite general_work_not_SCAN in Hwork by done.
    apply receive_shrinks in Hwork as [Hb Hm].
    cbn [buf max_buffer set_buf] in Hb, Hm. split; [done|lia].
Qed.

Lemma stop_as files s files' s' :
  stop files s = (files', s') → ∃ u, s' = set_fh None (set_unflushed u s).
Proof.
  unfold stop. destruct (close_as files s) as (f1 & u & ->). intros [= <- <-]. by exists u.
Qed.

Lemma reachable_bound files0 s0 files s :
  reachable files0 s0 files s →
  max_buffer s = max_buffer s0
  ∧ (len (buf s0) <= Z.max (max_buffer s0) (1024 * 1024) →
     len (buf s) <= Z.max (max_buffer s0) (1024 * 1024)).
Proof.
  induction 1 as [|files s inp files' s' _ [IHm IHb] Hwork|files s files' s' _ IH Hstop];
    [done| |].
  - apply general_work_bound in Hwork as [Hm Hb]. rewrite IHm in *. split; [done|]. auto.
  - apply stop_as in Hstop as (u & ->). done.
Qed.

(** *** Header validation *)

(** C10. When [_try_parse_meta_at] returns False, whatever the reason (too
    few bytes for the fixed part, no magic, a bad field, too few bytes for
    the whole header), the block it returns is the block it was given:
    [meta_len], [file_size], [file_name] and the buffer are as they were. *)
Theorem parse_failure_changes_nothing s idx :
  fst (_try_parse_meta_at s idx) = false →
  snd (_try_parse_meta_at s idx) = s.
Proof.
  rewrite try_parse_spec. by destruct (accepts (buf s) idx).
Qed.

(** C3, as the code has it.  At an offset [0 <= idx], [_try_parse_meta_at]
    returns True exactly when the seven listed checks hold and the name
    field fits in the header, [16 + name_len <= meta_len]: a header whose
    name would overflow [meta_len] is rejected. *)
Theorem try_parse_accepts_iff s idx :
  0 <= idx →
  fst (_try_parse_meta_at s idx) = true
  ↔ listed_checks (buf s) idx
    ∧ 16 + hdr_name_len (buf s) idx <= hdr_meta_len (buf s) idx.
Proof.
  intros _. rewrite <- accepts_iff, try_parse_spec.
  by destruct (accepts (buf s) idx).
Qed.

(** *** The scan of one call *)

Lemma find_at_match b idx :
  0 <= idx →
  starts_with MAGIC (skipn (Z.to_nat idx) b) = true →
  find b MAGIC idx = idx.
Proof.
  intros Hidx Hm.
  assert (idx <= len b) as Hle.
  { destruct (Z.le_gt_cases idx (len b)) as [|Hgt]; [done|].
    rewrite skipn_all2 in Hm by (unfold len in Hgt; lia). done. }
  destruct (find_spec b MAGIC idx Hidx) as [[Hr Hno]|(Hr & _ & Hno)].
  - rewrite Hno in Hm; [done|lia].
  - destruct (Z.eq_dec (find b MAGIC idx) idx) as [|Hne]; [done|].
    rewrite Hno in Hm; [done|lia].
Qed.

Lemma needs_more_data_rejected b idx : needs_more_data b idx → accepts b idx = false.
Proof.
  intros (_ & _ & _ & _ & _ & _ & Hshort).
  destruct (accepts b idx) eqn:Ha; [|done].
  apply accepts_iff in Ha as ((_ & _ & _ & _ & _ & _ & Hfull) & _). lia.
Qed.

Lemma needs_more_data_magic b idx :
  0 <= idx → needs_more_data b idx →
  starts_with MAGIC (skipn (Z.to_nat idx) b) = true.
Proof.
  intros Hidx (_ & Hm & _). apply starts_with_firstn.
  unfold hdr_magic, slice in Hm.
  replace (Z.to_nat (idx + 4 - idx)) with 4%nat in Hm by lia. done.
Qed.

(** C5, as the code has it.  A candidate at [idx] that passes the checks on
    its fields and lacks bytes is rejected like an invalid one, and the
    search of the same call goes on from [idx + 1]; the call leaves the
    capped buffer as it is, in SCAN, when no other candidate is accepted. *)
Theorem need_more_data_is_passed_over files s inp idx :
  done s = false → state s = SCAN → 0 <= idx →
  let b := capped (max_buffer s) (buf s ++ inp) in
  needs_more_data b idx →
  _try_parse_meta_at (set_buf b s) idx = (false, set_buf b s)
  ∧ scan (S (length b)) files (set_buf b s) idx
    = scan (S (length b)) files (set_buf b s) (idx + 1)
  ∧ ((∀ j, 0 <= j → j ≠ idx → accepts b j = false) →
     general_work files s inp = Ok (files, set_buf b s)).
Proof.
  intros Hd Hst Hidx b Hneed.
  pose proof (needs_more_data_rejected _ _ Hneed) as Hrej.
  split; [by apply try_parse_reject|]. split.
  - transitivity (scan (length b) files (set_buf b s) (idx + 1)).
    + cbn [scan]. cbn [buf set_buf].
      rewrite find_at_match by (done || by apply needs_more_data_magic).
      destruct (idx <? 0) eqn:E; [lia|].
      by rewrite try_parse_reject.
    + destruct Hneed as (Hlen & _).
      apply scan_fuel_any; cbn [buf set_buf]; unfold len in *; lia.
  - intros Hothers.
    destruct (general_work_SCAN files s inp Hd Hst) as [[_ Heq]|(i & Hi & Ha & _)].
    + by rewrite Heq.
    + fold b in Ha. destruct (Z.eq_dec i idx) as [->|Hne]; [congruence|].
      rewrite Hothers in Ha; done.
Qed.

(** *** What every reachable state satisfies *)

(** C8, as the code has it.  Whatever is delivered, a valid header or none,
    after each call the buffer is no longer than the larger of [max_buffer]
    and 1 MiB, the length the cap cuts it down to. *)
Theorem scan_buffer_bounded files0 dir dbg ow mb files s :
  reachable files0 (__init__ dir dbg ow mb) files s →
  len (buf s) <= Z.max mb (1024 * 1024).
Proof.
  intros Hreach. apply reachable_bound in Hreach as [_ Hb]. simpl in Hb.
  apply Hb. unfold len. simpl. lia.
Qed.


(** *** A header inside a longer buffer *)

Lemma slice_app_shift {A} (pre l : list A) a b :
  0 <= a → slice (pre ++ l) (len pre + a) (len pre + b) = slice l a b.
Proof.
  intros Ha. unfold slice, len.
  replace (Z.to_nat (Z.of_nat (length pre) + a)) with (length pre + Z.to_nat a)%nat by lia.
  rewrite drop_app_add.
  by replace (Z.of_nat (length pre) + b - (Z.of_nat (length pre) + a)) with (b - a) by lia.
Qed.

Lemma slice_app_within {A} (l suf : list A) a b :
  0 <= a → b <= len l → slice (l ++ suf) a b = slice l a b.
Proof.
  intros Ha Hb. unfold slice, len in *.
  destruct (Z.le_gt_cases b a) as [Hle|Hgt].
  { by replace (Z.to_nat (b - a)) with 0%nat by lia. }
  rewrite drop_app_le by lia. rewrite take_app_le; [done|].
  rewrite length_skipn. lia.
Qed.

Lemma item_app_shift (pre l : list byte) i :
  0 <= i → item (pre ++ l) (len pre + i) = item l i.
Proof.
  intros Hi. unfold item, len.
  replace (Z.to_nat (Z.of_nat (length pre) + i)) with (length pre + Z.to_nat i)%nat by lia.
  by rewrite app_nth2_plus.
Qed.

Lemma item_app_within (l suf : list byte) i :
  0 <= i < len l → item (l ++ suf) i = item l i.
Proof.
  intros Hi. unfold item, len in *. rewrite app_nth1 by lia. done.
Qed.

Lemma accepts_embedded pre l suf idx :
  0 <= idx → accepts l idx = true →
  accepts (pre ++ l ++ suf) (len pre + idx) = true
  ∧ hdr_meta_len (pre ++ l ++ suf) (len pre + idx) = hdr_meta_len l idx
  ∧ hdr_file_size (pre ++ l ++ suf) (len pre + idx) = hdr_file_size l idx
  ∧ hdr_name (pre ++ l ++ suf) (len pre + idx) = hdr_name l idx.
Proof.
  intros Hidx Ha. apply accepts_iff in Ha as ((H1 & H2 & H3 & H4 & H5 & H6 & H7) & H8).
  pose proof (len_nonneg pre) as Hpre. pose proof (len_nonneg suf) as Hsuf.
  assert (Hml : hdr_meta_len (pre ++ l ++ suf) (len pre + idx) = hdr_meta_len l idx).
  { unfold hdr_meta_len. rewrite <- !Z.add_assoc, slice_app_shift, slice_app_within by lia. done. }
  assert (Hfs : hdr_file_size (pre ++ l ++ suf) (len pre + idx) = hdr_file_size l idx).
  { unfold hdr_file_size. rewrite <- !Z.add_assoc, slice_app_shift, slice_app_within by lia. done. }
  assert (Hnl : hdr_name_len (pre ++ l ++ suf) (len pre + idx) = hdr_name_len l idx).
  { unfold hdr_name_len. rewrite <- !Z.add_assoc, item_app_shift, item_app_within by lia. done. }
  assert (Hv : hdr_version (pre ++ l ++ suf) (len pre + idx) = hdr_version l idx).
  { unfold hdr_version. rewrite <- !Z.add_assoc, item_app_shift, item_app_within by lia. done. }
  assert (Hmg : hdr_magic (pre ++ l ++ suf) (len pre + idx) = hdr_magic l idx).
  { unfold hdr_magic. rewrite <- !Z.add_assoc, slice_app_shift, slice_app_within by lia. done. }
  assert (Hnm : hdr_name (pre ++ l ++ suf) (len pre + idx) = hdr_name l idx).
  { unfold hdr_name. rewrite Hnl.
    replace (len pre + idx + 16 + hdr_name_len l idx)
      with (len pre + (idx + 16 + hdr_name_len l idx)) by lia.
    replace (len pre + idx + 16) with (len pre + (idx + 16)) by lia.
    rewrite slice_app_shift by lia. rewrite slice_app_within by lia. done. }
  split; [|done]. apply accepts_iff. unfold listed_checks.
  rewrite Hml, Hfs, Hnl, Hv, Hmg, !len_app. repeat split; try done; try lia.
Qed.

(** *** One delivery that holds a header and its payload *)

Lemma del_prefix_app {A} (l k : list A) : del_prefix (len l) (l ++ k) = k.
Proof. unfold del_prefix, len. rewrite Nat2Z.id. apply drop_app_length. Qed.

Lemma upto_app {A} (l k : list A) : upto (len l) (l ++ k) = l.
Proof. unfold upto, len. rewrite Nat2Z.id. apply take_app_length. Qed.

Lemma store_after_rename (files : FileStore) (final : pystr) data :
  <[final := data]>
    (delete (final ++ lit ".part") (delete final (<[final ++ lit ".part" := []]> files)))
  = <[final := data]> (delete (final ++ lit ".part") (delete final files)).
Proof.
  apply map_eq. intros p.
  destruct (decide (p = final)) as [->|Hne1]; [by rewrite !lookup_insert_eq|].
  rewrite !(lookup_insert_ne _ final) by done.
  destruct (decide (p = final ++ lit ".part")) as [->|Hne2]; [by rewrite !lookup_delete_eq|].
  rewrite !(lookup_delete_ne _ (final ++ lit ".part")) by done.
  rewrite !(lookup_delete_ne _ final) by done.
  by rewrite lookup_insert_ne.
Qed.

(** The RECV branch right after [_open_out], on a buffer that holds the
    whole payload, when the operating system lets the output through. *)
Lemma receive_after_open files s final payload rest :
  lets_through final →
  0 < len payload →
  file_size s = Some (len payload) →
  buf s = payload ++ rest →
  ∃ s',
    receive (<[final ++ lit ".part" := []]> files) (set_state RECV (opened final s))
    = Ok (<[final := payload]> (delete (final ++ lit ".part") (delete final files)), s')
    ∧ state s' = DONE ∧ done s' = true ∧ buf s' = rest
    ∧ written s' = len payload
    ∧ file_size s' = Some (len payload)
    ∧ file_name s' = file_name s
    ∧ final_path s' = Some final
    ∧ fh s' = None.
Proof.
  intros (Hopen & Hwrite & Hflush & Hreplace) Hpos Hfs Hbuf.
  pose proof (len_nonneg rest) as Hrest.
  rewrite (receive_complete _ _ final (len payload) []).
  - cbv zeta.
    cbn [written buf unflushed set_state opened set_written set_fh set_unflushed set_paths].
    rewrite Hwrite, Hreplace, Hbuf. replace (len payload - 0) with (len payload) by lia.
    rewrite upto_app, del_prefix_app, reaches_file_all by done.
    cbn [app]. rewrite store_after_rename.
    eexists. split; [reflexivity|].
    cbn [state done buf written file_size file_name final_path fh
         set_state set_done set_fh set_unflushed set_buf set_written opened set_paths].
    repeat split; (done || lia).
  - done.
  - done.
  - done.
  - done.
  - done.
  - by rewrite lookup_insert_eq.
  - cbn [written buf set_state opened set_written set_fh set_unflushed set_paths].
    rewrite Hbuf, len_app. lia.
Qed.

(** The first accepted candidate of the capped buffer is at the end of
    [before]; its header is [hdr] and [payload] is as long as it declares.
    When the operating system lets the output through, the call writes
    [payload] to the [.part], renames it and is DONE. *)
Lemma general_work_whole_file files s inp before hdr payload rest :
  done s = false → state s = SCAN → fh s = None →
  let b := capped (max_buffer s) (buf s ++ inp) in
  let i := len before in
  b = before ++ hdr ++ payload ++ rest →
  accepts b i = true →
  (∀ j, 0 <= j < i → accepts b j = false) →
  hdr_meta_len b i = len hdr →
  hdr_file_size b i = len payload →
  let final := target files s (Some (hdr_name b i)) in
  lets_through final →
  ∃ s',
    general_work files s inp =
      Ok (<[final := payload]>
            (delete (final ++ lit ".part") (delete final files)), s')
    ∧ state s' = DONE ∧ done s' = true ∧ buf s' = rest
    ∧ written s' = len payload
    ∧ file_size s' = Some (len payload)
    ∧ file_name s' = Some (hdr_name b i)
    ∧ final_path s' = Some final
    ∧ fh s' = None.
Proof.
  intros Hd Hst Hfh b i Hb Ha Hbefore Hml Hfs final Hlets.
  pose proof (len_nonneg before) as Hi0. fold i in Hi0.
  assert (Hpos : 0 < len payload).
  { apply accepts_iff in Ha as ((_ & _ & _ & _ & _ & Hsz & _) & _). lia. }
  assert (Hskip : del_prefix (hdr_meta_len b i) (del_prefix i b) = payload ++ rest).
  { rewrite Hml, Hb. unfold i. by rewrite !del_prefix_app. }
  rewrite (general_work_accept files s inp i) by done.
  cbv zeta. fold b. fold final. rewrite Hskip, Hfs.
  destruct Hlets as (Hopen & Hrest). rewrite Hopen.
  apply receive_after_open; [by split|done|done|done].
Qed.

(** One delivery to a new block: [garbage], a header that is accepted
    standing alone and is [meta_len] long, the payload it declares, then
    anything; no offset inside [garbage] is accepted, nothing is cut by the
    cap, and the operating system lets the output through. *)
Lemma delivery_reassembles files dir dbg ow mb garbage hdr payload rest :
  let s0 := __init__ dir dbg ow mb in
  let stream := garbage ++ hdr ++ payload ++ rest in
  accepts hdr 0 = true →
  hdr_meta_len hdr 0 = len hdr →
  hdr_file_size hdr 0 = len payload →
  (∀ j, 0 <= j < len garbage → accepts stream j = false) →
  len stream <= Z.max mb (1024 * 1024) →
  let final := target files s0 (Some (hdr_name hdr 0)) in
  lets_through final →
  ∃ files' s',
    general_work files s0 stream = Ok (files', s')
    ∧ state s' = DONE
    ∧ buf s' = rest
    ∧ written s' = len payload
    ∧ file_name s' = Some (hdr_name hdr 0)
    ∧ final_path s' = Some final
    ∧ files' !! final = Some payload.
Proof.
  intros s0 stream Ha Hml Hfs Hgarbage Hlen final Hlets.
  destruct (accepts_embedded garbage hdr (payload ++ rest) 0 ltac:(lia) Ha)
    as (Ha' & Hml' & Hfs' & Hnm').
  rewrite Z.add_0_r in Ha', Hml', Hfs', Hnm'. fold stream in Ha', Hml', Hfs', Hnm'.
  assert (Hcap : capped (max_buffer s0) (buf s0 ++ stream) = stream).
  { unfold s0. cbn [max_buffer buf __init__ app]. by apply capped_small. }
  destruct (general_work_whole_file files s0 stream garbage hdr payload rest)
    as (s' & Hwork & Hst & _ & Hbuf & Hw & _ & Hname & Hfinal & _).
  - done.
  - done.
  - done.
  - by rewrite Hcap.
  - by rewrite Hcap.
  - by rewrite Hcap.
  - rewrite Hcap. congruence.
  - rewrite Hcap. congruence.
  - by rewrite Hcap, Hnm'.
  - rewrite Hcap, Hnm' in Hwork, Hname, Hfinal. fold final in Hwork, Hfinal.
    eexists _, s'. split; [exact Hwork|]. repeat split; try done.
    by rewrite lookup_insert_eq.
Qed.


End ReassemblerFacts.

(** ** The packetizer *)

Section PacketizerFacts.
Context `{Platform}.
Import Packetizer.

Lemma len_zeros k : 0 <= k → len (zeros k) = k.
Proof. intros Hk. unfold len, zeros. rewrite repeat_length. lia. Qed.

Lemma len_upto_le {A} (k : Z) (l : list A) : 0 <= k → len (upto k l) <= k.
Proof. intros Hk. unfold len, upto. rewrite length_firstn. lia. Qed.

Lemma pack_ok width v bs : pack width v = Ok bs → 0 <= v < 256 ^ Z.of_nat width ∧ bs = le_bytes width v.
Proof.
  unfold pack. destruct (0 <=? v) eqn:E1; [|done]. destruct (v <? _) eqn:E2; [|done].
  simpl. intros [= <-]. split; [lia|done].
Qed.

Lemma length_le_bytes n z : length (le_bytes n z) = n.
Proof. revert z; induction n as [|n IH]; intros z; simpl; [done|]. by rewrite IH. Qed.

(** What [_build_meta] returns when nothing raises: the 16 fixed bytes, the
    name, then the padding, cut or filled to [meta_len] bytes. *)
Lemma build_meta_ok src fp ml m :
  _build_meta src fp ml = Ok m →
  0 <= ml < 65536
  ∧ 0 <= _get_size src < 256 ^ 8
  ∧ let name_b := upto 255 (encode_ignore (basename fp)) in
    let header := MAGIC ++ le_bytes 1 1 ++ le_bytes 2 ml ++ le_bytes 1 (len name_b)
                  ++ le_bytes 8 (_get_size src) ++ name_b in
    m = if len header <? ml then header ++ zeros (ml - len header) else upto ml header.
Proof.
  unfold _build_meta, pack_B, pack_H, pack_Q.
  destruct (pack 1 1) as [v|] eqn:E1; [|done]. apply pack_ok in E1 as [_ ->].
  destruct (pack 2 ml) as [w|] eqn:E2; [|done]. apply pack_ok in E2 as [Hml ->].
  destruct (pack 1 (len _)) as [x|] eqn:E3; [|done]. apply pack_ok in E3 as [_ ->].
  destruct (pack 8 _) as [y|] eqn:E4; [|done]. apply pack_ok in E4 as [Hsz ->].
  cbn [mbind Result_bind bind]. intros [= <-].
  split; [exact Hml|]. split; [exact Hsz|].
  cbv zeta. rewrite <- !app_assoc. done.
Qed.

Lemma build_meta_len src fp ml m : _build_meta src fp ml = Ok m → len m = ml.
Proof.
  intros Hm. apply build_meta_ok in Hm as (Hml & _ & ->). cbv zeta.
  match goal with |- context [len ?h <? ml] => set (header := h) end.
  pose proof (len_nonneg header).
  destruct (len header <? ml) eqn:E.
  - rewrite len_app, len_zeros by lia. lia.
  - apply len_upto. lia.
Qed.

Lemma same_setup_refl s : same_setup s s.
Proof. by repeat split. Qed.

Lemma same_setup_trans s1 s2 s3 : same_setup s1 s2 → same_setup s2 s3 → same_setup s1 s3.
Proof. unfold same_setup. intros (?&?&?&?&?&?&?) (?&?&?&?&?&?&?). repeat split; congruence. Qed.

(** The [else] branch between two requests: never an error, a packet of
    [meta_len] bytes. *)
Lemma file_packet_ok src s :
  at_rest src s →
  ∃ out s',
    file_packet src s = Ok (out, s')
    ∧ len out = meta_len s
    ∧ same_setup s s'.
Proof.
  intros (Hml & Hbuild & Hkey & Hnw).
  unfold file_packet. cbv zeta.
  set (r := match _fh s with
            | Some rest => if _file_bytes_left s >? 0 then _ else ([], s)
            | None => ([], s)
            end).
  assert (Hr : len r.1 <= meta_len s ∧ same_setup s r.2).
  { subst r. destruct (_fh s) as [rest|]; [|split; [unfold len; simpl; lia|apply same_setup_refl]].
    destruct (_file_bytes_left s >? 0) eqn:E; [|split; [unfold len; simpl; lia|apply same_setup_refl]].
    cbn [fst snd]. split; [|by repeat split].
    pose proof (len_upto_le (Z.min (meta_len s) (_file_bytes_left s)) rest ltac:(lia)). lia. }
  destruct r as [b s1]. cbn [fst snd] in Hr. destruct Hr as [Hb Hs1].
  pose proof Hs1 as (Hfp1 & Hml1 & Hrep1 & Hk1 & Hm1 & Htk1 & Hnw1).
  set (padded := if len b <? meta_len s then b ++ zeros (meta_len s - len b) else b).
  assert (Hpad : len padded = meta_len s).
  { subst padded. destruct (len b <? meta_len s) eqn:E; [|lia].
    rewrite len_app, len_zeros by lia. lia. }
  destruct (_file_bytes_left s1 <=? 0) eqn:Eleft.
  - destruct (repeat s1) eqn:Erep.
    + rewrite Hfp1, Hml1, Hbuild. cbn [mbind Result_bind bind].
      exists padded, (set__phase Meta (set__meta (_meta s) s1)).
      split; [done|]. split; [exact Hpad|].
      unfold same_setup. cbn. repeat split; congruence.
    + cbn [mbind Result_bind bind].
      exists padded, (set__phase Zeros s1).
      split; [done|]. split; [exact Hpad|].
      unfold same_setup. cbn. repeat split; congruence.
  - cbn [mbind Result_bind bind].
    exists padded, s1. split; [done|]. split; [exact Hpad|done].
Qed.

(** One packet: it is never an error between two requests, the packet is
    [meta_len] bytes long, the tag is at the packet's offset. *)
Lemma packet_spec src s start :
  at_rest src s →
  ∃ out s',
    packet src s start =
      Ok (out, {| offset := nitems_written s + start; key := _tag_key s; value := meta_len s |}, s')
    ∧ len out = meta_len s
    ∧ same_setup s s'.
Proof.
  intros Hrest. pose proof Hrest as (Hml & Hbuild & Hkey & Hnw).
  pose proof (build_meta_len _ _ _ _ Hbuild) as Hlen.
  assert (Hfile : ∃ out s',
    (s1 ← file_packet src s;
     let '(out, s0) := s1 in
     Ok (match _phase s0 with Zeros => zeros (meta_len s) | _ => out end,
         {| offset := nitems_written s + start; key := _tag_key s; value := meta_len s |}, s0))
    = Ok (out, {| offset := nitems_written s + start; key := _tag_key s; value := meta_len s |}, s')
    ∧ len out = meta_len s ∧ same_setup s s').
  { destruct (file_packet_ok src s Hrest) as (out & s' & -> & Hout & Hs').
    cbn [mbind Result_bind bind].
    eexists _, _. split; [reflexivity|]. split; [|done].
    destruct (_phase s'); [done|done|]. apply len_zeros. lia. }
  unfold packet. cbv zeta. destruct (_phase s) eqn:Hph; [|exact Hfile|exact Hfile].
  cbn [mbind Result_bind bind _phase set__phase].
  eexists _, _. split; [reflexivity|]. split; [done|]. by repeat split.
Qed.

Lemma at_rest_same_setup src s s' : at_rest src s → same_setup s s' → at_rest src s'.
Proof.
  intros (Hml & Hbuild & Hkey & Hnw) (Hfp & Hml' & _ & Hk & Hm & Htk & Hnw').
  unfold at_rest. rewrite Hfp, Hml', Hm, Htk, Hk, Hnw'. done.
Qed.

Lemma packets_spec src n s start :
  at_rest src s →
  ∃ out s',
    packets n src s start =
      Ok (out, packet_tags (_tag_key s) (meta_len s) (nitems_written s + start) n,
          start + Z.of_nat n * meta_len s, s')
    ∧ len out = Z.of_nat n * meta_len s
    ∧ same_setup s s'.
Proof.
  revert s start; induction n as [|n IH]; intros s start Hrest.
  - exists [], s. cbn [packets packet_tags].
    replace (start + Z.of_nat 0 * meta_len s) with start by lia. split; [done|].
    split; [done|apply same_setup_refl].
  - cbn [packets packet_tags].
    destruct (packet_spec src s start Hrest) as (out & s1 & -> & Hout & Hs1).
    cbn [mbind Result_bind bind].
    pose proof Hs1 as (_ & Hml1 & _ & _ & _ & Htk1 & Hnw1).
    destruct (IH s1 (start + meta_len s1) (at_rest_same_setup _ _ _ Hrest Hs1))
      as (outs & s2 & -> & Houts & Hs2).
    cbn [mbind Result_bind bind].
    exists (out ++ outs), s2. rewrite Htk1, Hml1, Hnw1. split.
    + replace (nitems_written s + (start + meta_len s))
        with (nitems_written s + start + meta_len s) by lia.
      replace (start + meta_len s + Z.of_nat n * meta_len s)
        with (start + Z.of_nat (S n) * meta_len s) by lia.
      done.
    + split; [rewrite len_app; lia|]. by eapply same_setup_trans.
Qed.

Lemma packet_tags_length k pkt from n : length (packet_tags k pkt from n) = n.
Proof. revert from; induction n as [|n IH]; intros from; simpl; [done|]. by rewrite IH. Qed.

Lemma packet_tags_Forall k pkt from n :
  0 < pkt → from mod pkt = 0 →
  Forall (λ t, value t = pkt ∧ key t = k ∧ offset t mod pkt = 0 ∧ from <= offset t)
    (packet_tags k pkt from n).
Proof.
  intros Hpkt. revert from; induction n as [|n IH]; intros from Hfrom; simpl.
  - constructor.
  - constructor; [simpl; repeat split; (done || lia)|].
    eapply Forall_impl; [apply IH|].
    + rewrite <- Zplus_mod_idemp_l, Hfrom. simpl. rewrite Z_mod_same_full. done.
    + intros t (? & ? & ? & ?). repeat split; (done || lia).
Qed.

Lemma packet_tags_lookup k pkt from n (i : nat) :
  (i < n)%nat →
  packet_tags k pkt from n !! i
  = Some {| offset := from + Z.of_nat i * pkt; key := k; value := pkt |}.
Proof.
  revert from i; induction n as [|n IH]; intros from i Hi; [lia|].
  destruct i as [|i]; simpl.
  - f_equal. f_equal. lia.
  - rewrite IH by lia. f_equal. f_equal. lia.
Qed.

Lemma upto_all {A} (l : list A) : upto (len l) l = l.
Proof. unfold upto, len. rewrite Nat2Z.id. apply firstn_all. Qed.

(** A request between two requests: never an error; whole packets only. *)
Lemma general_work_spec src s n :
  at_rest src s → 0 <= n →
  ∃ out s',
    general_work src s n =
      Ok (out,
          packet_tags (_tag_key s) (meta_len s) (nitems_written s) (Z.to_nat (n / meta_len s)),
          s')
    ∧ len out = meta_len s * (n / meta_len s)
    ∧ at_rest src s'
    ∧ meta_len s' = meta_len s
    ∧ _tag_key s' = _tag_key s
    ∧ nitems_written s' = nitems_written s + len out.
Proof.
  intros Hrest Hn. pose proof Hrest as (Hml & Hbuild & Hkey & Hnw).
  assert (0 <= n / meta_len s) as Hq by (apply Z.div_pos; lia).
  unfold general_work. cbv zeta. destruct (n / meta_len s <=? 0) eqn:E.
  - assert (n / meta_len s = 0) as -> by lia.
    exists [], (produce 0 s). cbn [Z.to_nat packet_tags]. split; [done|].
    split; [unfold len; simpl; lia|]. split.
    + unfold at_rest. cbn. rewrite Z.add_0_r. done.
    + cbn. unfold len. simpl. repeat split; lia.
  - destruct (packets_spec src (Z.to_nat (n / meta_len s)) s 0 Hrest)
      as (out & s1 & Hp & Hout & Hs1).
    rewrite Z.add_0_r in Hp. rewrite Hp. cbn [mbind Result_bind bind].
    rewrite Z2Nat.id in Hout |- * by done.
    rewrite Z.add_0_l, <- Hout, upto_all.
    exists out, (produce (len out) s1). split; [done|].
    split; [lia|].
    pose proof Hs1 as (Hfp1 & Hml1 & _ & Hk1 & Hm1 & Htk1 & Hnw1).
    split.
    + unfold at_rest. cbn. rewrite Hfp1, Hml1, Hm1, Htk1, Hk1, Hnw1.
      repeat split; try done.
      rewrite Hout, <- Zplus_mod_idemp_l, Hnw. simpl. apply Z_mod_mult.
    + cbn. rewrite Hml1, Htk1, Hnw1. done.
Qed.

Lemma packetizer_init_at_rest src fp ml rep k s : __init__ src fp ml rep k = Ok s → at_rest src s.
Proof.
  unfold __init__. destruct (ml <? 16) eqn:E; [done|].
  destruct (_build_meta src fp ml) as [m|] eqn:Hm; [|done].
  cbn [mbind Result_bind bind]. intros [= <-].
  unfold at_rest. cbn. repeat split; (done || lia).
Qed.

Lemma packetizer_reachable_at_rest src s : reachable src s → at_rest src s.
Proof.
  induction 1 as [fp ml rep k s Hinit|s n out ts s' _ IH Hn Hwork].
  - by eapply packetizer_init_at_rest.
  - destruct (general_work_spec src s n IH Hn) as (out' & s'' & Heq & _ & Hrest & _).
    rewrite Heq in Hwork. by inversion Hwork; subst.
Qed.


(** *** A source that cannot be opened *)

Lemma file_packet_closed src s :
  _fh s = None →
  file_packet src s =
    s' ← (if _file_bytes_left s <=? 0 then
            if repeat s then
              m ← _build_meta src (filepath s) (meta_len s);
              Ok (set__phase Meta (set__meta m s))
            else Ok (set__phase Zeros s)
          else Ok s);
    Ok ((if len (@nil byte) <? meta_len s then [] ++ zeros (meta_len s - len (@nil byte)) else []), s').
Proof. intros Hfh. unfold file_packet. rewrite Hfh. done. Qed.

Lemma packet_keeps_closed src s start out t s' :
  content src = None → _fh s = None →
  packet src s start = Ok (out, t, s') → _fh s' = None.
Proof.
  intros Hc Hfh. unfold packet. cbv zeta.
  assert (Hfile : ∀ r, file_packet src s = Ok r → _fh r.2 = None).
  { rewrite file_packet_closed by done. intros [o r].
    destruct (_file_bytes_left s <=? 0).
    - destruct (repeat s).
      + destruct (_build_meta _ _ _); [|done]. cbn [mbind Result_bind bind].
        by intros [= _ <-].
      + cbn [mbind Result_bind bind]. by intros [= _ <-].
    - cbn [mbind Result_bind bind]. by intros [= _ <-]. }
  destruct (_phase s).
  - cbn [mbind Result_bind bind]. intros [= _ _ <-]. cbn. done.
  - destruct (file_packet src s) as [[o r]|]; [|done]. cbn [mbind Result_bind bind].
    intros [= _ _ <-]. by apply (Hfile (o, r)).
  - destruct (file_packet src s) as [[o r]|]; [|done]. cbn [mbind Result_bind bind].
    intros [= _ _ <-]. by apply (Hfile (o, r)).
Qed.

Lemma packets_keep_closed src n s start out ts produced s' :
  content src = None → _fh s = None →
  packets n src s start = Ok (out, ts, produced, s') → _fh s' = None.
Proof.
  intros Hc. revert s start out ts produced.
  induction n as [|n IH]; intros s start out ts produced Hfh; cbn [packets].
  - by intros [= _ _ _ <-].
  - destruct (packet src s start) as [[[o t] s1]|] eqn:Hp; [|done].
    cbn [mbind Result_bind bind].
    destruct (packets n src s1 _) as [[[[os ts'] pr] s2]|] eqn:Hps; [|done].
    cbn [mbind Result_bind bind]. intros [= _ _ _ <-].
    eapply IH; [|exact Hps]. by eapply packet_keeps_closed.
Qed.

Lemma reachable_closed src s : content src = None → reachable src s → _fh s = None.
Proof.
  intros Hc. induction 1 as [fp ml rep k s Hinit|s n out ts s' _ IH Hn Hwork].
  - unfold __init__ in Hinit. destruct (ml <? 16); [done|].
    destruct (_build_meta src fp ml); [|done]. cbn [mbind Result_bind bind] in Hinit.
    injection Hinit as <-. cbn. done.
  - unfold general_work in Hwork. cbv zeta in Hwork.
    destruct (n / meta_len s <=? 0).
    + injection Hwork as _ _ <-. done.
    + destruct (packets _ src s 0) as [[[[o t] pr] s1]|] eqn:Hps; [|done].
      cbn [mbind Result_bind bind] in Hwork. injection Hwork as _ _ <-.
      cbn. by eapply packets_keep_closed.
Qed.

(** With no open file a packet sent outside the meta phase is all zero. *)
Lemma packet_closed_zeros src s start :
  at_rest src s → _fh s = None → _phase s ≠ Meta →
  ∃ s', packet src s start =
          Ok (zeros (meta_len s),
              {| offset := nitems_written s + start; key := _tag_key s; value := meta_len s |}, s').
Proof.
  intros (Hml & Hbuild & _) Hfh Hph.
  assert (Hfile : ∃ s1, file_packet src s = Ok (zeros (meta_len s), s1)).
  { rewrite file_packet_closed by done.
    assert ((len (@nil byte) <? meta_len s) = true) as ->
      by (apply Z.ltb_lt; unfold len; simpl; lia).
    replace (meta_len s - len (@nil byte)) with (meta_len s) by (unfold len; simpl; lia).
    cbn [app].
    destruct (_file_bytes_left s <=? 0).
    - destruct (repeat s).
      + rewrite Hbuild. cbn [mbind Result_bind bind]. by eexists.
      + cbn [mbind Result_bind bind]. by eexists.
    - cbn [mbind Result_bind bind]. by eexists. }
  destruct Hfile as (s1 & Hfile).
  unfold packet. cbv zeta. destruct (_phase s); [done| |];
    rewrite Hfile; cbn [mbind Result_bind bind]; exists s1; by destruct (_phase s1).
Qed.

(** *** A source of size zero that cannot be opened, and the empty file *)

Lemma build_meta_size_zero src fp ml :
  _get_size src = 0 → _build_meta src fp ml = _build_meta empty_file fp ml.
Proof. intros Hsz. unfold _build_meta. rewrite Hsz. done. Qed.

Lemma packet_like_empty src s start :
  _get_size src = 0 → content src = None →
  _fh s = None → _file_bytes_left s = 0 →
  match packet src s start with
  | Ok (out, t, s') =>
      packet empty_file (with_empty_open s) start = Ok (out, t, with_empty_open s')
      ∧ _fh s' = None ∧ _file_bytes_left s' = 0
  | Raise e => packet empty_file (with_empty_open s) start = Raise e
  end.
Proof.
  intros Hsz Hc Hfh Hleft.
  assert (Hfile :
    match file_packet src s with
    | Ok (out, s') =>
        file_packet empty_file (with_empty_open s) = Ok (out, with_empty_open s')
        ∧ _fh s' = None ∧ _file_bytes_left s' = 0
    | Raise e => file_packet empty_file (with_empty_open s) = Raise e
    end).
  { destruct s as [fp ml rep ltk m fh ph left tk nw]. cbn in Hfh, Hleft. subst fh left.
    unfold file_packet, with_empty_open. cbn.
    rewrite <- (build_meta_size_zero src) by done.
    destruct rep; [|done].
    destruct (_build_meta src fp ml); cbn; done. }
  unfold packet. cbv zeta. destruct (_phase s) eqn:Hph.
  - unfold with_empty_open. cbn [_phase set__fh]. rewrite Hph.
    cbn [mbind Result_bind bind _phase set__phase].
    unfold _open_file. rewrite Hc, Hsz. cbn. done.
  - replace (_phase (with_empty_open s)) with File by (by rewrite <- Hph).
    destruct (file_packet src s) as [[o s1]|e]; [destruct Hfile as (-> & ? & ?)|rewrite Hfile];
      cbn [mbind Result_bind bind]; [|done].
    unfold with_empty_open. cbn [_phase set__fh meta_len nitems_written _tag_key]. done.
  - replace (_phase (with_empty_open s)) with Zeros by (by rewrite <- Hph).
    destruct (file_packet src s) as [[o s1]|e]; [destruct Hfile as (-> & ? & ?)|rewrite Hfile];
      cbn [mbind Result_bind bind]; [|done].
    unfold with_empty_open. cbn [_phase set__fh meta_len nitems_written _tag_key]. done.
Qed.

Lemma packets_like_empty src n s start :
  _get_size src = 0 → content src = None →
  _fh s = None → _file_bytes_left s = 0 →
  match packets n src s start with
  | Ok (out, ts, pr, s') =>
      packets n empty_file (with_empty_open s) start = Ok (out, ts, pr, with_empty_open s')
      ∧ _fh s' = None ∧ _file_bytes_left s' = 0
  | Raise e => packets n empty_file (with_empty_open s) start = Raise e
  end.
Proof.
  intros Hsz Hc. revert s start; induction n as [|n IH]; intros s start Hfh Hleft.
  - cbn [packets]. done.
  - cbn [packets].
    pose proof (packet_like_empty src s start Hsz Hc Hfh Hleft) as Hp.
    destruct (packet src s start) as [[[o t] s1]|e]; [|by rewrite Hp].
    destruct Hp as (-> & Hfh1 & Hleft1). cbn [mbind Result_bind bind].
    replace (meta_len (with_empty_open s1)) with (meta_len s1) by done.
    pose proof (IH s1 (start + meta_len s1) Hfh1 Hleft1) as Hps.
    destruct (packets n src s1 _) as [[[[os ts] pr] s2]|e]; [|by rewrite Hps].
    destruct Hps as (-> & ? & ?). done.
Qed.

Lemma general_work_like_empty src s n :
  _get_size src = 0 → content src = None →
  _fh s = None → _file_bytes_left s = 0 →
  match general_work src s n with
  | Ok (out, ts, s') =>
      general_work empty_file (with_empty_open s) n = Ok (out, ts, with_empty_open s')
      ∧ _fh s' = None ∧ _file_bytes_left s' = 0
  | Raise e => general_work empty_file (with_empty_open s) n = Raise e
  end.
Proof.
  intros Hsz Hc Hfh Hleft. unfold general_work. cbv zeta.
  replace (meta_len (with_empty_open s)) with (meta_len s) by done.
  destruct (n / meta_len s <=? 0); [done|].
  pose proof (packets_like_empty src (Z.to_nat (n / meta_len s)) s 0 Hsz Hc Hfh Hleft) as Hps.
  destruct (packets _ src s 0) as [[[[os ts] pr] s2]|e]; [|by rewrite Hps].
  destruct Hps as (-> & ? & ?). done.
Qed.

Lemma run_like_empty src s reqs :
  _get_size src = 0 → content src = None →
  _fh s = None → _file_bytes_left s = 0 →
  match run src s reqs with
  | Ok (out, ts, s') =>
      run empty_file (with_empty_open s) reqs = Ok (out, ts, with_empty_open s')
  | Raise e => run empty_file (with_empty_open s) reqs = Raise e
  end.
Proof.
  intros Hsz Hc. revert s; induction reqs as [|n reqs IH]; intros s Hfh Hleft.
  - done.
  - cbn [run].
    pose proof (general_work_like_empty src s n Hsz Hc Hfh Hleft) as Hw.
    destruct (general_work src s n) as [[[o t] s1]|e]; [|by rewrite Hw].
    destruct Hw as (-> & Hfh1 & Hleft1). cbn [mbind Result_bind bind].
    pose proof (IH s1 Hfh1 Hleft1) as Hr.
    destruct (run src s1 reqs) as [[[os ts] s2]|e]; [|by rewrite Hr].
    rewrite Hr. done.
Qed.

Lemma session_like_empty src fp ml rep k reqs :
  _get_size src = 0 → content src = None →
  session src fp ml rep k reqs = session empty_file fp ml rep k reqs.
Proof.
  intros Hsz Hc. unfold session, __init__.
  destruct (ml <? 16); [done|].
  rewrite <- (build_meta_size_zero src) by done.
  destruct (_build_meta src fp ml) as [m|e]; [|done].
  cbn [mbind Result_bind bind]. unfold _open_file. rewrite Hc, Hsz.
  match goal with
  | |- context [run src ?s reqs] =>
      pose proof (run_like_empty src s reqs Hsz Hc eq_refl eq_refl) as Hr;
      destruct (run src s reqs) as [[[os ts] s2]|e]
  end.
  - change (run empty_file _ reqs) with (run empty_file (with_empty_open
      (set__file_bytes_left 0 (set__phase Meta (set__fh None
        {| filepath := fp; meta_len := ml; repeat := rep; len_tag_key := k;
           _meta := m; _fh := None; _phase := Meta; _file_bytes_left := 0;
           _tag_key := k; nitems_written := 0 |})))) reqs).
    rewrite Hr. done.
  - change (run empty_file _ reqs) with (run empty_file (with_empty_open
      (set__file_bytes_left 0 (set__phase Meta (set__fh None
        {| filepath := fp; meta_len := ml; repeat := rep; len_tag_key := k;
           _meta := m; _fh := None; _phase := Meta; _file_bytes_left := 0;
           _tag_key := k; nitems_written := 0 |})))) reqs).
    rewrite Hr. done.
Qed.

(** X20.  When the source cannot be opened, no request
    in a session raises, and every packet sent outside the meta phase is
    all zero.  When its size reads as zero too (the query fails, or reports
    0), the session shows what a session on an empty file shows: the same
    items, the same tags, the same phase at the end, request by request. *)
Theorem open_failure_is_not_fatal src :
  content src = None →
  (∀ s n, reachable src s → 0 <= n →
     ∃ out ts s', general_work src s n = Ok (out, ts, s'))
  ∧ (∀ s start, reachable src s → _phase s ≠ Meta →
       ∃ t s', packet src s start = Ok (zeros (meta_len s), t, s'))
  ∧ (_get_size src = 0 →
       ∀ fp ml rep k reqs,
         session src fp ml rep k reqs = session empty_file fp ml rep k reqs).
Proof.
  intros Hc. split; [|split].
  - intros s n Hreach Hn. apply packetizer_reachable_at_rest in Hreach.
    destruct (general_work_spec src s n Hreach Hn) as (out & s' & Heq & _).
    by eexists _, _, _.
  - intros s start Hreach Hph. pose proof (reachable_closed src s Hc Hreach) as Hfh.
    apply packetizer_reachable_at_rest in Hreach.
    destruct (packet_closed_zeros src s start Hreach Hfh Hph) as (s' & Heq).
    by eexists _, _.
  - intros Hsz fp ml rep k reqs. by apply session_like_empty.
Qed.

(** *** The stream of a session on a readable file *)

Lemma upto_del_prefix {A} (k : Z) (l : list A) : upto k l ++ del_prefix k l = l.
Proof. unfold upto, del_prefix. apply firstn_skipn. Qed.

Lemma len_del_prefix_eq {A} (k : Z) (l : list A) :
  0 <= k <= len l → len (del_prefix k l) = len l - k.
Proof. intros Hk. unfold len, del_prefix in *. rewrite length_skipn. lia. Qed.

Lemma upto_add_app {A} (l k : list A) (n : Z) :
  0 <= n → upto (len l + n) (l ++ k) = l ++ upto n k.
Proof.
  intros Hn. unfold upto, len.
  replace (Z.to_nat (Z.of_nat (length l) + n)) with (length l + Z.to_nat n)%nat by lia.
  apply take_app_add.
Qed.

Lemma del_prefix_add_app {A} (l k : list A) (n : Z) :
  0 <= n → del_prefix (len l + n) (l ++ k) = del_prefix n k.
Proof.
  intros Hn. unfold del_prefix, len.
  replace (Z.to_nat (Z.of_nat (length l) + n)) with (length l + Z.to_nat n)%nat by lia.
  apply drop_app_add.
Qed.

Lemma upto_ge {A} (k : Z) (l : list A) : len l <= k → upto k l = l.
Proof. intros Hk. unfold upto, len in *. apply firstn_all2. lia. Qed.

Lemma progress_app src e o1 s1 o2 s2 :
  progress src e o1 s1 →
  (∀ e1, expecting src s1 e1 → progress src e1 o2 s2) →
  progress src e (o1 ++ o2) s2.
Proof.
  intros [(Hlt & Ho1 & Hexp)|(Hle & t & ->)] Hnext.
  - pose proof (len_nonneg o1) as Hn1. pose proof (len_nonneg o2) as Hn2.
    set (e1 := del_prefix (len o1) e) in *.
    assert (He : e = o1 ++ e1).
    { rewrite Ho1 at 1. subst e1. by rewrite upto_del_prefix. }
    assert (Hlen1 : len e1 = len e - len o1).
    { subst e1. apply len_del_prefix_eq. lia. }
    destruct (Hnext e1 Hexp) as [(Hlt2 & Ho2 & Hexp2)|(Hle2 & t & ->)].
    + left. rewrite len_app. split; [lia|]. split.
      * rewrite He at 1. rewrite upto_add_app by lia. by rewrite <- Ho2.
      * rewrite He at 1. by rewrite del_prefix_add_app.
    + right. rewrite !len_app in *. split; [lia|]. exists t. rewrite He at 1.
      by rewrite <- app_assoc.
  - right. rewrite !len_app. pose proof (len_nonneg o2). pose proof (len_nonneg t). split; [lia|].
    exists (t ++ o2). by rewrite <- app_assoc.
Qed.

Lemma file_packet_last src s e :
  at_rest src s → repeat s = true →
  _fh s = Some e → _file_bytes_left s = len e → 0 < len e <= meta_len s →
  ∃ s', file_packet src s = Ok (e ++ zeros (meta_len s - len e), s')
        ∧ _phase s' = Meta ∧ same_setup s s'.
Proof.
  intros (Hml & Hbuild & _) Hrep Hfh Hleft He.
  destruct s as [fp ml rep ltk m fh ph left tk nw].
  cbn in Hml, Hbuild, Hrep, Hfh, Hleft, He. subst fh left rep.
  unfold file_packet. cbn.
  assert ((len e >? 0) = true) as -> by lia.
  rewrite Z.min_r by lia. rewrite upto_all. cbn.
  replace (len e - len e <=? 0) with true by lia. cbn.
  rewrite Hbuild. cbn.
  assert ((if len e <? ml then e ++ zeros (ml - len e) else e) = e ++ zeros (ml - len e)) as ->.
  { destruct (len e <? ml) eqn:E; [done|].
    replace (ml - len e) with 0 by lia. cbn. by rewrite app_nil_r. }
  eexists. split; [reflexivity|]. split; [reflexivity|by repeat split].
Qed.

Lemma file_packet_more src s e :
  at_rest src s →
  _fh s = Some e → _file_bytes_left s = len e → meta_len s < len e →
  ∃ s', file_packet src s = Ok (upto (meta_len s) e, s')
        ∧ _phase s' = _phase s
        ∧ _fh s' = Some (del_prefix (meta_len s) e)
        ∧ _file_bytes_left s' = len e - meta_len s
        ∧ same_setup s s'.
Proof.
  intros (Hml & Hbuild & _) Hfh Hleft He.
  destruct s as [fp ml rep ltk m fh ph left tk nw].
  cbn in Hml, Hbuild, Hfh, Hleft, He. subst fh left.
  unfold file_packet. cbn.
  assert ((len e >? 0) = true) as -> by lia.
  rewrite Z.min_l by lia. rewrite len_upto by lia. cbn.
  replace (ml <? ml) with false by lia. cbn.
  replace (len e - ml <=? 0) with false by lia. cbn.
  eexists. split; [reflexivity|]. cbn. by repeat split.
Qed.

Lemma packet_expecting src s start e :
  at_rest src s → repeat s = true → expecting src s e →
  ∃ out t s',
    packet src s start = Ok (out, t, s')
    ∧ same_setup s s' ∧ len out = meta_len s ∧ progress src e out s'.
Proof.
  intros Hrest Hrep Hexp. pose proof Hrest as (Hml & Hbuild & _).
  pose proof (build_meta_len _ _ _ _ Hbuild) as Hlen.
  unfold expecting in Hexp. unfold packet. cbv zeta.
  destruct (_phase s) eqn:Hph; [| |done].
  - destruct Hexp as (data & Hc & Hsz & Hpos & ->).
    cbn [mbind Result_bind bind _phase set__phase].
    eexists _, _, _. split; [reflexivity|]. split; [by repeat split|]. split; [done|].
    left. rewrite len_app. split; [lia|]. rewrite upto_app, del_prefix_app.
    split; [done|]. unfold expecting, _open_file, _get_size. cbn. rewrite Hc, Hsz. done.
  - destruct Hexp as (Hfh & Hleft & Hpos).
    destruct (Z.le_gt_cases (len e) (meta_len s)) as [Hle|Hgt].
    + destruct (file_packet_last src s e Hrest Hrep Hfh Hleft ltac:(lia))
        as (s' & -> & Hph' & Hs').
      cbn [mbind Result_bind bind]. rewrite Hph'.
      eexists _, _, s'. split; [reflexivity|]. split; [done|].
      unfold progress. rewrite !len_app, !len_zeros by lia. split; [lia|].
      right. split; [lia|]. by eexists.
    + destruct (file_packet_more src s e Hrest Hfh Hleft ltac:(lia))
        as (s' & -> & Hph' & Hfh' & Hleft' & Hs').
      cbn [mbind Result_bind bind]. rewrite Hph', Hph.
      eexists _, _, s'. split; [reflexivity|]. split; [done|].
      unfold progress. rewrite !len_upto by lia. split; [done|].
      left. split; [lia|]. split; [done|].
      unfold expecting. rewrite Hph', Hph, Hfh', Hleft'.
      rewrite len_del_prefix_eq by lia. repeat split; (done || lia).
Qed.

Lemma expecting_nonempty src s e : expecting src s e → 0 < len e.
Proof.
  unfold expecting. destruct (_phase s); [| |done].
  - intros (data & _ & _ & Hpos & ->). rewrite len_app. pose proof (len_nonneg (_meta s)). lia.
  - intros (_ & _ & Hpos). done.
Qed.

Lemma progress_nothing src s e : expecting src s e → progress src e [] s.
Proof.
  intros Hexp. left. split; [by apply expecting_nonempty in Hexp|]. done.
Qed.

Lemma packets_expecting src n s start e out ts pr s' :
  at_rest src s → repeat s = true → expecting src s e →
  packets n src s start = Ok (out, ts, pr, s') →
  progress src e out s'.
Proof.
  revert s start e out ts pr s'.
  induction n as [|n IH]; intros s start e out ts pr s' Hrest Hrep Hexp; cbn [packets].
  - intros [= <- _ _ <-]. by apply progress_nothing.
  - destruct (packet_expecting src s start e Hrest Hrep Hexp)
      as (o & t & s1 & -> & Hs1 & _ & Hprog).
    cbn [mbind Result_bind bind].
    destruct (packets n src s1 _) as [[[[os ts'] pr'] s2]|] eqn:Hps; [|done].
    cbn [mbind Result_bind bind]. intros [= <- _ _ <-].
    eapply progress_app; [exact Hprog|]. intros e1 Hexp1.
    eapply IH; [| |exact Hexp1|exact Hps].
    + by eapply at_rest_same_setup.
    + destruct Hs1 as (_ & _ & -> & _). done.
Qed.

Lemma expecting_produce src k s e : expecting src (produce k s) e ↔ expecting src s e.
Proof. done. Qed.

Lemma general_work_expecting src s n e out ts s' :
  at_rest src s → repeat s = true → expecting src s e →
  general_work src s n = Ok (out, ts, s') →
  progress src e out s'.
Proof.
  intros Hrest Hrep Hexp. unfold general_work. cbv zeta.
  destruct (n / meta_len s <=? 0).
  - intros [= <- _ <-]. by apply progress_nothing.
  - destruct (packets_spec src (Z.to_nat (n / meta_len s)) s 0 Hrest)
      as (o & s1 & Hp & Hout & _).
    pose proof (packets_expecting _ _ _ _ _ _ _ _ _ Hrest Hrep Hexp Hp) as Hprog.
    rewrite Hp. cbn [mbind Result_bind bind].
    rewrite Z.add_0_l, <- Hout, upto_all. intros [= <- _ <-].
    destruct Hprog as [(? & ? & ?)|?]; [left|by right]. done.
Qed.

Lemma general_work_keeps_repeat src s n out ts s' :
  general_work src s n = Ok (out, ts, s') → at_rest src s → 0 <= n →
  repeat s' = repeat s.
Proof.
  intros Hwork Hrest Hn. unfold general_work in Hwork. cbv zeta in Hwork.
  destruct (n / meta_len s <=? 0).
  - by injection Hwork as _ _ <-.
  - destruct (packets_spec src (Z.to_nat (n / meta_len s)) s 0 Hrest)
      as (o & s1 & Hp & _ & (_ & _ & Hr & _)).
    rewrite Hp in Hwork. cbn [mbind Result_bind bind] in Hwork.
    by injection Hwork as _ _ <-.
Qed.

Lemma run_expecting src reqs s e out ts s' :
  Forall (λ n, 0 <= n) reqs →
  at_rest src s → repeat s = true → expecting src s e →
  run src s reqs = Ok (out, ts, s') →
  progress src e out s'.
Proof.
  intros Hreqs. revert s e out ts s'.
  induction Hreqs as [|n reqs Hn _ IH]; intros s e out ts s' Hrest Hrep Hexp; cbn [run].
  - intros [= <- _ <-]. by apply progress_nothing.
  - destruct (general_work_spec src s n Hrest Hn) as (o & s1 & Hw & _ & Hrest1 & _).
    pose proof (general_work_expecting _ _ _ _ _ _ _ Hrest Hrep Hexp Hw) as Hprog.
    pose proof (general_work_keeps_repeat _ _ _ _ _ _ Hw Hrest Hn) as Hrep1.
    rewrite Hw. cbn [mbind Result_bind bind].
    destruct (run src s1 reqs) as [[[os ts'] s2]|] eqn:Hr; [|done].
    cbn [mbind Result_bind bind]. intros [= <- _ <-].
    eapply progress_app; [exact Hprog|]. intros e1 Hexp1.
    eapply IH; [done|congruence|exact Hexp1|exact Hr].
Qed.

Lemma run_ok src reqs s :
  Forall (λ n, 0 <= n) reqs → at_rest src s →
  ∃ out ts s', run src s reqs = Ok (out, ts, s').
Proof.
  intros Hreqs. revert s. induction Hreqs as [|n reqs Hn _ IH]; intros s Hrest; cbn [run].
  - by eexists _, _, _.
  - destruct (general_work_spec src s n Hrest Hn) as (o & s1 & -> & _ & Hrest1 & _).
    cbn [mbind Result_bind bind].
    destruct (IH s1 Hrest1) as (os & ts & s2 & ->). cbn [mbind Result_bind bind].
    by eexists _, _, _.
Qed.

(** The stream of a session on a readable file that is not empty starts
    with the header and goes on with the bytes of the file. *)
Lemma stream_starts_with_file src fp ml k data reqs s out ts s' :
  content src = Some data → getsize src = Some (len data) → 0 < len data →
  Forall (λ n, 0 <= n) reqs →
  __init__ src fp ml true k = Ok s →
  run src s reqs = Ok (out, ts, s') →
  ml + len data <= len out →
  ∃ t, out = _meta s ++ data ++ t.
Proof.
  intros Hc Hsz Hpos Hreqs Hinit Hrun Hlen.
  pose proof (packetizer_init_at_rest _ _ _ _ _ _ Hinit) as Hrest.
  pose proof Hrest as (_ & Hbuild & _). apply build_meta_len in Hbuild.
  assert (Hcfg : repeat s = true ∧ _phase s = Meta ∧ meta_len s = ml).
  { unfold __init__ in Hinit. destruct (ml <? 16); [done|].
    destruct (_build_meta src fp ml); [|done]. cbn [mbind Result_bind bind] in Hinit.
    injection Hinit as <-. done. }
  destruct Hcfg as (Hrep & Hph & Hml).
  assert (Hexp : expecting src s (_meta s ++ data)).
  { unfold expecting. rewrite Hph. by exists data. }
  destruct (run_expecting _ _ _ _ _ _ _ Hreqs Hrest Hrep Hexp Hrun) as [(Hlt & _)|(_ & t & ->)].
  - rewrite len_app in Hlt. lia.
  - exists t. by rewrite <- app_assoc.
Qed.

(** A request that has room for [k] packets, [0 < k], is answered by the
    [k] packets of the [for]. *)
Lemma general_work_packets src s n k out ts pr s1 :
  at_rest src s → n / meta_len s = Z.of_nat k → (0 < k)%nat →
  packets k src s 0 = Ok (out, ts, pr, s1) →
  general_work src s n = Ok (out, ts, produce (len out) s1).
Proof.
  intros Hrest Hk Hpos Hp.
  destruct (packets_spec src k s 0 Hrest) as (out' & s1' & Hp' & Hout & _).
  rewrite Hp in Hp'. injection Hp' as -> _ -> _.
  unfold general_work. cbv zeta. rewrite Hk.
  destruct (Z.of_nat k <=? 0) eqn:E; [lia|].
  rewrite Nat2Z.id, Hp. cbn [mbind Result_bind bind].
  rewrite Z.add_0_l, <- Hout, upto_all. done.
Qed.

End PacketizerFacts.

(** ** The wire format, from the packetizer to the reassembler *)

Section RoundTrip.
Context `{Platform} `{Disk}.
Import Reassembler.

Lemma byte_val_of_val z : byte_val (byte_of_val z) = z mod 256.
Proof.
  unfold byte_val, byte_of_val.
  assert (0 <= z mod 256 < 256) as Hr by (apply Z.mod_pos_bound; lia).
  destruct (Byte.of_N (Z.to_N (z mod 256))) as [b|] eqn:E.
  - apply Byte.to_of_N in E. rewrite E. lia.
  - apply Byte.of_N_None_iff in E. lia.
Qed.

Lemma byte_val_bound b : 0 <= byte_val b < 256.
Proof. unfold byte_val. pose proof (Byte.to_N_bounded b). lia. Qed.

Lemma le_int_le_bytes n z : le_int (le_bytes n z) = z mod 256 ^ Z.of_nat n.
Proof.
  revert z; induction n as [|n IH]; intros z.
  - simpl. by rewrite Z.mod_1_r.
  - cbn [le_bytes le_int]. rewrite IH, byte_val_of_val.
    rewrite Nat2Z.inj_succ, Z.pow_succ_r by lia.
    rewrite Z.rem_mul_r by lia. done.
Qed.

Lemma unpack_pack width v bs : pack width v = Ok bs → unpack bs = v.
Proof.
  intros Hp. apply pack_ok in Hp as [Hv ->]. unfold unpack.
  rewrite le_int_le_bytes. apply Z.mod_small. done.
Qed.

(** The fields the reassembler reads from a buffer that starts with the 16
    fixed bytes the packetizer writes. *)
Lemma fixed_header_fields ml nl fsize tail :
  0 <= ml < 65536 → 0 <= nl < 256 → 0 <= fsize < 256 ^ 8 →
  let b := MAGIC ++ le_bytes 1 1 ++ le_bytes 2 ml ++ le_bytes 1 nl
           ++ le_bytes 8 fsize ++ tail in
  hdr_magic b 0 = MAGIC
  ∧ hdr_version b 0 = 1
  ∧ hdr_meta_len b 0 = ml
  ∧ hdr_name_len b 0 = nl
  ∧ hdr_file_size b 0 = fsize
  ∧ len b = 16 + len tail
  ∧ ∀ k, slice b 16 (16 + k) = upto k tail.
Proof.
  intros Hml Hnl Hfs b.
  assert (Hb : b = MAGIC ++ le_bytes 1 1 ++ le_bytes 2 ml ++ le_bytes 1 nl
                 ++ le_bytes 8 fsize ++ tail) by done.
  clearbody b. unfold MAGIC in Hb. cbn [le_bytes app] in Hb.
  split; [by subst b|].
  split; [subst b; unfold hdr_version, item;
          change (byte_val (byte_of_val 1) = 1); by rewrite byte_val_of_val|].
  split.
  { subst b. unfold hdr_meta_len, slice, unpack.
    change (le_int (le_bytes 2 ml) = ml). rewrite le_int_le_bytes. apply Z.mod_small. lia. }
  split.
  { subst b. unfold hdr_name_len, item.
    change (byte_val (byte_of_val nl) = nl). rewrite byte_val_of_val. apply Z.mod_small. lia. }
  split.
  { subst b. unfold hdr_file_size, slice, unpack.
    change (le_int (le_bytes 8 fsize) = fsize). rewrite le_int_le_bytes. apply Z.mod_small. lia. }
  split.
  { subst b. unfold len. cbn [length]. lia. }
  intros k. subst b. unfold slice, upto.
  replace (16 + k - 16) with k by lia. done.
Qed.

(** The name the reassembler makes of the bytes of a name field. *)
Lemma hdr_name_of_field b nl :
  hdr_name_len b 0 = nl →
  hdr_name b 0 =
    let name := strip_nul (decode_ignore (slice b 16 (16 + nl))) in
    if is_empty name then lit "recv.bin" else name.
Proof. intros <-. done. Qed.

(** [_build_meta] raises only for a [meta_len] or a file size that [struct]
    cannot pack. *)
Lemma build_meta_succeeds src fp ml :
  0 <= ml < 65536 → 0 <= Packetizer._get_size src < 256 ^ 8 →
  ∃ m, Packetizer._build_meta src fp ml = Ok m.
Proof.
  intros Hml Hsz. unfold Packetizer._build_meta, pack_B, pack_H, pack_Q, pack.
  set (name_b := upto 255 (encode_ignore (basename fp))).
  pose proof (len_upto_le 255 (encode_ignore (basename fp)) ltac:(lia)) as Hnl.
  pose proof (len_nonneg name_b) as Hnl0. fold name_b in Hnl.
  replace ((0 <=? 1) && (1 <? 256 ^ Z.of_nat 1)) with true by done.
  replace ((0 <=? ml) && (ml <? 256 ^ Z.of_nat 2)) with true
    by (symmetry; apply andb_true_iff; split; [apply Z.leb_le|apply Z.ltb_lt]; lia).
  replace ((0 <=? len name_b) && (len name_b <? 256 ^ Z.of_nat 1)) with true
    by (symmetry; apply andb_true_iff; split; [apply Z.leb_le|apply Z.ltb_lt]; lia).
  replace ((0 <=? Packetizer._get_size src) && (Packetizer._get_size src <? 256 ^ Z.of_nat 8))
    with true
    by (symmetry; apply andb_true_iff; split; [apply Z.leb_le|apply Z.ltb_lt]; lia).
  cbn [mbind Result_bind bind]. by eexists.
Qed.

(** The header the packetizer builds is one the reassembler accepts, when
    the packet size is at most 4096, the file is not empty and at most
    1 GiB, and the name fits. *)
Lemma built_header_accepted src fp ml m :
  Packetizer._build_meta src fp ml = Ok m →
  16 <= ml <= 4096 →
  0 < Packetizer._get_size src <= 1024 ^ 3 →
  let name_b := upto 255 (encode_ignore (basename fp)) in
  16 + len name_b <= ml →
  accepts m 0 = true
  ∧ len m = ml
  ∧ hdr_meta_len m 0 = ml
  ∧ hdr_file_size m 0 = Packetizer._get_size src
  ∧ hdr_name m 0 =
      (let name := strip_nul (decode_ignore name_b) in
       if is_empty name then lit "recv.bin" else name).
Proof.
  intros Hm Hml Hsz name_b Hfit.
  pose proof (build_meta_len _ _ _ _ Hm) as Hlen.
  apply build_meta_ok in Hm as (_ & Hsz8 & Hm). cbv zeta in Hm. fold name_b in Hm.
  pose proof (len_upto_le 255 (encode_ignore (basename fp)) ltac:(lia)) as Hnl.
  pose proof (len_nonneg name_b) as Hnl0. fold name_b in Hnl.
  set (fixed := λ tail, MAGIC ++ le_bytes 1 1 ++ le_bytes 2 ml ++ le_bytes 1 (len name_b)
                        ++ le_bytes 8 (Packetizer._get_size src) ++ tail).
  assert (Hm' : m = fixed (name_b ++ zeros (ml - (16 + len name_b)))).
  { rewrite Hm. unfold fixed.
    assert (Hh : len (MAGIC ++ le_bytes 1 1 ++ le_bytes 2 ml ++ le_bytes 1 (len name_b)
                      ++ le_bytes 8 (Packetizer._get_size src) ++ name_b) = 16 + len name_b).
    { unfold len. rewrite !length_app, !length_le_bytes. simpl. lia. }
    rewrite Hh. destruct (16 + len name_b <? ml) eqn:E.
    - rewrite <- !app_assoc. done.
    - replace (ml - (16 + len name_b)) with 0 by lia. cbn [zeros Z.to_nat repeat].
      rewrite app_nil_r. apply upto_ge. lia. }
  destruct (fixed_header_fields ml (len name_b) (Packetizer._get_size src)
              (name_b ++ zeros (ml - (16 + len name_b))) ltac:(lia) ltac:(lia) Hsz8)
    as (Hmg & Hv & Hl & Hn & Hf & Hlen' & Hslice).
  fold (fixed (name_b ++ zeros (ml - (16 + len name_b)))) in Hmg, Hv, Hl, Hn, Hf, Hlen', Hslice.
  rewrite <- Hm' in Hmg, Hv, Hl, Hn, Hf, Hlen', Hslice.
  split.
  { apply accepts_iff. unfold listed_checks. rewrite Hmg, Hv, Hl, Hn, Hf, Hlen.
    repeat split; (done || lia). }
  split; [done|]. split; [done|]. split; [done|].
  rewrite (hdr_name_of_field m (len name_b)) by done.
  cbv zeta. rewrite Hslice, upto_app. done.
Qed.

Lemma init_succeeds src fp ml rep k :
  16 <= ml < 65536 → 0 <= Packetizer._get_size src < 256 ^ 8 →
  ∃ s, Packetizer.__init__ src fp ml rep k = Ok s.
Proof.
  intros Hml Hsz. unfold Packetizer.__init__.
  replace (ml <? 16) with false by lia.
  destruct (build_meta_succeeds src fp ml ltac:(lia) Hsz) as (m & ->).
  cbn [mbind Result_bind bind]. by eexists.
Qed.

Lemma init_fields src fp ml rep k s :
  Packetizer.__init__ src fp ml rep k = Ok s →
  Packetizer.filepath s = fp ∧ Packetizer.meta_len s = ml
  ∧ Packetizer._build_meta src fp ml = Ok (Packetizer._meta s).
Proof.
  unfold Packetizer.__init__. destruct (ml <? 16); [done|].
  destruct (Packetizer._build_meta src fp ml) as [m|]; [|done].
  cbn [mbind Result_bind bind]. by intros [= <-].
Qed.


(** A delivery that ends with a whole header and nothing after it: the
    output is opened and the block waits in RECV with an empty buffer. *)
Lemma general_work_header_only files s hdr :
  done s = false → state s = SCAN → fh s = None →
  capped (max_buffer s) (buf s ++ hdr) = hdr →
  accepts hdr 0 = true →
  hdr_meta_len hdr 0 = len hdr →
  let final := target files s (Some (hdr_name hdr 0)) in
  open_error (final ++ lit ".part") = None →
  general_work files s hdr =
    Ok (<[final ++ lit ".part" := []]> files,
        set_state RECV (opened final
          (set_buf [] (set_meta (len hdr) (hdr_file_size hdr 0) (hdr_name hdr 0) s)))).
Proof.
  intros Hd Hst Hfh Hcap Ha Hml final Hopen.
  assert (Hpos : 0 < hdr_file_size hdr 0).
  { apply accepts_iff in Ha as ((_ & _ & _ & _ & _ & Hsz & _) & _). lia. }
  rewrite (general_work_accept files s hdr 0); [|done|done|done|lia|by rewrite Hcap|].
  2:{ intros j Hj. lia. }
  cbv zeta. rewrite Hcap, Hml. fold final. rewrite Hopen.
  assert (del_prefix (len hdr) (del_prefix 0 hdr) = []) as ->.
  { unfold del_prefix, len. rewrite Nat2Z.id. cbn [Z.to_nat skipn]. by rewrite skipn_all. }
  apply (receive_empty _ _ (final ++ lit ".part") (hdr_file_size hdr 0)).
  - reflexivity.
  - reflexivity.
  - reflexivity.
  - exact Hpos.
  - reflexivity.
Qed.

(** A delivery in RECV, nothing written yet, that holds the whole payload. *)
Lemma general_work_payload files s final payload rest :
  done s = false → state s = RECV →
  fh s = Some (final ++ lit ".part") → unflushed s = [] →
  final_path s = Some final → part_path s = Some (final ++ lit ".part") →
  file_size s = Some (len payload) → written s = 0 → 0 < len payload →
  files !! (final ++ lit ".part") = Some [] →
  capped (max_buffer s) (buf s ++ (payload ++ rest)) = payload ++ rest →
  lets_through final →
  ∃ s',
    general_work files s (payload ++ rest) =
      Ok (<[final := payload]> (delete (final ++ lit ".part") (delete final files)), s')
    ∧ state s' = DONE ∧ buf s' = rest ∧ written s' = len payload
    ∧ file_name s' = file_name s ∧ final_path s' = Some final.
Proof.
  intros Hd Hst Hfh Hun Hfp Hpp Hfs Hw Hpos Hpart Hcap (_ & Hwrite & Hflush & Hreplace).
  rewrite general_work_not_SCAN by (done || by rewrite Hst).
  rewrite Hcap.
  rewrite (receive_complete _ _ final (len payload) []).
  - cbv zeta. cbn [written buf unflushed set_buf]. rewrite Hw, Hun, Hwrite, Hreplace.
    replace (len payload - 0) with (len payload) by lia.
    rewrite upto_app, del_prefix_app, reaches_file_all by done. cbn [app].
    eexists. split; [reflexivity|].
    cbn [state buf written file_name final_path set_state set_done set_fh set_unflushed
         set_buf set_written].
    repeat split; (done || lia).
  - exact Hfh.
  - exact Hst.
  - exact Hfs.
  - exact Hfp.
  - exact Hpp.
  - exact Hpart.
  - cbn [written buf set_buf]. rewrite Hw, len_app. pose proof (len_nonneg rest). lia.
Qed.

Lemma deliver_cons files s inp chunks files1 s1 :
  general_work files s inp = Ok (files1, s1) →
  deliver files s (inp :: chunks) = deliver files1 s1 chunks.
Proof. intros Hwork. cbn [deliver]. rewrite Hwork. done. Qed.

(** The header in one delivery, the payload in the next. *)
Lemma header_then_payload files dir dbg ow mb hdr payload rest :
  let s0 := __init__ dir dbg ow mb in
  accepts hdr 0 = true →
  hdr_meta_len hdr 0 = len hdr →
  hdr_file_size hdr 0 = len payload →
  len hdr <= Z.max mb (1024 * 1024) →
  len (payload ++ rest) <= Z.max mb (1024 * 1024) →
  let final := target files s0 (Some (hdr_name hdr 0)) in
  lets_through final →
  ∃ files' s',
    deliver files s0 [hdr; payload ++ rest] = Ok (files', s')
    ∧ state s' = DONE
    ∧ buf s' = rest
    ∧ written s' = len payload
    ∧ file_name s' = Some (hdr_name hdr 0)
    ∧ final_path s' = Some final
    ∧ files' !! final = Some payload.
Proof.
  intros s0 Ha Hml Hfs Hmax1 Hmax2 final Hlets.
  assert (Hpos : 0 < len payload).
  { apply accepts_iff in Ha as ((_ & _ & _ & _ & _ & Hsz & _) & _). lia. }
  assert (H1 : general_work files s0 hdr =
    Ok (<[final ++ lit ".part" := []]> files,
        set_state RECV (opened final
          (set_buf [] (set_meta (len hdr) (len payload) (hdr_name hdr 0) s0))))).
  { rewrite <- Hfs.
    apply general_work_header_only;
      [reflexivity|reflexivity|reflexivity| |exact Ha|exact Hml|apply Hlets].
    apply capped_small. exact Hmax1. }
  edestruct (general_work_payload (<[final ++ lit ".part" := []]> files)
               (set_state RECV (opened final
                  (set_buf [] (set_meta (len hdr) (len payload) (hdr_name hdr 0) s0))))
               final payload rest)
    as (s' & Hwork & Hst & Hbuf & Hw & Hname & Hfp).
  - reflexivity.
  - reflexivity.
  - reflexivity.
  - reflexivity.
  - reflexivity.
  - reflexivity.
  - reflexivity.
  - reflexivity.
  - exact Hpos.
  - apply lookup_insert_eq.
  - apply capped_small. exact Hmax2.
  - exact Hlets.
  - rewrite store_after_rename in Hwork.
    rewrite (deliver_cons _ _ _ _ _ _ H1), (deliver_cons _ _ _ _ _ _ Hwork).
    eexists _, s'. split; [reflexivity|].
    split; [exact Hst|]. split; [exact Hbuf|]. split; [exact Hw|].
    split; [exact Hname|]. split; [exact Hfp|]. apply lookup_insert_eq.
Qed.

(** *** The example of the specification *)

Lemma a_txt_header_facts :
  accepts a_txt_header 0 = true
  ∧ hdr_meta_len a_txt_header 0 = len a_txt_header
  ∧ hdr_file_size a_txt_header 0 = len digits10
  ∧ len a_txt_header = 512
  ∧ len (a_txt_header ++ a_txt_data_packet) = 1024
  ∧ len a_txt_data_packet = 512
  ∧ slice a_txt_header 16 (16 + hdr_name_len a_txt_header 0) = a_txt_name.
Proof. repeat split; vm_compute; reflexivity. Qed.

Lemma a_txt_header_name :
  decode_ignore a_txt_name = lit "a.txt" → hdr_name a_txt_header 0 = lit "a.txt".
Proof.
  intros Hdec. destruct a_txt_header_facts as (_ & _ & _ & _ & _ & _ & Hslice).
  unfold hdr_name. replace (0 + 16) with 16 by done. rewrite Hslice, Hdec. done.
Qed.

Lemma a_txt_target files dir dbg mb :
  basename (lit "a.txt") = lit "a.txt" →
  target files (__init__ dir dbg true mb) (Some (lit "a.txt")) = join dir (lit "a.txt").
Proof.
  intros Hb. unfold target. change (truthy (Some (lit "a.txt"))) with true.
  change (default [] (Some (lit "a.txt"))) with (lit "a.txt").
  cbn [overwrite out_dir __init__ negb andb]. rewrite Hb. done.
Qed.

Lemma packet_in_meta src s start :
  Packetizer._phase s = Packetizer.Meta →
  Packetizer.packet src s start =
    Ok (Packetizer._meta s,
        {| Packetizer.offset := Packetizer.nitems_written s + start;
           Packetizer.key := Packetizer._tag_key s;
           Packetizer.value := Packetizer.meta_len s |},
        Packetizer.set__phase Packetizer.File
          (Packetizer._open_file src
             (Packetizer.set__file_bytes_left (Packetizer._get_size src) s))).
Proof. intros Hph. unfold Packetizer.packet. rewrite Hph. done. Qed.

Lemma packet_last_of_file src s start e :
  Packetizer.at_rest src s → Packetizer.repeat s = true →
  Packetizer._phase s = Packetizer.File →
  Packetizer._fh s = Some e → Packetizer._file_bytes_left s = len e →
  0 < len e <= Packetizer.meta_len s →
  ∃ s',
    Packetizer.packet src s start =
      Ok (e ++ zeros (Packetizer.meta_len s - len e),
          {| Packetizer.offset := Packetizer.nitems_written s + start;
             Packetizer.key := Packetizer._tag_key s;
             Packetizer.value := Packetizer.meta_len s |}, s')
    ∧ Packetizer._phase s' = Packetizer.Meta
    ∧ Packetizer.meta_len s' = Packetizer.meta_len s.
Proof.
  intros Hrest Hrep Hph Hfh Hleft He.
  destruct (file_packet_last src s e Hrest Hrep Hfh Hleft He)
    as (s' & Hfile & Hph' & _ & Hml & _).
  exists s'. split; [|done].
  unfold Packetizer.packet. rewrite Hph, Hfile. cbn [mbind Result_bind bind].
  by rewrite Hph'.
Qed.

(** The packetizer on [a.txt] with packets of 512, by the phase, the open
    file, the count of bytes left and the count of items written. *)
Lemma a_txt_init fp k :
  Packetizer._build_meta a_txt_source fp 512 = Ok a_txt_header →
  Packetizer.__init__ a_txt_source fp 512 true k =
    Ok {| Packetizer.filepath := fp; Packetizer.meta_len := 512;
          Packetizer.repeat := true; Packetizer.len_tag_key := k;
          Packetizer._meta := a_txt_header; Packetizer._fh := Some digits10;
          Packetizer._phase := Packetizer.Meta; Packetizer._file_bytes_left := 10;
          Packetizer._tag_key := k; Packetizer.nitems_written := 0 |}.
Proof.
  intros Hm. unfold Packetizer.__init__. replace (512 <? 16) with false by done.
  rewrite Hm. done.
Qed.

(** The two packets of a pass over [a.txt], in one request for 1024 items
    and in two requests for 512. *)
Lemma a_txt_requests fp k :
  basename fp = lit "a.txt" →
  encode_ignore (lit "a.txt") = a_txt_name →
  let tag_at := λ o, {| Packetizer.offset := o; Packetizer.key := k;
                        Packetizer.value := 512 |} in
  ∃ s s1 s2 s2',
    Packetizer.__init__ a_txt_source fp 512 true k = Ok s
    ∧ Packetizer.general_work a_txt_source s 512 = Ok (a_txt_header, [tag_at 0], s1)
    ∧ Packetizer.general_work a_txt_source s1 512
      = Ok (a_txt_data_packet, [tag_at 512], s2)
    ∧ Packetizer.general_work a_txt_source s 1024
      = Ok (a_txt_header ++ a_txt_data_packet, [tag_at 0; tag_at 512], s2').
Proof.
  intros Hbase Henc tag_at.
  assert (Hm : Packetizer._build_meta a_txt_source fp 512 = Ok a_txt_header).
  { unfold Packetizer._build_meta. rewrite Hbase, Henc. vm_compute. reflexivity. }
  pose proof (a_txt_init fp k Hm) as Hinit.
  set (s := {| Packetizer.filepath := fp |}) in Hinit.
  pose proof (packetizer_init_at_rest _ _ _ _ _ _ Hinit) as Hrest.
  pose proof (packet_in_meta a_txt_source s 0 eq_refl) as Hp1.
  set (s1 := Packetizer.set__phase _ _) in Hp1.
  assert (Hrest1 : Packetizer.at_rest a_txt_source s1).
  { eapply at_rest_same_setup; [exact Hrest|]. by repeat split. }
  assert (Hrest1' : Packetizer.at_rest a_txt_source (Packetizer.produce 512 s1)).
  { destruct Hrest1 as (? & ? & ? & ?). by repeat split. }
  destruct (packet_last_of_file a_txt_source s1 512 digits10) as (s2' & Hp2' & _ & Hml2');
    [exact Hrest1|reflexivity|reflexivity|reflexivity|reflexivity|done|].
  destruct (packet_last_of_file a_txt_source (Packetizer.produce 512 s1) 0 digits10)
    as (s2 & Hp2 & _ & Hml2);
    [exact Hrest1'|reflexivity|reflexivity|reflexivity|reflexivity|done|].
  change (Packetizer.meta_len s1) with 512 in Hp2', Hml2'.
  change (Packetizer.meta_len (Packetizer.produce 512 s1)) with 512 in Hp2, Hml2.
  exists s, (Packetizer.produce (len a_txt_header) s1),
    (Packetizer.produce (len a_txt_data_packet) s2),
    (Packetizer.produce (len (a_txt_header ++ a_txt_data_packet)) s2').
  split; [exact Hinit|]. split; [|split].
  - apply (general_work_packets a_txt_source s 512 1 _ _ (0 + 512));
      [exact Hrest|done|lia|].
    cbn [Packetizer.packets]. rewrite Hp1. done.
  - change (len a_txt_header) with 512.
    apply (general_work_packets a_txt_source _ 512 1 _ _ (0 + 512));
      [exact Hrest1'|done|lia|].
    cbn [Packetizer.packets]. rewrite Hp2. cbn [mbind Result_bind bind].
    rewrite app_nil_r, Hml2. done.
  - apply (general_work_packets a_txt_source s 1024 2 _ _ (0 + 512 + 512));
      [exact Hrest|done|lia|].
    cbn [Packetizer.packets]. rewrite Hp1. cbn [mbind Result_bind bind].
    change (0 + Packetizer.meta_len s1) with 512. rewrite Hp2'.
    cbn [mbind Result_bind bind]. rewrite app_nil_r, Hml2'. done.
Qed.

(** C2.  With packets of 512 bytes, the default [repeat], and the 10-byte
    file [a.txt], on a platform whose codec and [basename] leave the 7-bit
    name [a.txt] as it is: asked for 512 items, [general_work] of the
    packetizer produces the header of the specification, tagged 512 at
    offset 0; asked for 512 more, the ten digits and 502 zero bytes, tagged
    512 at offset 512; asked for 1024 at once, the two packets with the two
    tags.  A new reassembler with the default [overwrite], whose operating
    system lets the output to [a.txt] through, fed the two packets in one
    delivery or in two, writes the ten digits to [a.txt] in its directory
    and is DONE. *)
Theorem scenario_a_txt fp k files dir dbg mb :
  basename fp = lit "a.txt" →
  encode_ignore (lit "a.txt") = a_txt_name →
  decode_ignore a_txt_name = lit "a.txt" →
  basename (lit "a.txt") = lit "a.txt" →
  lets_through (join dir (lit "a.txt")) →
  let tag_at := λ o, {| Packetizer.offset := o; Packetizer.key := k;
                        Packetizer.value := 512 |} in
  (∃ s s1 s2 s2',
     Packetizer.__init__ a_txt_source fp 512 true k = Ok s
     ∧ Packetizer.general_work a_txt_source s 512 = Ok (a_txt_header, [tag_at 0], s1)
     ∧ Packetizer.general_work a_txt_source s1 512
       = Ok (a_txt_data_packet, [tag_at 512], s2)
     ∧ Packetizer.general_work a_txt_source s 1024
       = Ok (a_txt_header ++ a_txt_data_packet, [tag_at 0; tag_at 512], s2'))
  ∧ (∃ files' r,
       general_work files (__init__ dir dbg true mb) (a_txt_header ++ a_txt_data_packet)
       = Ok (files', r)
       ∧ state r = DONE
       ∧ final_path r = Some (join dir (lit "a.txt"))
       ∧ files' !! join dir (lit "a.txt") = Some digits10)
  ∧ (∃ files' r,
       deliver files (__init__ dir dbg true mb) [a_txt_header; a_txt_data_packet]
       = Ok (files', r)
       ∧ state r = DONE
       ∧ final_path r = Some (join dir (lit "a.txt"))
       ∧ files' !! join dir (lit "a.txt") = Some digits10).
Proof.
  intros Hbase Henc Hdec Hbase' Hlets tag_at.
  destruct a_txt_header_facts as (Ha & Hml & Hfs & Hlen & Hlen2 & Hlen3 & _).
  pose proof (a_txt_header_name Hdec) as Hname.
  pose proof (a_txt_target files dir dbg mb Hbase') as Htarget.
  split; [by apply a_txt_requests|]. split.
  - destruct (delivery_reassembles files dir dbg true mb [] a_txt_header digits10 (zeros 502))
      as (files' & r & Hwork & Hst & _ & _ & _ & Hfp & Hfile).
    + exact Ha.
    + exact Hml.
    + exact Hfs.
    + intros j Hj. unfold len in Hj. simpl in Hj. lia.
    + change ([] ++ a_txt_header ++ digits10 ++ zeros 502)
        with (a_txt_header ++ a_txt_data_packet). rewrite Hlen2. lia.
    + by rewrite Hname, Htarget.
    + rewrite Hname, Htarget in Hfp, Hfile.
      exists files', r. split; [exact Hwork|]. done.
  - destruct (header_then_payload files dir dbg true mb a_txt_header digits10 (zeros 502))
      as (files' & r & Hwork & Hst & _ & _ & _ & Hfp & Hfile).
    + exact Ha.
    + exact Hml.
    + exact Hfs.
    + rewrite Hlen. lia.
    + change (digits10 ++ zeros 502) with a_txt_data_packet. rewrite Hlen3. lia.
    + by rewrite Hname, Htarget.
    + rewrite Hname, Htarget in Hfp, Hfile.
      exists files', r. split; [exact Hwork|]. done.
Qed.

End RoundTrip.

(** ** Sessions of the reassembler: what further calls do *)

Section ReassemblerSessions.
Context `{Platform} `{Disk}.
Import Reassembler.

Lemma deliver_done files s chunks : done s = true → deliver files s chunks = Ok (files, s).
Proof.
  intros Hd. induction chunks as [|c chunks IH]; [done|].
  rewrite (deliver_cons files s c chunks files s); [done|]. by apply general_work_done.
Qed.

Lemma last_items_again {A} (l : list A) :
  last_items (1024 * 1024) (last_items (1024 * 1024) l) = last_items (1024 * 1024) l.
Proof.
  unfold last_items at 1. unfold len.
  replace (Z.to_nat _) with 0%nat; [done|].
  unfold last_items, len. rewrite length_skipn. lia.
Qed.

Lemma capped_again m (b : list byte) : capped m (capped m b) = capped m b.
Proof.
  unfold capped. destruct (len b >? m) eqn:E.
  - destruct (len (last_items _ b) >? m); [apply last_items_again|done].
  - by rewrite E.
Qed.

(** X6.  Once a session is DONE, no call of [general_work] or [stop] changes a
    file, the state, the buffer or the count of bytes written: all input is
    dropped. *)
Theorem done_is_final files0 dir dbg ow mb files s files' s' :
  reachable files0 (__init__ dir dbg ow mb) files s →
  state s = DONE →
  reachable files s files' s' →
  files' = files ∧ state s' = DONE ∧ buf s' = buf s ∧ written s' = written s
  ∧ final_path s' = final_path s.
Proof.
  intros Hreach Hst Hmore.
  assert (Hd : done s = true ∧ fh s = None).
  { apply reachable_at_rest in Hreach; [|apply init_at_rest].
    unfold at_rest in Hreach. rewrite Hst in Hreach. tauto. }
  destruct Hd as [Hd Hfh].
  assert (Hinv : files' = files ∧ done s' = true ∧ fh s' = None ∧ state s' = DONE
                 ∧ buf s' = buf s ∧ written s' = written s
                 ∧ final_path s' = final_path s).
  { induction Hmore as [|f1 s1 inp f2 s2 _ IH Hwork|f1 s1 f2 s2 _ IH Hstop]; [done| |].
    - destruct IH as (-> & Hd1 & IH).
      rewrite general_work_done in Hwork by done. by inversion Hwork; subst.
    - destruct IH as (-> & Hd1 & Hfh1 & IH).
      unfold stop in Hstop. rewrite close_closed in Hstop by done.
      by inversion Hstop; subst. }
  tauto.
Qed.

(** X7.  [stop] in the middle of a transfer ends it: whatever is delivered
    afterwards, no file changes after the one that closing the output
    wrote to, the [.part] file is not renamed and the block stays in RECV
    with its output closed. *)
Theorem stopped_transfer_stays_partial files s files' s' :
  state s = RECV →
  reachable (stop files s).1 (stop files s).2 files' s' →
  files' = (stop files s).1 ∧ state s' = RECV ∧ fh s' = None ∧ written s' = written s
  ∧ final_path s' = final_path s.
Proof.
  intros Hst.
  destruct (stop files s) as [f0 s0] eqn:Hstop0. cbn [fst snd].
  apply stop_as in Hstop0 as (u & Hs0).
  assert (Hstart : state s0 = RECV ∧ fh s0 = None ∧ written s0 = written s
                   ∧ final_path s0 = final_path s) by (by subst s0).
  clear Hs0. intros Hmore.
  induction Hmore as [|f1 s1 inp f2 s2 _ IH Hwork|f1 s1 f2 s2 _ IH Hstop]; [done| |].
  - destruct IH as (-> & Hst1 & Hfh1 & Hw1 & Hf1).
    destruct (done s1) eqn:Hd.
    { rewrite general_work_done in Hwork by done. by inversion Hwork; subst. }
    rewrite general_work_not_SCAN in Hwork by (done || by rewrite Hst1).
    rewrite receive_closed in Hwork by done.
    by inversion Hwork; subst.
  - destruct IH as (-> & Hst1 & Hfh1 & Hw1 & Hf1).
    unfold stop in Hstop. rewrite close_closed in Hstop by done.
    by inversion Hstop; subst.
Qed.

(** X3.  While no header has been accepted, where a delivery is split does not
    matter: two deliveries of which the first leaves the block scanning
    come to one delivery of their bytes, when the cap does not cut them. *)
Theorem split_delivery_while_scanning files s inp1 inp2 chunks :
  done s = false → state s = SCAN →
  (∀ j, 0 <= j → accepts (buf s ++ inp1) j = false) →
  len (buf s ++ inp1 ++ inp2) <= Z.max (max_buffer s) (1024 * 1024) →
  deliver files s (inp1 :: inp2 :: chunks) = deliver files s ((inp1 ++ inp2) :: chunks).
Proof.
  intros Hd Hst Hno Hlen.
  assert (Hcap1 : capped (max_buffer s) (buf s ++ inp1) = buf s ++ inp1).
  { apply capped_small. rewrite !len_app in *. pose proof (len_nonneg inp2). lia. }
  assert (Hwork1 : general_work files s inp1 = Ok (files, set_buf (buf s ++ inp1) s)).
  { destruct (general_work_SCAN files s inp1 Hd Hst) as [[_ Heq]|(i & Hi & Ha & _)].
    - by rewrite Heq, Hcap1.
    - rewrite Hcap1, Hno in Ha; done. }
  rewrite (deliver_cons _ _ _ _ _ _ Hwork1).
  assert (Hsame : general_work files (set_buf (buf s ++ inp1) s) inp2
                  = general_work files s (inp1 ++ inp2)).
  { rewrite !general_work_unfold by done.
    cbn [buf max_buffer state set_buf]. by rewrite <- app_assoc. }
  cbn [deliver]. by rewrite Hsame.
Qed.

(** X5.  The cap comes before the state is looked at: when the buffer and the
    input together are longer than [max_buffer], the call goes on with their
    last 1 MiB alone, while scanning and while receiving a payload alike. *)
Theorem overlong_delivery_is_cut files s inp :
  done s = false →
  max_buffer s < len (buf s ++ inp) →
  general_work files s inp
  = general_work files (set_buf [] s) (last_items (1024 * 1024) (buf s ++ inp)).
Proof.
  intros Hd Hlong.
  rewrite !general_work_unfold by done.
  cbn [buf max_buffer state set_buf app].
  assert (Hcut : capped (max_buffer s) (buf s ++ inp)
                 = last_items (1024 * 1024) (buf s ++ inp)).
  { unfold capped. destruct (_ >? _) eqn:E; [done|lia]. }
  rewrite <- Hcut, capped_again. done.
Qed.

Lemma upto_app_le {A} (n : Z) (l k : list A) : n <= len l → upto n (l ++ k) = upto n l.
Proof. intros Hn. unfold upto, len in *. apply take_app_le. lia. Qed.

(** A block that is receiving, with nothing buffered, gets the rest of the
    payload in any number of deliveries, when the operating system lets the
    output through: what is in the [.part] file and what the file object
    holds make up the file in the end. *)
Lemma deliver_payload chunks : ∀ files s final fsize ondisk,
  lets_through final →
  done s = false → state s = RECV →
  fh s = Some (final ++ lit ".part") →
  final_path s = Some final → part_path s = Some (final ++ lit ".part") →
  file_size s = Some fsize → written s = len (ondisk ++ unflushed s) →
  written s < fsize →
  buf s = [] →
  files !! (final ++ lit ".part") = Some ondisk →
  Forall (λ c, len c <= Z.max (max_buffer s) (1024 * 1024)) chunks →
  fsize <= written s + len (concat chunks) →
  ∃ files' s',
    deliver files s chunks = Ok (files', s')
    ∧ state s' = DONE ∧ written s' = fsize ∧ final_path s' = Some final
    ∧ files' !! final
      = Some ((ondisk ++ unflushed s) ++ upto (fsize - written s) (concat chunks))
    ∧ files' !! (final ++ lit ".part") = None.
Proof.
  induction chunks as [|c chunks IH];
    intros files s final fsize ondisk Hlets Hd Hst Hfh Hfp Hpp Hfs Hw Hlt Hbuf Hfiles
      Hall Htotal.
  { change (len (concat [])) with 0 in Htotal. lia. }
  pose proof Hlets as (_ & Hwrite & Hflush & Hreplace).
  apply Forall_cons in Hall as [Hc Hall].
  pose proof (len_nonneg c) as Hc0.
  assert (Hwork : general_work files s c = receive files (set_buf c s)).
  { rewrite general_work_not_SCAN by (done || by rewrite Hst).
    rewrite Hbuf. cbn [app]. by rewrite capped_small. }
  cbn [concat] in *. rewrite len_app in Htotal.
  destruct (Z.eq_dec (len c) 0) as [Hz|Hnz].
  { apply len_nil_inv in Hz. subst c.
    rewrite (receive_empty _ _ (final ++ lit ".part") fsize) in Hwork;
      [|done|done|done|cbn [written set_buf]; lia|done].
    rewrite (deliver_cons _ _ _ _ _ _ Hwork). cbn [app].
    apply (IH files (set_buf [] s) final fsize ondisk); done. }
  destruct (Z.lt_ge_cases (len c) (fsize - written s)) as [Hpart|Hall_in].
  - rewrite (receive_partial _ _ (final ++ lit ".part") fsize) in Hwork;
      [|done|done|done|cbn [buf written set_buf]; lia].
    cbn [buf written unflushed set_buf] in Hwork. rewrite Hwrite in Hwork.
    rewrite (append_at _ _ ondisk) in Hwork by done.
    rewrite (deliver_cons _ _ _ _ _ _ Hwork).
    set (n := write_passes (final ++ lit ".part") (unflushed s) c).
    assert (Hjoin : (ondisk ++ upto n (unflushed s ++ c)) ++ del_prefix n (unflushed s ++ c)
                    = (ondisk ++ unflushed s) ++ c).
    { by rewrite <- !app_assoc, upto_del_prefix'. }
    match goal with |- context [deliver ?f ?s1 chunks] =>
      destruct (IH f s1 final fsize (ondisk ++ upto n (unflushed s ++ c)))
        as (files' & s' & Hdel & Hst' & Hw' & Hfp' & Hfinal & Hpart')
    end; try done.
    + cbn [written unflushed set_buf set_written set_unflushed].
      rewrite Hjoin, len_app. lia.
    + cbn [written set_buf set_written set_unflushed]. lia.
    + by rewrite lookup_insert_eq.
    + cbn [written set_buf set_written set_unflushed]. lia.
    + exists files', s'. repeat split; try done.
      rewrite Hfinal. cbn [written unflushed set_buf set_written set_unflushed].
      rewrite Hjoin, <- app_assoc. f_equal. f_equal.
      replace (fsize - written s) with (len c + (fsize - (written s + len c))) by lia.
      rewrite upto_add_app by lia. done.
  - rewrite (receive_complete _ _ final fsize ondisk) in Hwork;
      [|done|done|done|done|done|done|cbn [buf written set_buf]; lia].
    cbv zeta in Hwork. cbn [buf written unflushed set_buf] in Hwork.
    rewrite Hwrite, Hreplace, reaches_file_all in Hwork by done.
    rewrite (deliver_cons _ _ _ _ _ _ Hwork).
    rewrite deliver_done by done.
    eexists _, _. split; [reflexivity|].
    cbn [state written final_path set_state set_done set_fh set_unflushed set_buf set_written].
    repeat split; try done.
    + lia.
    + rewrite lookup_insert_eq, app_assoc. f_equal. f_equal.
      symmetry. apply upto_app_le. lia.
    + rewrite lookup_insert_ne by (intros E; by apply (part_ne_final final)).
      by rewrite lookup_delete_eq.
Qed.

(** The first accepted candidate of the capped buffer is at the end of
    [before]; its header is [hdr] and what follows is less than the payload
    it declares.  The call opens the [.part] file, writes what follows the
    header and goes on receiving: the bytes are in the file or held by the
    file object. *)
Lemma general_work_partial_file files s inp before hdr p0 :
  done s = false → state s = SCAN → fh s = None →
  let b := capped (max_buffer s) (buf s ++ inp) in
  let i := len before in
  b = before ++ hdr ++ p0 →
  accepts b i = true →
  (∀ j, 0 <= j < i → accepts b j = false) →
  hdr_meta_len b i = len hdr →
  len p0 < hdr_file_size b i →
  let final := target files s (Some (hdr_name b i)) in
  open_error (final ++ lit ".part") = None →
  (∀ held chunk, write_error (final ++ lit ".part") held chunk = None) →
  ∃ s' ondisk,
    general_work files s inp = Ok (<[final ++ lit ".part" := ondisk]> files, s')
    ∧ ondisk ++ unflushed s' = p0
    ∧ done s' = false ∧ state s' = RECV
    ∧ fh s' = Some (final ++ lit ".part")
    ∧ final_path s' = Some final ∧ part_path s' = Some (final ++ lit ".part")
    ∧ file_size s' = Some (hdr_file_size b i) ∧ written s' = len p0
    ∧ buf s' = [] ∧ max_buffer s' = max_buffer s.
Proof.
  intros Hd Hst Hfh b i Hb Ha Hbefore Hml Hfs final Hopen Hwrite.
  pose proof (len_nonneg before) as Hi0. fold i in Hi0.
  assert (Hskip : del_prefix (hdr_meta_len b i) (del_prefix i b) = p0).
  { rewrite Hml, Hb. unfold i. rewrite !del_prefix_app. done. }
  rewrite (general_work_accept files s inp i) by done.
  cbv zeta. fold b. fold final. rewrite Hskip, Hopen.
  pose proof (len_nonneg p0) as Hp0.
  destruct (Z.eq_dec (len p0) 0) as [Hz|Hnz].
  - apply len_nil_inv in Hz. rewrite Hz in *.
    rewrite (receive_empty _ _ (final ++ lit ".part") (hdr_file_size b i));
      [|done|done|done| |done].
    2:{ cbn [written set_state opened set_written]. change (len []) with 0 in Hfs. lia. }
    eexists _, []. split; [reflexivity|].
    cbn [done state fh final_path part_path file_size written buf max_buffer unflushed
         set_state opened set_written set_fh set_unflushed set_paths set_buf set_meta].
    repeat split; done.
  - rewrite (receive_partial _ _ (final ++ lit ".part") (hdr_file_size b i));
      [|done|done|done|].
    2:{ cbn [written buf set_state opened set_written set_fh set_unflushed set_paths set_buf].
        lia. }
    cbn [written buf unflushed set_state opened set_written set_fh set_unflushed set_paths
         set_buf].
    rewrite Hwrite. rewrite (append_at _ _ []) by apply lookup_insert_eq.
    cbn [app]. rewrite insert_insert_eq.
    eexists _, _. split; [reflexivity|].
    cbn [done state fh final_path part_path file_size written buf max_buffer unflushed
         set_state opened set_written set_fh set_unflushed set_paths set_buf set_meta].
    split; [apply upto_del_prefix'|]. repeat split; done.
Qed.

(** The deliveries of [payload_in_any_chunks], for the proofs that build on
    them. *)
Lemma chunks_reassemble files dir dbg ow mb garbage hdr p0 chunks payload rest :
  let s0 := __init__ dir dbg ow mb in
  let first := garbage ++ hdr ++ p0 in
  accepts hdr 0 = true →
  hdr_meta_len hdr 0 = len hdr →
  hdr_file_size hdr 0 = len payload →
  (∀ j, 0 <= j < len garbage → accepts first j = false) →
  len p0 < len payload →
  p0 ++ concat chunks = payload ++ rest →
  len first <= Z.max mb (1024 * 1024) →
  Forall (λ c, len c <= Z.max mb (1024 * 1024)) chunks →
  let final := target files s0 (Some (hdr_name hdr 0)) in
  lets_through final →
  ∃ files' s',
    deliver files s0 (first :: chunks) = Ok (files', s')
    ∧ state s' = DONE
    ∧ written s' = len payload
    ∧ final_path s' = Some final
    ∧ files' !! final = Some payload
    ∧ files' !! (final ++ lit ".part") = None.
Proof.
  intros s0 first Ha Hml Hfs Hgarbage Hshort Hcat Hlen Hall final Hlets.
  destruct (accepts_embedded garbage hdr p0 0 ltac:(lia) Ha) as (Ha' & Hml' & Hfs' & Hnm').
  rewrite Z.add_0_r in Ha', Hml', Hfs', Hnm'. fold first in Ha', Hml', Hfs', Hnm'.
  assert (Hcap : capped (max_buffer s0) (buf s0 ++ first) = first).
  { unfold s0. cbn [max_buffer buf __init__ app]. by apply capped_small. }
  destruct (general_work_partial_file files s0 first garbage hdr p0)
    as (s1 & ondisk & Hwork & Hheld & Hd1 & Hst1 & Hfh1 & Hfp1 & Hpp1 & Hfs1 & Hw1 & Hb1
        & Hmb1).
  - done.
  - done.
  - done.
  - by rewrite Hcap.
  - by rewrite Hcap.
  - by rewrite Hcap.
  - rewrite Hcap. congruence.
  - rewrite Hcap. congruence.
  - rewrite Hcap, Hnm'. apply Hlets.
  - rewrite Hcap, Hnm'. apply Hlets.
  - rewrite Hcap, Hnm' in Hwork, Hfh1, Hfp1, Hpp1. rewrite Hcap, Hfs', Hfs in Hfs1.
    fold final in Hwork, Hfh1, Hfp1, Hpp1.
    rewrite (deliver_cons _ _ _ _ _ _ Hwork).
    assert (Htotal : len p0 + len (concat chunks) = len payload + len rest).
    { rewrite <- !len_app. by rewrite Hcat. }
    pose proof (len_nonneg rest) as Hrest.
    destruct (deliver_payload chunks (<[final ++ lit ".part" := ondisk]> files) s1 final
                (len payload) ondisk)
      as (files' & s' & Hdel & Hst' & Hw' & Hfp' & Hfinal & Hpart'); try done.
    + by rewrite Hheld.
    + lia.
    + by rewrite lookup_insert_eq.
    + by rewrite Hmb1.
    + lia.
    + exists files', s'. repeat split; try done.
      rewrite Hfinal, Hheld, Hw1. f_equal.
      rewrite <- upto_add_app by lia.
      replace (len p0 + (len payload - len p0)) with (len payload) by lia.
      rewrite Hcat. apply upto_app.
Qed.


Lemma digits_inj u v : digits u = digits v → u = v.
Proof.
  revert v. induction u as [|u IH|u IH|u IH|u IH|u IH|u IH|u IH|u IH|u IH|u IH];
    intros [|v|v|v|v|v|v|v|v|v|v]; cbn; intros Heq; try discriminate; try done;
    injection Heq as Heq; f_equal; by apply IH.
Qed.

Lemma str_of_nat_inj k k' : str_of_nat k = str_of_nat k' → k = k'.
Proof. intros Heq. apply Unsigned.to_uint_inj. by apply digits_inj. Qed.

Lemma numbered_inj base ext : Inj eq eq (numbered base ext).
Proof.
  intros k k' Heq. unfold numbered in Heq.
  apply app_inv_head in Heq. apply app_inv_head in Heq. apply app_inv_tail in Heq.
  by apply str_of_nat_inj.
Qed.

Lemma numbered_part_inj base ext : Inj eq eq (λ k, numbered base ext k ++ lit ".part").
Proof. intros k k' Heq. apply app_inv_tail in Heq. exact (numbered_inj base ext _ _ Heq). Qed.

(** Paths that exist and are the images of different numbers are no more
    than the files of the store. *)
Lemma existing_paths_bounded (files : FileStore) (f : nat → pystr) (l : list nat) :
  Inj eq eq f → NoDup l →
  (∀ j, j ∈ l → exists_ files (f j) = true) →
  (length l <= base.size files)%nat.
Proof.
  intros Hinj Hnd Hex.
  rewrite <- length_map_to_list, <- (length_fmap fst (map_to_list files)),
    <- (length_fmap f l).
  apply submseteq_length, NoDup_submseteq; [by apply NoDup_fmap_2|].
  intros p Hp. apply list_elem_of_fmap in Hp as (j & -> & Hj).
  specialize (Hex j Hj). unfold exists_ in Hex.
  destruct (files !! f j) as [v|] eqn:E; [|done].
  apply list_elem_of_fmap. exists (f j, v). split; [done|].
  by apply elem_of_map_to_list.
Qed.

Lemma filter_either (p q : nat → bool) (l : list nat) :
  (∀ j, j ∈ l → p j || q j = true) →
  (length l <= length (filter (λ j, p j) l) + length (filter (λ j, q j) l))%nat.
Proof.
  induction l as [|x l IH]; intros Hpq; [done|].
  assert (Hx := Hpq x ltac:(apply list_elem_of_here)).
  assert (Hl : ∀ j, j ∈ l → p j || q j = true).
  { intros j Hj. apply Hpq. by apply list_elem_of_further. }
  specialize (IH Hl).
  rewrite !filter_cons. destruct (p x), (q x); try done; simpl; repeat case_decide; simpl; try done; lia.
Qed.

(** Every number that the [while] of [_open_out] finds taken is a file of
    the store, or the [.part] of one: no more than twice the size of the
    store in a row are. *)
Lemma taken_bounded files base ext k n :
  (∀ j, (k <= j < k + n)%nat → taken files base ext j = true) →
  (n <= 2 * base.size files)%nat.
Proof.
  intros Hall.
  pose (l := seq k n).
  pose (la := filter (λ j, exists_ files (numbered base ext j)) l).
  pose (lb := filter (λ j, exists_ files (numbered base ext j ++ lit ".part")) l).
  assert (Hsum : (length l <= length la + length lb)%nat).
  { apply (filter_either (λ j, exists_ files (numbered base ext j))
             (λ j, exists_ files (numbered base ext j ++ lit ".part"))).
    intros j Hj. apply elem_of_seq in Hj. by apply Hall. }
  assert (Ha : (length la <= base.size files)%nat).
  { apply (existing_paths_bounded files (numbered base ext)).
    - apply numbered_inj.
    - apply NoDup_filter, NoDup_seq.
    - intros j Hj. apply list_elem_of_filter in Hj as [Hj _]. by apply Is_true_true. }
  assert (Hb : (length lb <= base.size files)%nat).
  { apply (existing_paths_bounded files (λ j, numbered base ext j ++ lit ".part")).
    - apply numbered_part_inj.
    - apply NoDup_filter, NoDup_seq.
    - intros j Hj. apply list_elem_of_filter in Hj as [Hj _]. by apply Is_true_true. }
  unfold l in Hsum. rewrite length_seq in Hsum. lia.
Qed.

Lemma free_suffix_spec files base ext fuel : ∀ k,
  let r := free_suffix fuel files base ext k in
  (k <= r <= k + fuel)%nat
  ∧ (∀ j, (k <= j < r)%nat → taken files base ext j = true)
  ∧ ((r < k + fuel)%nat → taken files base ext r = false).
Proof.
  induction fuel as [|fuel IH]; intros k; cbn [free_suffix].
  { cbv zeta. split; [lia|]. split; intros; lia. }
  fold (taken files base ext k). destruct (taken files base ext k) eqn:E.
  - destruct (IH (S k)) as (Hr & Hbelow & Hfree). cbv zeta in *.
    split; [lia|]. split.
    + intros j Hj. destruct (decide (j = k)) as [->|Hne]; [done|]. apply Hbelow. lia.
    + intros Hlt. apply Hfree. lia.
  - cbv zeta. split; [lia|]. split; [intros; lia|done].
Qed.

(** The [while] of [_open_out] ends within the fuel that [_open_out] gives
    it: the number it stops at is free, and every number from 1 below it is
    taken. *)
Lemma free_suffix_found files base ext :
  let k := free_suffix (S (2 * base.size files)) files base ext 1 in
  taken files base ext k = false
  ∧ (1 <= k)%nat
  ∧ ∀ j, (1 <= j < k)%nat → taken files base ext j = true.
Proof.
  destruct (free_suffix_spec files base ext (S (2 * base.size files)) 1)
    as (Hr & Hbelow & Hfree).
  cbv zeta in *. split; [|split; [lia|done]].
  apply Hfree.
  destruct (decide (free_suffix (S (2 * base.size files)) files base ext 1
                    < 1 + S (2 * base.size files))%nat) as [Hlt|Hge]; [done|].
  pose proof (taken_bounded files base ext 1 (S (2 * base.size files))) as Hbound.
  assert (S (2 * base.size files) <= 2 * base.size files)%nat; [|lia].
  apply Hbound. intros j Hj. apply Hbelow. lia.
Qed.

Lemma exists_false (files : FileStore) (p : pystr) : exists_ files p = false ↔ files !! p = None.
Proof. unfold exists_. destruct (files !! p); split; done. Qed.

Lemma target_is_new files s name :
  overwrite s = false →
  let asked := join (out_dir s)
                 (if truthy name then basename (default [] name) else lit "recv.bin") in
  let final := target files s name in
  files !! final = None
  ∧ (files !! asked = None → final = asked)
  ∧ (files !! asked ≠ None →
     files !! (final ++ lit ".part") = None
     ∧ ∃ k, (1 <= k)%nat
            ∧ final = numbered (splitext asked).1 (splitext asked).2 k
            ∧ ∀ j, (1 <= j < k)%nat →
                taken files (splitext asked).1 (splitext asked).2 j = true).
Proof.
  intros How asked final.
  unfold final, target. fold asked. rewrite How. cbn [negb andb].
  destruct (exists_ files asked) eqn:Hex.
  - destruct (splitext asked) as [base ext] eqn:Hsplit. cbn [fst snd].
    destruct (free_suffix_found files base ext) as (Hfree & Hk & Hbelow).
    cbv zeta in Hfree, Hk, Hbelow.
    unfold taken in Hfree. apply orb_false_iff in Hfree as [Hf Hp].
    apply exists_false in Hf, Hp.
    split; [done|]. split.
    + intros Hnone. apply exists_false in Hnone. congruence.
    + intros _. split; [done|]. eexists. split; [exact Hk|]. split; [done|]. exact Hbelow.
  - apply exists_false in Hex. split; [done|]. split; [done|]. intros Hsome. done.
Qed.

(** X8.  With [overwrite] off, [_open_out] never decides on a path that exists:
    when the path asked for exists, the numbered path it takes instead and
    the [.part] of that path are both new, and the number is the least one
    from 1 of which that holds. *)
Theorem output_path_is_free files s name :
  overwrite s = false →
  let asked := join (out_dir s)
                 (if truthy name then basename (default [] name) else lit "recv.bin") in
  let final := target files s name in
  files !! final = None
  ∧ (files !! asked = None → final = asked)
  ∧ (files !! asked ≠ None →
     files !! (final ++ lit ".part") = None
     ∧ ∃ k, (1 <= k)%nat
            ∧ final = numbered (splitext asked).1 (splitext asked).2 k
            ∧ ∀ j, (1 <= j < k)%nat →
                taken files (splitext asked).1 (splitext asked).2 j = true).
Proof. apply target_is_new. Qed.

(** The final path of a session with [overwrite] off is none of the files
    the session found. *)
Lemma general_work_final_free files0 files s inp files' s' :
  (state s = SCAN → files = files0) →
  overwrite s = false →
  (∀ f, final_path s = Some f → files0 !! f = None) →
  general_work files s inp = Ok (files', s') →
  overwrite s' = false ∧ (∀ f, final_path s' = Some f → files0 !! f = None).
Proof.
  intros Hscan How Hfree Hwork.
  destruct (done s) eqn:Hd.
  { rewrite general_work_done in Hwork by done. by inversion Hwork; subst. }
  destruct (is_SCAN (state s)) eqn:Hst.
  - assert (state s = SCAN) as Hst' by (by destruct (state s)).
    rewrite (Hscan Hst') in Hwork.
    destruct (general_work_SCAN files0 s inp Hd Hst') as [[_ Heq]|(i & Hi & Ha & _ & Heq)].
    + rewrite Heq in Hwork. inversion Hwork; subst files' s'. done.
    + rewrite Heq in Hwork. cbv zeta in Hwork.
      destruct (_open_out _ _ _ _) as [[files1 s1]|] eqn:Hopen; [|done].
      apply open_out_as in Hopen as ->.
      apply receive_frame in Hwork as (_ & Ho & _ & _ & _ & _ & Hf & _).
      cbn [final_path overwrite set_buf set_state opened set_written set_fh set_unflushed
           set_paths set_meta] in Hf, Ho.
      rewrite Hf, Ho. split; [done|]. intros f [= <-].
      change (target files0 (set_buf _ (set_meta _ _ _ s)) ?n) with (target files0 s n).
      by apply target_is_new.
  - rewrite general_work_not_SCAN in Hwork by done.
    apply receive_frame in Hwork as (_ & Ho & _ & _ & _ & _ & Hf & _).
    cbn [final_path overwrite set_buf] in Hf, Ho. rewrite Hf, Ho. done.
Qed.

Lemma reachable_final_free files0 dir dbg mb files s :
  reachable files0 (__init__ dir dbg false mb) files s →
  overwrite s = false ∧ (∀ f, final_path s = Some f → files0 !! f = None).
Proof.
  intros Hreach.
  induction Hreach as [|files s inp files' s' Hreach [IHo IHf] Hwork
                       |files s files' s' _ IH Hstop]; [done| |].
  - apply (general_work_final_free files0 files s inp files' s'); try done.
    intros Hst. apply reachable_at_rest in Hreach; [|apply init_at_rest].
    unfold at_rest in Hreach. rewrite Hst in Hreach. tauto.
  - apply stop_as in Hstop as (u & ->). done.
Qed.

(** X9.  With [overwrite] off, a session changes no file that was there when it
    started, other than the [.part] file it is writing to: a file at the
    path asked for keeps its content, and the payload goes to a numbered
    path. *)
Theorem no_overwrite_spares_files files0 dir dbg mb files s :
  reachable files0 (__init__ dir dbg false mb) files s →
  ∀ p data, files0 !! p = Some data → part_path s ≠ Some p → files !! p = Some data.
Proof.
  intros Hreach p data Hp Hnot.
  destruct (reachable_final_free _ _ _ _ _ _ Hreach) as [_ Hfree].
  apply reachable_at_rest in Hreach; [|apply init_at_rest].
  unfold at_rest in Hreach. destruct (state s).
  - destruct Hreach as (-> & _). done.
  - destruct Hreach as (_ & final & fsize & d & Hfp & Hpp & _ & _ & -> & _).
    rewrite lookup_insert_ne; [done|]. intros <-. by rewrite Hpp in Hnot.
  - destruct Hreach as (_ & _ & final & d & Hfp & Hpp & _ & _ & _ & ->).
    assert (final ≠ p) as Hne1.
    { intros <-. rewrite (Hfree final Hfp) in Hp. done. }
    assert (final ++ lit ".part" ≠ p) as Hne2.
    { intros <-. by rewrite Hpp in Hnot. }
    rewrite lookup_insert_ne, lookup_delete_ne, lookup_delete_ne; done.
Qed.

End ReassemblerSessions.

(** ** The header on the wire, from the packetizer to the reassembler *)

Section HeaderFormat.
Context `{Platform}.
Import Reassembler.

(** The fields of a header that [_build_meta] built, read at the offsets
    the reassembler reads them at, with anything after the header. *)
Lemma built_header_fields src fp ml m suf :
  Packetizer._build_meta src fp ml = Ok m →
  16 <= ml →
  let name_b := upto 255 (encode_ignore (basename fp)) in
  let b := m ++ suf in
  len m = ml
  ∧ 0 <= len name_b <= 255
  ∧ hdr_magic b 0 = MAGIC
  ∧ hdr_version b 0 = 1
  ∧ hdr_meta_len b 0 = ml
  ∧ hdr_name_len b 0 = len name_b
  ∧ hdr_file_size b 0 = Packetizer._get_size src
  ∧ (16 + len name_b <= ml → slice b 16 (16 + len name_b) = name_b).
Proof.
  intros Hm Hml name_b b.
  pose proof (build_meta_len _ _ _ _ Hm) as Hlen.
  apply build_meta_ok in Hm as (Hml16 & Hsz8 & Hm). cbv zeta in Hm. fold name_b in Hm.
  pose proof (len_upto_le 255 (encode_ignore (basename fp)) ltac:(lia)) as Hnl.
  pose proof (len_nonneg name_b) as Hnl0. fold name_b in Hnl.
  set (fixed := MAGIC ++ le_bytes 1 1 ++ le_bytes 2 ml ++ le_bytes 1 (len name_b)
                ++ le_bytes 8 (Packetizer._get_size src)).
  assert (Hfixed : len fixed = 16).
  { unfold fixed, len. rewrite !length_app, !length_le_bytes. simpl. lia. }
  assert (Hshape : ∃ tail, m = fixed ++ tail
                           ∧ (16 + len name_b <= ml → upto (len name_b) tail = name_b)).
  { assert (Hh : MAGIC ++ le_bytes 1 1 ++ le_bytes 2 ml ++ le_bytes 1 (len name_b)
                 ++ le_bytes 8 (Packetizer._get_size src) ++ name_b = fixed ++ name_b).
    { unfold fixed. by rewrite <- !app_assoc. }
    rewrite Hh in Hm. rewrite len_app, Hfixed in Hm.
    destruct (16 + len name_b <? ml) eqn:E.
    - exists (name_b ++ zeros (ml - (16 + len name_b))). split.
      + rewrite Hm. by rewrite <- app_assoc.
      + intros _. apply upto_app.
    - exists (upto (ml - 16) name_b). split.
      + rewrite Hm. rewrite <- Hfixed at 1.
        replace ml with (len fixed + (ml - 16)) at 1 by lia.
        apply upto_add_app. lia.
      + intros Hfit. replace (ml - 16) with (len name_b) by lia.
        by rewrite !upto_all. }
  destruct Hshape as (tail & Hm' & Hname).
  destruct (fixed_header_fields ml (len name_b) (Packetizer._get_size src) (tail ++ suf)
              ltac:(lia) ltac:(lia) Hsz8) as (Hmg & Hv & Hl & Hn & Hf & _ & Hslice).
  assert (Hb : MAGIC ++ le_bytes 1 1 ++ le_bytes 2 ml ++ le_bytes 1 (len name_b)
               ++ le_bytes 8 (Packetizer._get_size src) ++ tail ++ suf = b).
  { unfold b. rewrite Hm'. unfold fixed. by rewrite <- !app_assoc. }
  rewrite Hb in Hmg, Hv, Hl, Hn, Hf, Hslice.
  repeat split; try done; try lia.
  intros Hfit. rewrite Hslice.
  assert (Htail : len name_b <= len tail).
  { assert (len m = 16 + len tail) by (rewrite Hm', len_app; lia). lia. }
  rewrite upto_app_le by done. by apply Hname.
Qed.

(** X11.  In every state of a session, the META packet is as long as a packet
    and holds, where the reassembler reads them, the magic, version 1, the
    packet size, the length of the name cut to 255 bytes, and the size that
    [stat] reports. *)
Theorem meta_packet_is_a_header src s :
  Packetizer.reachable src s →
  let m := Packetizer._meta s in
  len m = Packetizer.meta_len s
  ∧ hdr_magic m 0 = MAGIC
  ∧ hdr_version m 0 = 1
  ∧ hdr_meta_len m 0 = Packetizer.meta_len s
  ∧ hdr_name_len m 0 = len (upto 255 (encode_ignore (basename (Packetizer.filepath s))))
  ∧ hdr_file_size m 0 = Packetizer._get_size src.
Proof.
  intros Hreach m. apply packetizer_reachable_at_rest in Hreach as (Hml & Hbuild & _).
  destruct (built_header_fields _ _ _ _ [] Hbuild Hml) as (Hlen & _ & Hmg & Hv & Hl & Hn & Hf & _).
  rewrite app_nil_r in Hmg, Hv, Hl, Hn, Hf. done.
Qed.

(** X12.  The reassembler accepts a header that the packetizer built, with
    anything after it, exactly when the packet size is at most 4096, the
    file holds between one byte and 1 GiB, and the name, cut to 255 bytes,
    fits in the packet after the 16 fixed bytes. *)
Theorem built_header_accepted_iff src fp ml m suf :
  Packetizer._build_meta src fp ml = Ok m →
  16 <= ml →
  accepts (m ++ suf) 0 = true
  ↔ ml <= 4096
    ∧ 0 < Packetizer._get_size src <= 1024 ^ 3
    ∧ 16 + len (upto 255 (encode_ignore (basename fp))) <= ml.
Proof.
  intros Hm Hml.
  destruct (built_header_fields _ _ _ _ suf Hm Hml)
    as (Hlen & Hnl & Hmg & Hv & Hl & Hn & Hf & _).
  pose proof (len_nonneg suf) as Hsuf.
  rewrite accepts_iff. unfold listed_checks. rewrite Hmg, Hv, Hl, Hn, Hf, len_app, Hlen.
  split.
  - intros ((_ & _ & _ & ? & _ & ? & _) & ?). repeat split; lia.
  - intros (? & ? & ?). repeat split; (done || lia).
Qed.

(** X13.  The header round trip: what [_try_parse_meta_at] reads from a header
    built by [_build_meta] is the packet size, the file size and the name
    that went in, the name through the codec and without NULs at its ends;
    [recv.bin] when nothing is left of it. *)
Theorem header_round_trip src fp ml m r suf :
  Packetizer._build_meta src fp ml = Ok m →
  16 <= ml <= 4096 →
  0 < Packetizer._get_size src <= 1024 ^ 3 →
  let name_b := upto 255 (encode_ignore (basename fp)) in
  16 + len name_b <= ml →
  _try_parse_meta_at (set_buf (m ++ suf) r) 0
  = (true,
     set_meta ml (Packetizer._get_size src)
       (let name := strip_nul (decode_ignore name_b) in
        if is_empty name then lit "recv.bin" else name)
       (set_buf (m ++ suf) r)).
Proof.
  intros Hm Hml Hsz name_b Hfit.
  destruct (built_header_fields _ _ _ _ suf Hm ltac:(lia))
    as (Hlen & Hnl & Hmg & Hv & Hl & Hn & Hf & Hslice).
  fold name_b in Hnl, Hn, Hslice.
  pose proof (len_nonneg suf) as Hsuf.
  rewrite try_parse_accept.
  - cbn [buf set_buf]. rewrite Hl, Hf.
    rewrite (hdr_name_of_field (m ++ suf) (len name_b)) by done.
    cbv zeta. by rewrite Hslice.
  - cbn [buf set_buf]. apply accepts_iff. unfold listed_checks.
    rewrite Hmg, Hv, Hl, Hn, Hf, len_app, Hlen. repeat split; (done || lia).
Qed.

End HeaderFormat.

(** ** Sessions of the packetizer: errors, passes over the file, the end *)

Section PacketizerSessions.
Context `{Platform}.
Import Packetizer.

Lemma build_meta_raises src fp ml e : _build_meta src fp ml = Raise e → e = StructError.
Proof.
  unfold _build_meta, pack_B, pack_H, pack_Q, pack.
  repeat (match goal with
          | |- context [if ?c then Ok _ else Raise _] => destruct c
          end; cbn [mbind Result_bind bind]);
    intros [= <-] || intros [=]; done.
Qed.

(** X10.  How the constructor ends: [ValueError] exactly for a packet size below
    16; [struct.error] exactly for a packet size of 16 or more that does not
    fit the two bytes of its field, or a file size that does not fit the
    eight of its field; a block in every other case. *)
Theorem init_errors src fp ml rep k :
  (__init__ src fp ml rep k = Raise ValueError ↔ ml < 16)
  ∧ (__init__ src fp ml rep k = Raise StructError
     ↔ 16 <= ml ∧ (65536 <= ml ∨ _get_size src < 0 ∨ 256 ^ 8 <= _get_size src))
  ∧ ((∃ s, __init__ src fp ml rep k = Ok s)
     ↔ 16 <= ml < 65536 ∧ 0 <= _get_size src < 256 ^ 8).
Proof.
  unfold __init__. destruct (ml <? 16) eqn:E.
  { split; [split; [lia|done]|]. split; [split; [done|lia]|].
    split; [by intros [s Hs]|lia]. }
  destruct (_build_meta src fp ml) as [m|e] eqn:Hm; cbn [mbind Result_bind bind].
  - apply build_meta_ok in Hm as (Hml & Hsz & _).
    split; [split; [done|lia]|]. split; [split; [done|lia]|].
    split; [lia|by eexists].
  - pose proof (build_meta_raises _ _ _ _ Hm) as ->.
    assert (Hout : ¬ (0 <= ml < 65536 ∧ 0 <= _get_size src < 256 ^ 8)).
    { intros [Hml Hsz]. destruct (build_meta_succeeds src fp ml Hml Hsz) as [m Hok]. congruence. }
    split; [split; [done|lia]|]. split; [split; [lia|done]|].
    split; [by intros [s Hs]|lia].
Qed.

Lemma zeros_app a b : 0 <= a → 0 <= b → zeros a ++ zeros b = zeros (a + b).
Proof.
  intros Ha Hb. unfold zeros. rewrite Z2Nat.inj_add by done. symmetry. apply repeat_app.
Qed.

Lemma upto_split {A} (a b : Z) (l : list A) :
  0 <= a → 0 <= b → upto (a + b) l = upto a l ++ upto b (del_prefix a l).
Proof.
  intros Ha Hb. unfold upto, del_prefix. rewrite Z2Nat.inj_add by done.
  symmetry. apply take_take_drop.
Qed.

(** A packet of the file phase that is not the last one of the file. *)
Lemma packet_file_more src s start e :
  at_rest src s → _phase s = File →
  _fh s = Some e → _file_bytes_left s = len e → meta_len s < len e →
  ∃ s',
    packet src s start =
      Ok (upto (meta_len s) e,
          {| offset := nitems_written s + start; key := _tag_key s; value := meta_len s |}, s')
    ∧ _phase s' = File
    ∧ _fh s' = Some (del_prefix (meta_len s) e)
    ∧ _file_bytes_left s' = len e - meta_len s
    ∧ same_setup s s'.
Proof.
  intros Hrest Hph Hfh Hleft He.
  destruct (file_packet_more src s e Hrest Hfh Hleft He)
    as (s' & Hfile & Hph' & Hfh' & Hleft' & Hs').
  exists s'. rewrite Hph in Hph'. split; [|done].
  unfold packet. rewrite Hph, Hfile. cbn [mbind Result_bind bind]. by rewrite Hph'.
Qed.

(** The last packet of the file with [repeat] off: the phase is ["zeros"]
    by the time the packet is looked at again, and the file bytes that were
    put in it are overwritten with zeros. *)
Lemma packet_file_last_zeroed src s start e :
  at_rest src s → repeat s = false → _phase s ≠ Meta →
  _fh s = Some e → _file_bytes_left s = len e → 0 < len e <= meta_len s →
  ∃ s',
    packet src s start =
      Ok (zeros (meta_len s),
          {| offset := nitems_written s + start; key := _tag_key s; value := meta_len s |}, s')
    ∧ _phase s' = Zeros
    ∧ _file_bytes_left s' = 0
    ∧ same_setup s s'.
Proof.
  intros (Hml & Hbuild & _) Hrep Hph Hfh Hleft He.
  destruct s as [fp ml rep ltk m fh ph left tk nw].
  cbn in Hml, Hbuild, Hrep, Hfh, Hleft, He, Hph. subst fh left rep.
  assert (Hfile : file_packet src
            {| filepath := fp; meta_len := ml; repeat := false; len_tag_key := ltk;
               _meta := m; _fh := Some e; _phase := ph; _file_bytes_left := len e;
               _tag_key := tk; nitems_written := nw |}
          = Ok (e ++ zeros (ml - len e),
                {| filepath := fp; meta_len := ml; repeat := false; len_tag_key := ltk;
                   _meta := m; _fh := Some (del_prefix (len e) e); _phase := Zeros;
                   _file_bytes_left := 0;
                   _tag_key := tk; nitems_written := nw |})).
  { unfold file_packet. cbn.
    assert ((len e >? 0) = true) as -> by lia.
    rewrite Z.min_r by lia. rewrite upto_all. cbn.
    replace (len e - len e <=? 0) with true by lia. cbn.
    replace (len e - len e) with 0 by lia.
    assert ((if len e <? ml then e ++ zeros (ml - len e) else e) = e ++ zeros (ml - len e)) as ->.
    { destruct (len e <? ml) eqn:E; [done|].
      replace (ml - len e) with 0 by lia. cbn. by rewrite app_nil_r. }
    done. }
  eexists. split.
  - unfold packet. cbn [_phase]. destruct ph; [done| |]; rewrite Hfile; reflexivity.
  - cbn. by repeat split.
Qed.

(** The packets of one pass over the file, from a block in the file phase
    that has [e] left to read: all of [e] and the padding with [repeat] on;
    with [repeat] off, [e] short of what would be in the last packet, and a
    packet of zeros in its place. *)
Lemma file_pass src n : ∀ s e start,
  at_rest src s → _phase s = File →
  _fh s = Some e → _file_bytes_left s = len e →
  Z.of_nat n * meta_len s < len e <= (Z.of_nat n + 1) * meta_len s →
  ∃ ts pr s',
    packets (S n) src s start
    = Ok ((if repeat s then e ++ zeros ((Z.of_nat n + 1) * meta_len s - len e)
           else upto (Z.of_nat n * meta_len s) e ++ zeros (meta_len s)),
          ts, pr, s')
    ∧ _phase s' = (if repeat s then Meta else Zeros)
    ∧ same_setup s s'.
Proof.
  induction n as [|n IH]; intros s e start Hrest Hph Hfh Hleft He.
  - change (Z.of_nat 0) with 0 in *.
    destruct (repeat s) eqn:Hrep.
    + destruct (file_packet_last src s e Hrest Hrep Hfh Hleft ltac:(lia))
        as (s' & Hfile & Hph' & Hs').
      assert (Hpkt : packet src s start
                = Ok (e ++ zeros (meta_len s - len e),
                      {| offset := nitems_written s + start; key := _tag_key s;
                         value := meta_len s |}, s')).
      { unfold packet. rewrite Hph, Hfile. cbn [mbind Result_bind bind]. by rewrite Hph'. }
      cbn [packets]. rewrite Hpkt. cbn [mbind Result_bind bind].
      eexists _, _, s'. rewrite app_nil_r.
      replace ((0 + 1) * meta_len s - len e) with (meta_len s - len e) by lia.
      split; [reflexivity|done].
    + destruct (packet_file_last_zeroed src s start e Hrest Hrep ltac:(by rewrite Hph) Hfh Hleft
                  ltac:(lia)) as (s' & Hpkt & Hph' & _ & Hs').
      cbn [packets]. rewrite Hpkt. cbn [mbind Result_bind bind].
      eexists _, _, s'. rewrite app_nil_r.
      replace (0 * meta_len s) with 0 by lia.
      split; [reflexivity|done].
  - pose proof Hrest as (Hml & _).
    destruct (packet_file_more src s start e Hrest Hph Hfh Hleft ltac:(lia))
      as (s1 & Hpkt & Hph1 & Hfh1 & Hleft1 & Hs1).
    pose proof Hs1 as (_ & Hml1 & Hrep1 & _).
    assert (Hrest1 : at_rest src s1) by (by eapply at_rest_same_setup).
    assert (Hlen1 : len (del_prefix (meta_len s) e) = len e - meta_len s).
    { apply len_del_prefix_eq. lia. }
    destruct (IH s1 (del_prefix (meta_len s) e) (start + meta_len s1) Hrest1 Hph1 Hfh1)
      as (ts & pr & s' & Hrec & Hph' & Hs').
    { rewrite Hleft1. lia. }
    { rewrite Hml1, Hlen1. lia. }
    rewrite Hml1, Hrep1, Hlen1 in Hrec. rewrite Hrep1 in Hph'.
    change (packets (S (S n)) src s start)
      with ('(out, t, s0) ← packet src s start;
            '(outs, ts, produced, s0) ← packets (S n) src s0 (start + meta_len s0);
            Ok (out ++ outs, t :: ts, produced, s0)).
    rewrite Hpkt. cbn [mbind Result_bind bind]. rewrite Hml1 in *.
    rewrite Hrec. cbn [mbind Result_bind bind].
    eexists _, _, s'. split; [|split; [done|by eapply same_setup_trans]].
    f_equal. f_equal. f_equal. f_equal.
    destruct (repeat s).
    + rewrite app_assoc, upto_del_prefix. f_equal. f_equal. lia.
    + rewrite app_assoc. f_equal.
      replace (Z.of_nat (S n) * meta_len s) with (meta_len s + Z.of_nat n * meta_len s) by lia.
      rewrite upto_split by lia. done.
Qed.

(** One pass over a readable file that is not empty, from a block in the
    meta phase: the header, then the packets of [file_pass]. *)
Lemma general_work_pass src s data n req :
  at_rest src s → _phase s = Meta →
  content src = Some data → getsize src = Some (len data) →
  Z.of_nat n * meta_len s < len data <= (Z.of_nat n + 1) * meta_len s →
  req / meta_len s = Z.of_nat n + 2 →
  ∃ ts s',
    general_work src s req
    = Ok (_meta s
          ++ (if repeat s then data ++ zeros ((Z.of_nat n + 1) * meta_len s - len data)
              else upto (Z.of_nat n * meta_len s) data ++ zeros (meta_len s)),
          ts, s')
    ∧ _phase s' = (if repeat s then Meta else Zeros)
    ∧ _meta s' = _meta s
    ∧ nitems_written s' = nitems_written s + (Z.of_nat n + 2) * meta_len s.
Proof.
  intros Hrest Hph Hc Hsz Hn Hreq.
  pose proof Hrest as (Hml & Hbuild & _).
  pose proof (build_meta_len _ _ _ _ Hbuild) as Hmlen.
  set (s1 := set__phase File (_open_file src (set__file_bytes_left (_get_size src) s))).
  assert (Hs1 : same_setup s s1) by (by repeat split).
  assert (Hrest1 : at_rest src s1) by (by eapply at_rest_same_setup).
  destruct (file_pass src n s1 data (0 + meta_len s1) Hrest1) as (ts & pr & s' & Hrec & Hph' & Hs').
  { done. }
  { unfold s1, _open_file. cbn. done. }
  { unfold s1, _open_file, _get_size. cbn. by rewrite Hsz. }
  { done. }
  change (meta_len s1) with (meta_len s) in Hrec.
  change (repeat s1) with (repeat s) in Hrec, Hph'.
  assert (Hp : packets (S (S n)) src s 0
               = Ok (_meta s
                     ++ (if repeat s
                         then data ++ zeros ((Z.of_nat n + 1) * meta_len s - len data)
                         else upto (Z.of_nat n * meta_len s) data ++ zeros (meta_len s)),
                     {| offset := nitems_written s + 0; key := _tag_key s;
                        value := meta_len s |} :: ts, pr, s')).
  { change (packets (S (S n)) src s 0)
      with ('(out, t, s0) ← packet src s 0;
            '(outs, ts, produced, s0) ← packets (S n) src s0 (0 + meta_len s0);
            Ok (out ++ outs, t :: ts, produced, s0)).
    rewrite packet_in_meta by done. fold s1. cbn [mbind Result_bind bind].
    change (meta_len s1) with (meta_len s).
    rewrite Hrec. cbn [mbind Result_bind bind]. done. }
  pose proof (same_setup_trans _ _ _ Hs1 Hs') as (_ & Hml' & _ & _ & Hm' & _ & Hnw').
  rewrite (general_work_packets src s req (S (S n)) _ _ _ _ Hrest ltac:(lia) ltac:(lia) Hp).
  eexists _, _. split; [reflexivity|].
  cbn [_phase _meta nitems_written produce]. split; [done|]. split; [done|].
  rewrite Hnw'. f_equal.
  rewrite len_app, Hmlen.
  destruct (repeat s).
  - rewrite len_app, len_zeros by lia. lia.
  - rewrite len_app, len_zeros, len_upto by lia. lia.
Qed.

(** X14.  With [repeat] on, a request for the packets of one pass over a readable
    file that is not empty gives the header, the bytes of the file and zeros
    up to the end of the last packet, and leaves the block in the meta phase
    with the same header: the stream is this pass over and over. *)
Theorem pass_with_repeat src s data n :
  reachable src s → repeat s = true → _phase s = Meta →
  content src = Some data → getsize src = Some (len data) →
  Z.of_nat n * meta_len s < len data <= (Z.of_nat n + 1) * meta_len s →
  ∃ ts s',
    general_work src s ((Z.of_nat n + 2) * meta_len s)
    = Ok (_meta s ++ data ++ zeros ((Z.of_nat n + 1) * meta_len s - len data), ts, s')
    ∧ _phase s' = Meta
    ∧ _meta s' = _meta s
    ∧ repeat s' = true.
Proof.
  intros Hreach Hrep Hph Hc Hsz Hn.
  apply packetizer_reachable_at_rest in Hreach. pose proof Hreach as (Hml & _).
  destruct (general_work_pass src s data n ((Z.of_nat n + 2) * meta_len s) Hreach Hph Hc Hsz Hn)
    as (ts & s' & Hwork & Hph' & Hm' & _).
  { apply Z.div_mul. lia. }
  rewrite Hrep in Hwork, Hph'. exists ts, s'. split; [done|]. split; [done|]. split; [done|].
  rewrite <- Hrep. eapply general_work_keeps_repeat; [exact Hwork|done|lia].
Qed.

(** X15.  With [repeat] off, the last packet of the file is sent as zeros: a
    request for the packets of one pass gives the header, the bytes of the
    file that come before its last packet, and one packet of zeros in place
    of the rest of the file; the block is in the zeros phase afterwards. *)
Theorem last_packet_is_zeroed_without_repeat src s data n :
  reachable src s → repeat s = false → _phase s = Meta →
  content src = Some data → getsize src = Some (len data) →
  Z.of_nat n * meta_len s < len data <= (Z.of_nat n + 1) * meta_len s →
  ∃ ts s',
    general_work src s ((Z.of_nat n + 2) * meta_len s)
    = Ok (_meta s ++ upto (Z.of_nat n * meta_len s) data ++ zeros (meta_len s), ts, s')
    ∧ _phase s' = Zeros.
Proof.
  intros Hreach Hrep Hph Hc Hsz Hn.
  apply packetizer_reachable_at_rest in Hreach. pose proof Hreach as (Hml & _).
  destruct (general_work_pass src s data n ((Z.of_nat n + 2) * meta_len s) Hreach Hph Hc Hsz Hn)
    as (ts & s' & Hwork & Hph' & _).
  { apply Z.div_mul. lia. }
  rewrite Hrep in Hwork, Hph'. by exists ts, s'.
Qed.

(** A property of the block that [__init__] sets up and every packet and
    [produce] keep holds in every state of a session. *)
Lemma packets_keep src (I : blk → Prop) :
  (∀ s start out t s', at_rest src s → I s → packet src s start = Ok (out, t, s') → I s') →
  ∀ n s start out ts pr s',
    at_rest src s → I s → packets n src s start = Ok (out, ts, pr, s') → I s'.
Proof.
  intros Hpacket. induction n as [|n IH]; intros s start out ts pr s' Hrest HI Hp.
  { cbn [packets] in Hp. by inversion Hp; subst. }
  destruct (packet_spec src s start Hrest) as (o1 & s1 & Hpkt & _ & Hs1).
  change (packets (S n) src s start)
    with ('(out, t, s0) ← packet src s start;
          '(outs, ts, produced, s0) ← packets n src s0 (start + meta_len s0);
          Ok (out ++ outs, t :: ts, produced, s0)) in Hp.
  rewrite Hpkt in Hp. cbn [mbind Result_bind bind] in Hp.
  destruct (packets n src s1 (start + meta_len s1)) as [[[[o2 ts2] pr2] s2]|] eqn:Hrec; [|done].
  cbn [mbind Result_bind bind] in Hp. injection Hp as _ _ _ <-.
  apply (IH s1 _ _ _ _ _ (at_rest_same_setup _ _ _ Hrest Hs1)
           (Hpacket _ _ _ _ _ Hrest HI Hpkt) Hrec).
Qed.

Lemma reachable_keeps src (I : blk → Prop) :
  (∀ fp ml rep k s, __init__ src fp ml rep k = Ok s → I s) →
  (∀ s start out t s', at_rest src s → I s → packet src s start = Ok (out, t, s') → I s') →
  (∀ k s, I s → I (produce k s)) →
  ∀ s, reachable src s → I s.
Proof.
  intros Hinit Hpacket Hproduce s Hreach.
  induction Hreach as [fp ml rep k s Hs|s n out ts s' Hreach IH Hn Hwork]; [by eapply Hinit|].
  apply packetizer_reachable_at_rest in Hreach.
  unfold general_work in Hwork. cbv zeta in Hwork.
  destruct (n / meta_len s <=? 0).
  { injection Hwork as _ _ <-. by apply Hproduce. }
  destruct (packets _ src s 0) as [[[[o2 ts2] pr2] s2]|] eqn:Hrec; [|done].
  cbn [mbind Result_bind bind] in Hwork. injection Hwork as _ _ <-.
  apply Hproduce. by eapply (packets_keep src I Hpacket).
Qed.

(** Packets of zeros that keep the block where it is, as many as there is
    room for. *)
Lemma packets_of_zeros src (P : blk → Prop) :
  (∀ s start, at_rest src s → P s →
     ∃ t s', packet src s start = Ok (zeros (meta_len s), t, s') ∧ P s' ∧ same_setup s s') →
  ∀ n s start, at_rest src s → P s →
    ∃ ts pr s',
      packets n src s start = Ok (zeros (Z.of_nat n * meta_len s), ts, pr, s')
      ∧ P s' ∧ same_setup s s'.
Proof.
  intros Hpacket. induction n as [|n IH]; intros s start Hrest HP.
  { eexists _, _, _. split; [reflexivity|]. split; [done|apply same_setup_refl]. }
  pose proof Hrest as (Hml & _).
  destruct (Hpacket s start Hrest HP) as (t & s1 & Hpkt & HP1 & Hs1).
  pose proof Hs1 as (_ & Hml1 & _).
  destruct (IH s1 (start + meta_len s1) (at_rest_same_setup _ _ _ Hrest Hs1) HP1)
    as (ts & pr & s' & Hrec & HP' & Hs').
  change (packets (S n) src s start)
    with ('(out, t, s0) ← packet src s start;
          '(outs, ts, produced, s0) ← packets n src s0 (start + meta_len s0);
          Ok (out ++ outs, t :: ts, produced, s0)).
  rewrite Hpkt. cbn [mbind Result_bind bind]. rewrite Hrec. cbn [mbind Result_bind bind].
  rewrite Hml1, zeros_app by lia.
  replace (meta_len s + Z.of_nat n * meta_len s) with (Z.of_nat (S n) * meta_len s) by lia.
  eexists _, _, s'. split; [reflexivity|]. split; [done|by eapply same_setup_trans].
Qed.

Lemma general_work_of_zeros src (P : blk → Prop) :
  (∀ s start, at_rest src s → P s →
     ∃ t s', packet src s start = Ok (zeros (meta_len s), t, s') ∧ P s' ∧ same_setup s s') →
  (∀ k s, P s → P (produce k s)) →
  ∀ s n, at_rest src s → P s → 0 <= n →
    ∃ ts s',
      general_work src s n = Ok (zeros (meta_len s * (n / meta_len s)), ts, s') ∧ P s'.
Proof.
  intros Hpacket Hproduce s n Hrest HP Hn. pose proof Hrest as (Hml & _).
  assert (0 <= n / meta_len s) as Hq by (apply Z.div_pos; lia).
  destruct (Z.eq_dec (n / meta_len s) 0) as [Hz|Hnz].
  - unfold general_work. cbv zeta. rewrite Hz. cbn [Z.leb Z.compare].
    rewrite Z.mul_0_r. eexists _, _. split; [reflexivity|]. by apply Hproduce.
  - destruct (packets_of_zeros src P Hpacket (Z.to_nat (n / meta_len s)) s 0 Hrest HP)
      as (ts & pr & s' & Hp & HP' & _).
    rewrite (general_work_packets src s n (Z.to_nat (n / meta_len s)) _ _ _ _ Hrest
               ltac:(lia) ltac:(lia) Hp).
    rewrite Z2Nat.id by done. rewrite (Z.mul_comm (meta_len s)).
    eexists _, _. split; [reflexivity|]. by apply Hproduce.
Qed.

(** The zeros phase is entered with [repeat] off and nothing left to read,
    and that stays so. *)
Lemma zeros_phase_inv src s :
  reachable src s → _phase s = Zeros → repeat s = false ∧ _file_bytes_left s <= 0.
Proof.
  revert s.
  apply (reachable_keeps src
           (λ s, _phase s = Zeros → repeat s = false ∧ _file_bytes_left s <= 0)).
  - intros fp ml rep k s Hs. unfold __init__ in Hs.
    destruct (ml <? 16); [done|]. destruct (_build_meta src fp ml); [|done].
    cbn [mbind Result_bind bind] in Hs. by injection Hs as <-.
  - intros s start out t s' _ HI Hpkt.
    destruct s as [fp ml rep ltk m fh ph left tk nw]. cbn in HI.
    unfold packet in Hpkt. cbn [_phase] in Hpkt.
    destruct ph.
    + cbn in Hpkt. by injection Hpkt as _ _ <-.
    + unfold file_packet in Hpkt. cbn in Hpkt.
      destruct fh as [rest|]; [destruct (left >? 0) eqn:E|]; cbn in Hpkt;
        repeat (match type of Hpkt with
                | context [if ?c then _ else _] => destruct c eqn:?
                | context [_build_meta ?a ?b ?c] => destruct (_build_meta a b c)
                end; cbn in Hpkt);
        try done; injection Hpkt as _ _ <-; cbn; intros; try done; split; (done || lia).
    + destruct (HI eq_refl) as [-> Hleft].
      unfold file_packet in Hpkt. cbn in Hpkt.
      destruct fh as [rest|]; [destruct (left >? 0) eqn:E; [lia|]|]; cbn in Hpkt;
        (destruct (left <=? 0) eqn:E'; [|lia]); cbn in Hpkt;
        injection Hpkt as _ _ <-; cbn; done.
  - intros k s HI. done.
Qed.

(** X16.  The zeros phase is the end of a session with [repeat] off: every
    request from then on is answered with zeros alone, and neither the
    header nor a byte of the file is sent again. *)
Theorem zeros_phase_is_final src s n :
  reachable src s → _phase s = Zeros → 0 <= n →
  ∃ ts s',
    general_work src s n = Ok (zeros (meta_len s * (n / meta_len s)), ts, s')
    ∧ _phase s' = Zeros.
Proof.
  intros Hreach Hph Hn.
  destruct (zeros_phase_inv src s Hreach Hph) as [Hrep Hleft].
  destruct (general_work_of_zeros src
              (λ s, _phase s = Zeros ∧ repeat s = false ∧ _file_bytes_left s <= 0))
    with (s := s) (n := n) as (ts & s' & Hwork & Hph' & _).
  - clear. intros s start Hrest (Hph & Hrep & Hleft). pose proof Hrest as (Hml & _).
    destruct s as [fp ml rep ltk m fh ph left tk nw]. cbn in Hph, Hrep, Hleft, Hml. subst ph rep.
    unfold packet, file_packet. cbn.
    destruct fh as [rest|]; [destruct (left >? 0) eqn:E; [lia|]|]; cbn;
      (destruct (left <=? 0) eqn:E'; [|lia]); cbn;
      (eexists _, _; split; [reflexivity|]; cbn; split; [done|by repeat split]).
  - intros k s0 HP. done.
  - by apply packetizer_reachable_at_rest.
  - done.
  - done.
  - by exists ts, s'.
Qed.

(** X17.  A file that [stat] sees and [open] refuses: once the header has been
    sent, the count of bytes left never goes down, so the block stays in
    the file phase and answers every request with zeros alone; the header
    is not sent a second time. *)
Theorem unopenable_file_sends_zeros src s n :
  content src = None → 0 < _get_size src →
  reachable src s → _phase s = File → 0 <= n →
  ∃ ts s',
    general_work src s n = Ok (zeros (meta_len s * (n / meta_len s)), ts, s')
    ∧ _phase s' = File.
Proof.
  intros Hc Hsz Hreach Hph Hn.
  assert (Hinv : _fh s = None ∧ (_phase s = File → _file_bytes_left s = _get_size src)).
  { clear Hph. revert s Hreach.
    apply (reachable_keeps src
             (λ s, _fh s = None ∧ (_phase s = File → _file_bytes_left s = _get_size src))).
    - intros fp ml rep k s Hs. unfold __init__ in Hs.
      destruct (ml <? 16); [done|]. destruct (_build_meta src fp ml); [|done].
      cbn [mbind Result_bind bind] in Hs. injection Hs as <-. unfold _open_file. cbn.
      by rewrite Hc.
    - intros s start out t s' _ [Hfh Hleft] Hpkt.
      destruct s as [fp ml rep ltk m fh ph left tk nw]. cbn in Hfh, Hleft. subst fh.
      unfold packet in Hpkt. cbn [_phase] in Hpkt.
      destruct ph.
      + cbn in Hpkt. injection Hpkt as _ _ <-. unfold _open_file. cbn. by rewrite Hc.
      + specialize (Hleft eq_refl). subst left.
        unfold file_packet in Hpkt. cbn in Hpkt.
        destruct (_get_size src <=? 0) eqn:E; [lia|]. cbn in Hpkt.
        injection Hpkt as _ _ <-. cbn. done.
      + unfold file_packet in Hpkt. cbn in Hpkt.
        repeat (match type of Hpkt with
                | context [if ?c then _ else _] => destruct c eqn:?
                | context [_build_meta ?a ?b ?c] => destruct (_build_meta a b c)
                end; cbn in Hpkt);
          try done; injection Hpkt as _ _ <-; cbn; done.
    - intros k s0 HI. done. }
  destruct Hinv as [Hfh Hleft]. specialize (Hleft Hph).
  destruct (general_work_of_zeros src
              (λ s, _phase s = File ∧ _fh s = None ∧ 0 < _file_bytes_left s))
    with (s := s) (n := n) as (ts & s' & Hwork & Hph' & _).
  - clear. intros s start Hrest (Hph & Hfh & Hleft). pose proof Hrest as (Hml & _).
    destruct s as [fp ml rep ltk m fh ph left tk nw]. cbn in Hph, Hfh, Hleft, Hml. subst ph fh.
    unfold packet, file_packet. cbn.
    destruct (left <=? 0) eqn:E'; [lia|]. cbn.
    change (len []) with 0. destruct (0 <? ml) eqn:E0; [|lia]. rewrite Z.sub_0_r.
    eexists _, _. split; [reflexivity|]. cbn. split; [done|by repeat split].
  - intros k s0 HP. done.
  - by apply packetizer_reachable_at_rest.
  - repeat split; (done || lia).
  - done.
  - by exists ts, s'.
Qed.

End PacketizerSessions.

(** ** How the requests to the packetizer compose *)

Section PacketizerRequests.
Context `{Platform}.
Import Packetizer.

(** The scheduler's count of items enters a packet through the offset of
    its tag alone. *)
Lemma packet_produce src d s start :
  packet src (produce d s) start
  = match packet src s (d + start) with
    | Ok (out, t, s') => Ok (out, t, produce d s')
    | Raise e => Raise e
    end.
Proof.
  destruct s as [fp ml rep ltk m fh ph left tk nw].
  unfold packet, produce. cbn. rewrite Z.add_assoc.
  destruct ph; [done| |];
    unfold file_packet; cbn;
    (destruct fh as [rest|]; [destruct (left >? 0)|]); cbn;
    repeat (match goal with
            | |- context [if ?c then Ok _ else _] => destruct c
            | |- context [if ?c then _ ← _; _ else _] => destruct c
            | |- context [_build_meta ?a ?b ?c] => destruct (_build_meta a b c)
            end; cbn);
    done.
Qed.

Lemma packets_produce src d n : ∀ s start,
  packets n src (produce d s) start
  = match packets n src s (d + start) with
    | Ok (out, ts, pr, s') => Ok (out, ts, pr - d, produce d s')
    | Raise e => Raise e
    end.
Proof.
  induction n as [|n IH]; intros s start.
  { cbn [packets]. do 2 f_equal. f_equal. lia. }
  change (packets (S n) src (produce d s) start)
    with ('(out, t, s0) ← packet src (produce d s) start;
          '(outs, ts, produced, s0) ← packets n src s0 (start + meta_len s0);
          Ok (out ++ outs, t :: ts, produced, s0)).
  change (packets (S n) src s (d + start))
    with ('(out, t, s0) ← packet src s (d + start);
          '(outs, ts, produced, s0) ← packets n src s0 (d + start + meta_len s0);
          Ok (out ++ outs, t :: ts, produced, s0)).
  rewrite packet_produce.
  destruct (packet src s (d + start)) as [[[o t] s1]|]; cbn [mbind Result_bind bind]; [|done].
  rewrite IH. change (meta_len (produce d s1)) with (meta_len s1).
  rewrite Z.add_assoc.
  destruct (packets n src s1 (d + start + meta_len s1)) as [[[[o2 ts2] pr2] s2]|];
    cbn [mbind Result_bind bind]; done.
Qed.

(** The packets of two runs of the [for], the second starting where the
    first stopped, are the packets of one run. *)
Lemma packets_app src a b : ∀ s start o1 t1 p1 s1 o2 t2 p2 s2,
  packets a src s start = Ok (o1, t1, p1, s1) →
  packets b src s1 p1 = Ok (o2, t2, p2, s2) →
  packets (a + b) src s start = Ok (o1 ++ o2, t1 ++ t2, p2, s2).
Proof.
  induction a as [|a IH]; intros s start o1 t1 p1 s1 o2 t2 p2 s2 Ha Hb.
  { cbn [packets] in Ha. injection Ha as <- <- <- <-. done. }
  change (packets (S a) src s start)
    with ('(out, t, s0) ← packet src s start;
          '(outs, ts, produced, s0) ← packets a src s0 (start + meta_len s0);
          Ok (out ++ outs, t :: ts, produced, s0)) in Ha.
  change (packets (S a + b) src s start)
    with ('(out, t, s0) ← packet src s start;
          '(outs, ts, produced, s0) ← packets (a + b) src s0 (start + meta_len s0);
          Ok (out ++ outs, t :: ts, produced, s0)).
  destruct (packet src s start) as [[[o t] s']|]; cbn [mbind Result_bind bind] in Ha |- *; [|done].
  destruct (packets a src s' (start + meta_len s')) as [[[[o1' t1'] p1'] s1']|] eqn:Hrec;
    cbn [mbind Result_bind bind] in Ha; [|done].
  injection Ha as <- <- <- <-.
  rewrite (IH _ _ _ _ _ _ _ _ _ _ Hrec Hb). cbn [mbind Result_bind bind].
  by rewrite <- app_assoc.
Qed.

(** What a request comes to in terms of the [for], also when there is room
    for no packet. *)
Lemma general_work_as_packets src s n :
  at_rest src s → 0 <= n →
  ∃ out ts s1,
    packets (Z.to_nat (n / meta_len s)) src s 0 = Ok (out, ts, len out, s1)
    ∧ general_work src s n = Ok (out, ts, produce (len out) s1)
    ∧ len out = n / meta_len s * meta_len s
    ∧ same_setup s s1.
Proof.
  intros Hrest Hn. pose proof Hrest as (Hml & _).
  assert (0 <= n / meta_len s) as Hq by (apply Z.div_pos; lia).
  destruct (packets_spec src (Z.to_nat (n / meta_len s)) s 0 Hrest) as (out & s1 & Hp & Hout & Hs1).
  rewrite Z2Nat.id in Hp, Hout by done. rewrite Z.add_0_l, <- Hout in Hp.
  eexists out, _, s1. split; [exact Hp|]. split; [|done].
  destruct (Z.eq_dec (n / meta_len s) 0) as [Hz|Hnz].
  - unfold general_work. cbv zeta. rewrite Hz in *. cbn [Z.leb Z.compare].
    change (Z.to_nat 0) with 0%nat in Hp |- *. cbn [packets packet_tags] in Hp |- *.
    simplify_eq. done.
  - apply (general_work_packets src s n (Z.to_nat (n / meta_len s)) out _ (len out) s1 Hrest);
      [lia|lia|exact Hp].
Qed.

Lemma produce_produce a b s : produce b (produce a s) = produce (a + b) s.
Proof. destruct s. unfold produce. cbn. f_equal. lia. Qed.

(** X18.  The stream does not depend on how the scheduler cuts its requests: two
    requests in a row give the items, the tags and the block that one
    request for as many packets gives. *)
Theorem requests_compose src s n1 n2 o1 t1 s1 o2 t2 s2 :
  reachable src s → 0 <= n1 → 0 <= n2 →
  general_work src s n1 = Ok (o1, t1, s1) →
  general_work src s1 n2 = Ok (o2, t2, s2) →
  general_work src s (meta_len s * (n1 / meta_len s + n2 / meta_len s))
  = Ok (o1 ++ o2, t1 ++ t2, s2).
Proof.
  intros Hreach Hn1 Hn2 Hw1 Hw2.
  apply packetizer_reachable_at_rest in Hreach. pose proof Hreach as (Hml & _).
  assert (0 <= n1 / meta_len s) as Hq1 by (apply Z.div_pos; lia).
  assert (0 <= n2 / meta_len s) as Hq2 by (apply Z.div_pos; lia).
  destruct (general_work_as_packets src s n1 Hreach Hn1) as (o1' & t1' & r1 & Hp1 & Hg1 & Hl1 & Hr1).
  rewrite Hg1 in Hw1. injection Hw1 as Ho Ht Hs. subst o1' t1' s1.
  pose proof Hr1 as (_ & Hml1 & _).
  assert (Hrest1 : at_rest src (produce (len o1) r1)).
  { destruct (general_work_spec src s n1 Hreach Hn1) as (o & s' & Hg & _ & Hrest' & _).
    rewrite Hg1 in Hg. by injection Hg as _ _ <-. }
  destruct (general_work_as_packets src (produce (len o1) r1) n2 Hrest1 Hn2)
    as (o2' & t2' & r2 & Hp2 & Hg2 & Hl2 & Hr2).
  rewrite Hg2 in Hw2. injection Hw2 as Ho Ht Hs. subst o2' t2' s2.
  change (meta_len (produce (len o1) r1)) with (meta_len r1) in Hp2, Hl2.
  rewrite Hml1 in Hp2, Hl2.
  rewrite packets_produce, Z.add_0_r in Hp2.
  destruct (packets (Z.to_nat (n2 / meta_len s)) src r1 (len o1)) as [[[[o t] p] r]|] eqn:Hp2';
    [|done].
  injection Hp2 as Ho Ht Hp Hs. subst o t r2.
  pose proof (packets_app src _ _ _ _ _ _ _ _ _ _ _ _ Hp1 Hp2') as Hboth.
  rewrite <- Z2Nat.inj_add in Hboth by done.
  destruct (general_work_as_packets src s (meta_len s * (n1 / meta_len s + n2 / meta_len s))
              Hreach ltac:(nia)) as (o' & t' & r' & Hp' & Hg' & _).
  rewrite Z.mul_comm, Z.div_mul in Hp' by lia.
  rewrite Hboth in Hp'. injection Hp' as Ho Ht _ Hs. subst o' t' r'.
  rewrite Hg'. rewrite produce_produce, len_app. done.
Qed.

End PacketizerRequests.

(** ** Calls of the reassembler: which header is taken, and what can raise *)

Section ReassemblerCalls.
Context `{Platform} `{Disk}.
Import Reassembler.

(** The RECV branch of a block that is receiving, between two calls: it
    returns, unless a write or the rename raises. *)
Lemma receive_raises files0 files s b e :
  state s = RECV →
  at_rest files0 files s →
  receive files (set_buf b s) = Raise e →
  ∃ final, final_path s = Some final ∧ raised_on_output final e.
Proof.
  intros Hst Hrest. unfold at_rest in Hrest. rewrite Hst in Hrest.
  destruct Hrest as (Hd & final & fsize & data & Hfp & Hpp & Hfs & Hw & Hfiles & Hfh).
  destruct Hfh as [[Hfh Hlen]|[Hfh Hlen]].
  2:{ by rewrite receive_closed. }
  pose proof (len_nonneg b) as Hb.
  destruct (Z.eq_dec (len b) 0) as [Hz|Hnz].
  { apply len_nil_inv in Hz. subst b.
    by rewrite (receive_empty _ _ (final ++ lit ".part") fsize);
      [|done|done|done|cbn [written set_buf]; lia|done]. }
  intros Hr. exists final. split; [done|].
  destruct (Z.lt_ge_cases (len b) (fsize - written s)) as [Hlt|Hge].
  - rewrite (receive_partial _ _ (final ++ lit ".part") fsize) in Hr;
      [|done|done|done|cbn [written buf set_buf]; lia].
    destruct (write_error _ _ _) as [e'|] eqn:Hwe; [|done].
    injection Hr as <-. left. by eexists _, _.
  - rewrite (receive_complete _ _ final fsize data) in Hr;
      [|done|done|done|done|done| |cbn [written buf set_buf]; lia].
    2:{ by rewrite Hfiles, lookup_insert_eq. }
    cbv zeta in Hr.
    destruct (write_error _ _ _) as [e'|] eqn:Hwe.
    { injection Hr as <-. left. by eexists _, _. }
    destruct (replace_error _ _) as [e'|] eqn:Hre; [|done].
    injection Hr as <-. by right.
Qed.

(** The RECV branch right after [_open_out], whatever follows the header
    in the buffer: it returns, unless a write or the rename raises. *)
Lemma receive_opened_raises files s final fsize e :
  file_size s = Some fsize → 0 < fsize →
  receive (<[final ++ lit ".part" := []]> files) (set_state RECV (opened final s)) = Raise e →
  raised_on_output final e.
Proof.
  intros Hfs Hpos.
  pose proof (len_nonneg (buf s)) as Hb.
  destruct (Z.eq_dec (len (buf s)) 0) as [Hz|Hnz].
  { apply len_nil_inv in Hz.
    by rewrite (receive_empty _ _ (final ++ lit ".part") fsize);
      [|done|done|done|cbn [written set_state opened set_written]; lia|done]. }
  intros Hr.
  destruct (Z.lt_ge_cases (len (buf s)) fsize) as [Hlt|Hge].
  - rewrite (receive_partial _ _ (final ++ lit ".part") fsize) in Hr;
      [|done|done|done|].
    2:{ cbn [written buf set_state opened set_written set_fh set_unflushed set_paths]. lia. }
    destruct (write_error _ _ _) as [e'|] eqn:Hwe; [|done].
    injection Hr as <-. left. by eexists _, _.
  - rewrite (receive_complete _ _ final fsize []) in Hr;
      [|done|done|done|done|done| |].
    2:{ by rewrite lookup_insert_eq. }
    2:{ cbn [written buf set_state opened set_written set_fh set_unflushed set_paths]. lia. }
    cbv zeta in Hr.
    destruct (write_error _ _ _) as [e'|] eqn:Hwe.
    { injection Hr as <-. left. by eexists _, _. }
    destruct (replace_error _ _) as [e'|] eqn:Hre; [|done].
    injection Hr as <-. by right.
Qed.

(** [_open_out] raises what [open] raises; otherwise the [.part] of the
    path it decides on is there and empty. *)
Lemma open_out_cases files s name sz :
  let final := target files s name in
  match _open_out files s name sz with
  | Ok (files', s') =>
      s' = opened final s ∧ open_error (final ++ lit ".part") = None
      ∧ ∃ files1, files' = <[final ++ lit ".part" := []]> files1
  | Raise e => open_error (final ++ lit ".part") = Some e
  end.
Proof.
  unfold _open_out, target, _log.
  destruct (negb (overwrite s) && exists_ files _).
  - destruct (splitext _) as [b e].
    destruct (close_as files (set_paths (numbered b e (free_suffix (S (2 * base.size files)) files b e 1))
                (numbered b e (free_suffix (S (2 * base.size files)) files b e 1) ++ lit ".part") s))
      as (f1 & u & ->).
    cbv zeta. destruct (open_error _); [done|]. split; [done|]. split; [done|]. by eexists.
  - match goal with |- context [_close files ?x] => destruct (close_as files x) as (f1 & u & ->) end.
    cbv zeta. destruct (open_error _); [done|]. split; [done|]. split; [done|]. by eexists.
Qed.

(** A call in SCAN that accepts a header at [i]: what the block holds when
    the call returns, and what it can raise. *)
Lemma general_work_taken files s inp i :
  done s = false → state s = SCAN →
  let b := capped (max_buffer s) (buf s ++ inp) in
  0 <= i → accepts b i = true →
  general_work files s inp =
    match
      _open_out files (set_buf (del_prefix (hdr_meta_len b i) (del_prefix i b))
                         (set_meta (hdr_meta_len b i) (hdr_file_size b i) (hdr_name b i) s))
        (Some (hdr_name b i)) (Some (hdr_file_size b i))
    with
    | Ok (files1, s1) => receive files1 (set_state RECV s1)
    | Raise e => Raise e
    end →
  let final := target files s (Some (hdr_name b i)) in
  match general_work files s inp with
  | Ok (files', s') =>
      (state s' = RECV ∨ state s' = DONE)
      ∧ meta_len s' = Some (hdr_meta_len b i)
      ∧ file_size s' = Some (hdr_file_size b i)
      ∧ file_name s' = Some (hdr_name b i)
      ∧ final_path s' = Some final
  | Raise e =>
      open_error (final ++ lit ".part") = Some e ∨ raised_on_output final e
  end.
Proof.
  intros Hd Hst b Hi Ha Heq final.
  assert (Hsz : 0 < hdr_file_size b i).
  { apply accepts_iff in Ha as ((_ & _ & _ & _ & _ & Hsz & _) & _). lia. }
  rewrite Heq.
  set (s1 := set_buf (del_prefix (hdr_meta_len b i) (del_prefix i b))
               (set_meta (hdr_meta_len b i) (hdr_file_size b i) (hdr_name b i) s)).
  pose proof (open_out_cases files s1 (Some (hdr_name b i)) (Some (hdr_file_size b i))) as Hopen.
  cbv zeta in Hopen.
  change (target files s1 (Some (hdr_name b i))) with final in Hopen.
  destruct (_open_out files s1 _ _) as [[files1 s2]|e]; [|by left].
  destruct Hopen as (-> & Hnone & files2 & ->).
  destruct (receive _ _) as [[files' s']|e] eqn:Hrecv.
  - apply receive_frame in Hrecv as (_ & _ & _ & Hm & Hf & Hn & Hfp & _ & _ & Hstate).
    cbn [state meta_len file_size file_name final_path set_buf set_meta
         set_state opened set_written set_fh set_unflushed set_paths] in Hm, Hf, Hn, Hstate, Hfp.
    done.
  - right. by apply (receive_opened_raises files2 s1 final (hdr_file_size b i)).
Qed.



End ReassemblerCalls.

(** ** From the packetizer to the reassembler, delivery by delivery *)

Section RoundTripInChunks.
Context `{Platform} `{Disk}.
Import Reassembler.

Lemma app_eq_prefix {A} (l1 l2 m r : list A) :
  l1 ++ l2 = m ++ r → len m <= len l1 → ∃ p, l1 = m ++ p ∧ p ++ l2 = r.
Proof.
  intros Heq Hlen. apply app_eq_inv in Heq as [(p & -> & ->)|(p & -> & ->)].
  - by exists p.
  - rewrite len_app in Hlen. pose proof (len_nonneg p).
    assert (p = []) as -> by (apply len_nil_inv; lia).
    exists []. by rewrite !app_nil_r.
Qed.


End RoundTripInChunks.

(** ** The blocks at work on concrete inputs *)

Import Ascii7.


Lemma parse_failure_changes_nothing_witness :
  fst (Reassembler._try_parse_meta_at (Reassembler.set_buf name_overflow_header fresh) 0) = false
  ∧ snd (Reassembler._try_parse_meta_at (Reassembler.set_buf name_overflow_header fresh) 0)
    = Reassembler.set_buf name_overflow_header fresh.
Proof.
  split; [reflexivity|].
  apply parse_failure_changes_nothing. reflexivity.
Defined.

(** C3 as stated fails: the seven listed checks hold of this header and
    [_try_parse_meta_at] returns False, the name field being longer than
    what [meta_len] leaves for it. *)
Lemma try_parse_rejects_overflowing_name :
  Reassembler.listed_checks name_overflow_header 0
  ∧ 16 + Reassembler.hdr_name_len name_overflow_header 0
    > Reassembler.hdr_meta_len name_overflow_header 0
  ∧ fst (Reassembler._try_parse_meta_at (Reassembler.set_buf name_overflow_header fresh) 0)
    = false.
Proof.
  unfold Reassembler.listed_checks. repeat split; try (vm_compute; congruence); reflexivity.
Qed.

Lemma try_parse_accepts_iff_witness :
  0 <= 0
  ∧ (fst (Reassembler._try_parse_meta_at (Reassembler.set_buf a_txt_header fresh) 0) = true
     ↔ Reassembler.listed_checks a_txt_header 0
       ∧ 16 + Reassembler.hdr_name_len a_txt_header 0
         <= Reassembler.hdr_meta_len a_txt_header 0).
Proof.
  split; [lia|].
  apply (try_parse_accepts_iff (Reassembler.set_buf a_txt_header fresh) 0). lia.
Defined.

(** C5 as stated fails: the candidate at 0 passes the checks on its fields
    and lacks bytes, and the scan does not stop there: it goes on to the
    header at 16, opens [recv.bin], writes the byte that follows and is DONE
    with an empty buffer. *)
Lemma need_more_data_does_not_stop_the_scan :
  Reassembler.needs_more_data (far_candidate ++ tiny_header ++ [x58]) 0
  ∧ Reassembler.general_work ∅ fresh (far_candidate ++ tiny_header ++ [x58])
    = Ok (<[lit "/out/recv.bin" := [x58]]> ∅,
          Reassembler.set_state Reassembler.DONE
            (Reassembler.set_done true
               (Reassembler.set_fh None
                  (Reassembler.set_written 1
                     (Reassembler.opened (lit "/out/recv.bin")
                        (Reassembler.set_meta 16 1 (lit "recv.bin") fresh)))))).
Proof.
  split.
  - unfold Reassembler.needs_more_data. repeat split; try (vm_compute; congruence); reflexivity.
  - vm_compute. reflexivity.
Qed.

Lemma need_more_data_is_passed_over_witness :
  Reassembler.needs_more_data (far_candidate ++ [x58]) 0
  ∧ Reassembler.general_work ∅ fresh (far_candidate ++ [x58])
    = Ok (∅, Reassembler.set_buf (far_candidate ++ [x58]) fresh).
Proof.
  assert (Hneed : Reassembler.needs_more_data
            (Reassembler.capped (Reassembler.max_buffer fresh)
               (Reassembler.buf fresh ++ (far_candidate ++ [x58]))) 0).
  { unfold Reassembler.needs_more_data. repeat split; try (vm_compute; congruence); reflexivity. }
  split; [exact Hneed|].
  destruct (need_more_data_is_passed_over ∅ fresh (far_candidate ++ [x58]) 0
              eq_refl eq_refl ltac:(lia) Hneed) as (_ & _ & Hkeep).
  apply Hkeep. intros j Hj Hne.
  destruct (Reassembler.accepts _ j) eqn:Ha; [|done].
  pose proof (accepts_bound _ _ Ha) as Hb.
  change (len _) with 17 in Hb.
  assert (j = 1) as -> by lia.
  vm_compute in Ha. done.
Defined.

(** C8 as stated fails: with [max_buffer = 4], ten bytes that hold no
    header stay in the buffer, ten being less than the 1 MiB the cap cuts
    down to. *)
Lemma scan_buffer_exceeds_small_max_buffer :
  Reassembler.deliver ∅ (Reassembler.__init__ (lit "/out") true true 4) [zeros 10]
  = Ok (∅, Reassembler.set_buf (zeros 10) (Reassembler.__init__ (lit "/out") true true 4))
  ∧ Reassembler.max_buffer (Reassembler.__init__ (lit "/out") true true 4)
    < len (zeros 10).
Proof. split; [vm_compute; reflexivity|reflexivity]. Qed.

Lemma scan_buffer_bounded_witness :
  Reassembler.reachable ∅ (Reassembler.__init__ (lit "/out") true true 4) ∅
    (Reassembler.set_buf (zeros 10) (Reassembler.__init__ (lit "/out") true true 4))
  ∧ len (zeros 10) <= Z.max 4 (1024 * 1024).
Proof.
  assert (Hreach : Reassembler.reachable ∅ (Reassembler.__init__ (lit "/out") true true 4) ∅
            (Reassembler.set_buf (zeros 10) (Reassembler.__init__ (lit "/out") true true 4))).
  { eapply Reassembler.reach_work; [apply Reassembler.reach_start|].
    instantiate (1 := zeros 10). vm_compute. reflexivity. }
  split; [exact Hreach|].
  exact (scan_buffer_bounded _ _ _ _ _ _ _ Hreach).
Defined.






(** C9, at the failing input: [stat] reports ten bytes and [open] fails.
    The count of bytes left never goes down, so after the header the block
    stays in the file phase and sends packets of zeros for ever, where on an
    empty file it is back in the meta phase after each packet and sends the
    header again. *)
Lemma open_failure_differs_from_empty_file :
  Packetizer.session unopenable (lit "/tmp/a.txt") 32 true (lit "packet_len") [128]
  = Ok (a_txt_header32 ++ zeros 96,
        Packetizer.packet_tags (lit "packet_len") 32 0 4, Packetizer.File)
  ∧ Packetizer.session Packetizer.empty_file (lit "/tmp/a.txt") 32 true (lit "packet_len") [128]
    = Ok (empty_header32 ++ zeros 32 ++ empty_header32 ++ zeros 32,
          Packetizer.packet_tags (lit "packet_len") 32 0 4, Packetizer.Meta)
  ∧ match Packetizer.__init__ unopenable (lit "/tmp/a.txt") 32 true (lit "packet_len"),
          Packetizer.__init__ Packetizer.empty_file (lit "/tmp/a.txt") 32 true
            (lit "packet_len") with
    | Ok s, Ok e =>
        Packetizer.phases 4 unopenable s
        = [Packetizer.File; Packetizer.File; Packetizer.File; Packetizer.File]
        ∧ Packetizer.phases 4 Packetizer.empty_file e
          = [Packetizer.File; Packetizer.Meta; Packetizer.File; Packetizer.Meta]
    | _, _ => False
    end.
Proof. vm_compute. repeat split; reflexivity. Qed.

Lemma open_failure_is_not_fatal_witness :
  (∀ s n, Packetizer.reachable missing s → 0 <= n →
     ∃ out ts s', Packetizer.general_work missing s n = Ok (out, ts, s'))
  ∧ (∀ s start, Packetizer.reachable missing s → Packetizer._phase s ≠ Packetizer.Meta →
       ∃ t s', Packetizer.packet missing s start = Ok (zeros (Packetizer.meta_len s), t, s'))
  ∧ (Packetizer._get_size missing = 0 →
       ∀ fp ml rep k reqs,
         Packetizer.session missing fp ml rep k reqs
         = Packetizer.session Packetizer.empty_file fp ml rep k reqs).
Proof. apply (open_failure_is_not_fatal missing). reflexivity. Defined.



Lemma scenario_a_txt_witness :
  let tag_at := λ o, {| Packetizer.offset := o; Packetizer.key := lit "packet_len";
                        Packetizer.value := 512 |} in
  (∃ s s1 s2 s2',
     Packetizer.__init__ a_txt_source (lit "/tmp/a.txt") 512 true (lit "packet_len") = Ok s
     ∧ Packetizer.general_work a_txt_source s 512 = Ok (a_txt_header, [tag_at 0], s1)
     ∧ Packetizer.general_work a_txt_source s1 512
       = Ok (a_txt_data_packet, [tag_at 512], s2)
     ∧ Packetizer.general_work a_txt_source s 1024
       = Ok (a_txt_header ++ a_txt_data_packet, [tag_at 0; tag_at 512], s2'))
  ∧ (∃ files' r,
       Reassembler.general_work ∅ (Reassembler.__init__ (lit "/out") true true (4 * 1024 * 1024))
         (a_txt_header ++ a_txt_data_packet)
       = Ok (files', r)
       ∧ Reassembler.state r = Reassembler.DONE
       ∧ Reassembler.final_path r = Some (join (lit "/out") (lit "a.txt"))
       ∧ files' !! join (lit "/out") (lit "a.txt") = Some digits10)
  ∧ (∃ files' r,
       Reassembler.deliver ∅ (Reassembler.__init__ (lit "/out") true true (4 * 1024 * 1024))
         [a_txt_header; a_txt_data_packet]
       = Ok (files', r)
       ∧ Reassembler.state r = Reassembler.DONE
       ∧ Reassembler.final_path r = Some (join (lit "/out") (lit "a.txt"))
       ∧ files' !! join (lit "/out") (lit "a.txt") = Some digits10).
Proof.
  apply (scenario_a_txt (lit "/tmp/a.txt") (lit "packet_len") ∅ (lit "/out") true
           (4 * 1024 * 1024)); try reflexivity.
  output_goes_through.
Defined.

Lemma done_is_final_witness :
  let files : FileStore := <[lit "/out/recv.bin" := [x58]]> ∅ in
  let r := finished fresh (lit "/out/recv.bin") in
  Reassembler.reachable ∅ fresh files r
  ∧ Reassembler.reachable files r files r
  ∧ files = files
  ∧ Reassembler.state r = Reassembler.DONE
  ∧ Reassembler.buf r = Reassembler.buf r
  ∧ Reassembler.written r = Reassembler.written r
  ∧ Reassembler.final_path r = Reassembler.final_path r.
Proof.
  intros files r.
  assert (Hreach : Reassembler.reachable ∅ fresh files r).
  { eapply Reassembler.reach_work; [apply Reassembler.reach_start|].
    instantiate (1 := tiny_header ++ [x58]). vm_compute. reflexivity. }
  assert (Hmore : Reassembler.reachable files r files r).
  { apply (Reassembler.reach_stop files r files r files r); [|vm_compute; reflexivity].
    apply (Reassembler.reach_work files r files r digits10 files r);
      [apply Reassembler.reach_start|vm_compute; reflexivity]. }
  split; [exact Hreach|]. split; [exact Hmore|].
  exact (done_is_final _ _ _ _ _ _ _ _ _ Hreach eq_refl Hmore).
Defined.

Lemma stopped_transfer_stays_partial_witness :
  let files : FileStore := <[lit "/out/a.txt.part" := []]> ∅ in
  let stopped := Reassembler.stop files receiving in
  let r' := Reassembler.set_buf digits10 stopped.2 in
  stopped.1 = <[lit "/out/a.txt.part" := [x30; x31; x32]]> ∅
  ∧ Reassembler.reachable stopped.1 stopped.2 stopped.1 r'
  ∧ stopped.1 = stopped.1
  ∧ Reassembler.state r' = Reassembler.RECV
  ∧ Reassembler.fh r' = None
  ∧ Reassembler.written r' = Reassembler.written receiving
  ∧ Reassembler.final_path r' = Reassembler.final_path receiving.
Proof.
  intros files stopped r'.
  split; [vm_compute; reflexivity|].
  assert (Hmore : Reassembler.reachable stopped.1 stopped.2 stopped.1 r').
  { eapply Reassembler.reach_work; [apply Reassembler.reach_start|].
    instantiate (1 := digits10). vm_compute. reflexivity. }
  split; [exact Hmore|].
  exact (stopped_transfer_stays_partial files receiving stopped.1 r' eq_refl Hmore).
Defined.

Lemma split_delivery_while_scanning_witness :
  Reassembler.deliver ∅ fresh
    [[x46; x49]; [x4c; x45; x01; x10; x00; x00; x01; x00; x00; x00; x00; x00; x00; x00; x58]]
  = Reassembler.deliver ∅ fresh
      [[x46; x49] ++ [x4c; x45; x01; x10; x00; x00; x01; x00; x00; x00; x00; x00; x00; x00; x58]].
Proof.
  apply (split_delivery_while_scanning ∅ fresh [x46; x49]).
  - reflexivity.
  - reflexivity.
  - intros j Hj. destruct (Reassembler.accepts _ j) eqn:Ha; [|done].
    pose proof (accepts_bound _ _ Ha) as Hb. change (len _) with 2 in Hb. lia.
  - vm_compute. congruence.
Defined.

Lemma overlong_delivery_is_cut_witness :
  let s := Reassembler.__init__ (lit "/out") true true 4 in
  Reassembler.max_buffer s < len (Reassembler.buf s ++ zeros 10)
  ∧ Reassembler.general_work ∅ s (zeros 10)
    = Reassembler.general_work ∅ (Reassembler.set_buf [] s)
        (last_items (1024 * 1024) (Reassembler.buf s ++ zeros 10)).
Proof.
  intros s. split; [reflexivity|].
  apply (overlong_delivery_is_cut ∅ s (zeros 10)); reflexivity.
Defined.


Lemma output_path_is_free_witness :
  let files : FileStore :=
    <[lit "/out/recv.bin" := [x00]]> (<[lit "/out/recv_1.bin.part" := []]> ∅) in
  Reassembler.overwrite careful = false
  ∧ Reassembler.target files careful None = lit "/out/recv_2.bin"
  ∧ files !! Reassembler.target files careful None = None.
Proof.
  intros files. split; [reflexivity|]. split; [vm_compute; reflexivity|].
  exact (proj1 (output_path_is_free files careful None eq_refl)).
Defined.

Lemma no_overwrite_spares_files_witness :
  let files0 : FileStore := <[lit "/out/recv.bin" := [x00]]> ∅ in
  let files : FileStore := <[lit "/out/recv_1.bin" := [x58]]> files0 in
  let r := finished careful (lit "/out/recv_1.bin") in
  Reassembler.reachable files0 careful files r
  ∧ files !! lit "/out/recv.bin" = Some [x00].
Proof.
  intros files0 files r.
  assert (Hreach : Reassembler.reachable files0 careful files r).
  { eapply Reassembler.reach_work; [apply Reassembler.reach_start|].
    instantiate (1 := tiny_header ++ [x58]). vm_compute. reflexivity. }
  split; [exact Hreach|].
  apply (no_overwrite_spares_files files0 (lit "/out") true (4 * 1024 * 1024) files r Hreach).
  - reflexivity.
  - vm_compute. congruence.
Defined.

Lemma meta_packet_is_a_header_witness :
  let s := a_txt_block true Packetizer.Meta (Some digits10) 10 0 in
  Packetizer.reachable a_txt_source s
  ∧ len (Packetizer._meta s) = 32
  ∧ Reassembler.hdr_magic (Packetizer._meta s) 0 = MAGIC
  ∧ Reassembler.hdr_version (Packetizer._meta s) 0 = 1
  ∧ Reassembler.hdr_meta_len (Packetizer._meta s) 0 = 32
  ∧ Reassembler.hdr_name_len (Packetizer._meta s) 0
    = len (upto 255 (encode_ignore (basename (lit "/tmp/a.txt"))))
  ∧ Reassembler.hdr_file_size (Packetizer._meta s) 0 = Packetizer._get_size a_txt_source.
Proof.
  intros s.
  assert (Hreach : Packetizer.reachable a_txt_source s).
  { apply (Packetizer.reach_init a_txt_source (lit "/tmp/a.txt") 32 true (lit "packet_len")).
    vm_compute. reflexivity. }
  split; [exact Hreach|].
  exact (meta_packet_is_a_header a_txt_source s Hreach).
Defined.

Lemma built_header_accepted_iff_witness :
  Packetizer._build_meta a_txt_source (lit "/tmp/a.txt") 32 = Ok a_txt_header32
  ∧ (Reassembler.accepts (a_txt_header32 ++ digits10) 0 = true
     ↔ 32 <= 4096
       ∧ 0 < Packetizer._get_size a_txt_source <= 1024 ^ 3
       ∧ 16 + len (upto 255 (encode_ignore (basename (lit "/tmp/a.txt")))) <= 32).
Proof.
  assert (Hm : Packetizer._build_meta a_txt_source (lit "/tmp/a.txt") 32 = Ok a_txt_header32)
    by (vm_compute; reflexivity).
  split; [exact Hm|].
  apply (built_header_accepted_iff a_txt_source (lit "/tmp/a.txt") 32 a_txt_header32 digits10 Hm).
  lia.
Defined.

Lemma header_round_trip_witness :
  Reassembler._try_parse_meta_at (Reassembler.set_buf (a_txt_header32 ++ digits10) fresh) 0
  = (true,
     Reassembler.set_meta 32 (Packetizer._get_size a_txt_source)
       (let name := strip_nul (decode_ignore
                                 (upto 255 (encode_ignore (basename (lit "/tmp/a.txt"))))) in
        if is_empty name then lit "recv.bin" else name)
       (Reassembler.set_buf (a_txt_header32 ++ digits10) fresh)).
Proof.
  apply (header_round_trip a_txt_source (lit "/tmp/a.txt") 32 a_txt_header32 fresh digits10).
  - vm_compute. reflexivity.
  - lia.
  - vm_compute. split; congruence.
  - vm_compute. congruence.
Defined.

Lemma pass_with_repeat_witness :
  let s := a_txt_block true Packetizer.Meta (Some digits10) 10 0 in
  Packetizer.reachable a_txt_source s
  ∧ ∃ ts s',
      Packetizer.general_work a_txt_source s ((Z.of_nat 0 + 2) * Packetizer.meta_len s)
      = Ok (Packetizer._meta s ++ digits10
            ++ zeros ((Z.of_nat 0 + 1) * Packetizer.meta_len s - len digits10), ts, s')
      ∧ Packetizer._phase s' = Packetizer.Meta
      ∧ Packetizer._meta s' = Packetizer._meta s
      ∧ Packetizer.repeat s' = true.
Proof.
  intros s.
  assert (Hreach : Packetizer.reachable a_txt_source s).
  { apply (Packetizer.reach_init a_txt_source (lit "/tmp/a.txt") 32 true (lit "packet_len")).
    vm_compute. reflexivity. }
  split; [exact Hreach|].
  apply (pass_with_repeat a_txt_source s digits10 0 Hreach); try reflexivity.
  vm_compute. split; congruence.
Defined.

Lemma last_packet_is_zeroed_without_repeat_witness :
  let s := a_txt_block false Packetizer.Meta (Some digits10) 10 0 in
  Packetizer.reachable a_txt_source s
  ∧ ∃ ts s',
      Packetizer.general_work a_txt_source s ((Z.of_nat 0 + 2) * Packetizer.meta_len s)
      = Ok (Packetizer._meta s ++ upto (Z.of_nat 0 * Packetizer.meta_len s) digits10
            ++ zeros (Packetizer.meta_len s), ts, s')
      ∧ Packetizer._phase s' = Packetizer.Zeros.
Proof.
  intros s.
  assert (Hreach : Packetizer.reachable a_txt_source s).
  { apply (Packetizer.reach_init a_txt_source (lit "/tmp/a.txt") 32 false (lit "packet_len")).
    vm_compute. reflexivity. }
  split; [exact Hreach|].
  apply (last_packet_is_zeroed_without_repeat a_txt_source s digits10 0 Hreach);
    try reflexivity.
  vm_compute. split; congruence.
Defined.

Lemma zeros_phase_is_final_witness :
  let s := a_txt_block false Packetizer.Zeros (Some []) 0 64 in
  Packetizer.reachable a_txt_source s
  ∧ ∃ ts s',
      Packetizer.general_work a_txt_source s 100
      = Ok (zeros (Packetizer.meta_len s * (100 / Packetizer.meta_len s)), ts, s')
      ∧ Packetizer._phase s' = Packetizer.Zeros.
Proof.
  intros s.
  assert (Hreach : Packetizer.reachable a_txt_source s).
  { eapply (Packetizer.reach_work a_txt_source
              (a_txt_block false Packetizer.Meta (Some digits10) 10 0) 64).
    - apply (Packetizer.reach_init a_txt_source (lit "/tmp/a.txt") 32 false (lit "packet_len")).
      vm_compute. reflexivity.
    - lia.
    - vm_compute. reflexivity. }
  split; [exact Hreach|].
  apply (zeros_phase_is_final a_txt_source s 100 Hreach); [reflexivity|lia].
Defined.

Lemma unopenable_file_sends_zeros_witness :
  let s := a_txt_block true Packetizer.File None 10 32 in
  Packetizer.reachable unopenable s
  ∧ ∃ ts s',
      Packetizer.general_work unopenable s 100
      = Ok (zeros (Packetizer.meta_len s * (100 / Packetizer.meta_len s)), ts, s')
      ∧ Packetizer._phase s' = Packetizer.File.
Proof.
  intros s.
  assert (Hreach : Packetizer.reachable unopenable s).
  { eapply (Packetizer.reach_work unopenable
              (a_txt_block true Packetizer.Meta None 10 0) 32).
    - apply (Packetizer.reach_init unopenable (lit "/tmp/a.txt") 32 true (lit "packet_len")).
      vm_compute. reflexivity.
    - lia.
    - vm_compute. reflexivity. }
  split; [exact Hreach|].
  apply (unopenable_file_sends_zeros unopenable s 100); try reflexivity; try lia.
  exact Hreach.
Defined.

Lemma requests_compose_witness :
  let s := a_txt_block true Packetizer.Meta (Some digits10) 10 0 in
  let tag_at o :=
    {| Packetizer.offset := o; Packetizer.key := lit "packet_len"; Packetizer.value := 32 |} in
  Packetizer.general_work a_txt_source s
    (Packetizer.meta_len s * (40 / Packetizer.meta_len s + 70 / Packetizer.meta_len s))
  = Ok (a_txt_header32 ++ ((digits10 ++ zeros 22) ++ a_txt_header32),
        [tag_at 0] ++ [tag_at 32; tag_at 64],
        a_txt_block true Packetizer.File (Some digits10) 10 96).
Proof.
  intros s tag_at.
  apply (requests_compose a_txt_source s 40 70 _ _
           (a_txt_block true Packetizer.File (Some digits10) 10 32)).
  - apply (Packetizer.reach_init a_txt_source (lit "/tmp/a.txt") 32 true (lit "packet_len")).
    vm_compute. reflexivity.
  - lia.
  - lia.
  - vm_compute. reflexivity.
  - vm_compute. reflexivity.
Defined.



